(** * ITSG-33 controls browser: extraction pipeline and read API

    A shallow embedding of the catalogue extractors
    ([scripts/extract-annex-3a.mjs], [scripts/extract-annex-3a-html.mjs]),
    the assignment report ([scripts/export-assignments-csv.mjs]) and the
    edge API ([apps/api/src/r2.ts], [rag.ts], [index.ts]), with the
    properties of the design document checked against them.

    Conventions of the embedding.
    - A JavaScript string is a list of 8-bit code units ([str]).  Case
      conversion acts on the ASCII letters only, as JavaScript's does on
      ASCII strings; a property that depends on the case of other
      characters is stated of ASCII strings ([isAscii]).  The white
      space class [\s] is TAB, LF, VT, FF, CR, SPACE and U+00A0.
    - A JavaScript number that the code only uses as an integer is a [Z].
    - [undefined] / absent optional fields are [None].
    - A regular expression is embedded as the matcher it denotes, written
      next to the literal it comes from; where backtracking can change the
      outcome the alternatives are tried in the engine's order.
    - File-system effects are a trace of operations threaded through the
      run; a thrown error ends the run with the trace written so far. *)

From Stdlib Require Import List Ascii ZArith Lia Bool Arith Sorting.Permutation Sorting.Sorted.
From Stdlib Require Strings.String Numbers.DecimalString.
From Equations Require Import Equations.
Import ListNotations.
Open Scope list_scope.

(** ** Strings *)

Definition str := list ascii.

Inductive str_lit := lit_nil | lit_cons (a : ascii) (s : str_lit).

Fixpoint lit_of_bytes (l : list Byte.byte) : str_lit :=
  match l with
  | [] => lit_nil
  | b :: l' => lit_cons (ascii_of_byte b) (lit_of_bytes l')
  end.

Fixpoint bytes_of_lit (s : str_lit) : list Byte.byte :=
  match s with
  | lit_nil => []
  | lit_cons a s' => byte_of_ascii a :: bytes_of_lit s'
  end.

Declare Scope str_scope.
Delimit Scope str_scope with str.
#[warning="-via-type-remapping,-via-type-mismatch"]
String Notation str lit_of_bytes bytes_of_lit
  (via str_lit mapping [[nil] => lit_nil, [cons] => lit_cons]) : str_scope.
Open Scope str_scope.

Module Js.

(** Character classes of the regular expressions in the sources. *)
Definition code (c : ascii) : nat := nat_of_ascii c.
Definition between (lo hi : nat) (c : ascii) : bool :=
  (lo <=? code c) && (code c <=? hi).
Definition is_upper : ascii -> bool := between 65 90.     (* [A-Z] *)
Definition is_lower : ascii -> bool := between 97 122.    (* [a-z] *)
Definition is_digit : ascii -> bool := between 48 57.     (* \d *)
Definition is_alpha (c : ascii) : bool := is_upper c || is_lower c.
Definition is_word (c : ascii) : bool :=                  (* \w *)
  is_alpha c || is_digit c || (code c =? 95).
Definition is_space (c : ascii) : bool :=                 (* \s *)
  between 9 13 c || (code c =? 32) || (code c =? 160).
Definition is_newline (c : ascii) : bool :=               (* not [.] *)
  (code c =? 10) || (code c =? 13).

Definition chr (n : nat) : ascii := ascii_of_nat n.
Definition lc (c : ascii) : ascii := if is_upper c then chr (code c + 32) else c.
Definition uc (c : ascii) : ascii := if is_lower c then chr (code c - 32) else c.

(** The case maps, as they act on ASCII strings. *)
Definition toLowerCase (s : str) : str := map lc s.
Definition toUpperCase (s : str) : str := map uc s.

Definition ceqb (a b : ascii) : bool := Ascii.eqb a b.
(** Character equality under the [i] flag. *)
Definition ceqb_ci (a b : ascii) : bool := Ascii.eqb (lc a) (lc b).

Fixpoint eqb (a b : str) : bool :=
  match a, b with
  | [], [] => true
  | x :: a', y :: b' => ceqb x y && eqb a' b'
  | _, _ => false
  end.

(** [s.startsWith(p)]; [startsWith_ci] is the same under the [i] flag. *)
Fixpoint startsWith (s p : str) : bool :=
  match p, s with
  | [], _ => true
  | x :: p', y :: s' => ceqb x y && startsWith s' p'
  | _ :: _, [] => false
  end.

Fixpoint startsWith_ci (s p : str) : bool :=
  match p, s with
  | [], _ => true
  | x :: p', y :: s' => ceqb_ci x y && startsWith_ci s' p'
  | _ :: _, [] => false
  end.

(** [s.includes(p)]. *)
Fixpoint includes (s p : str) : bool :=
  startsWith s p ||
  match s with
  | [] => false
  | _ :: s' => includes s' p
  end.

Fixpoint dropWhile (f : ascii -> bool) (s : str) : str :=
  match s with
  | c :: s' => if f c then dropWhile f s' else s
  | [] => []
  end.

Fixpoint takeWhile (f : ascii -> bool) (s : str) : str :=
  match s with
  | c :: s' => if f c then c :: takeWhile f s' else []
  | [] => []
  end.

Definition trimStart (s : str) : str := dropWhile is_space s.
Definition trimEnd (s : str) : str := rev (dropWhile is_space (rev s)).
Definition trim (s : str) : str := trimEnd (trimStart s).

(** Truthiness of a string: [Boolean(s)], [if (s)], [s || x]. *)
Definition nonEmpty (s : str) : bool :=
  match s with [] => false | _ :: _ => true end.

Definition mem (x : str) (l : list str) : bool := existsb (eqb x) l.

(** [Array.from(new Set(l))]: first occurrences, in order. *)
Fixpoint dedupe_into (seen l : list str) : list str :=
  match l with
  | [] => seen
  | x :: l' => dedupe_into (if mem x seen then seen else seen ++ [x]) l'
  end.
Definition dedupe (l : list str) : list str := dedupe_into [] l.

(** [l.join(sep)]. *)
Fixpoint join (sep : str) (l : list str) : str :=
  match l with
  | [] => []
  | [x] => x
  | x :: l' => x ++ sep ++ join sep l'
  end.

(** [s.split(c)] for a one-character separator. *)
Fixpoint split_on (c : ascii) (s : str) (cur : str) : list str :=
  match s with
  | [] => [rev cur]
  | x :: s' =>
      if ceqb x c then rev cur :: split_on c s' [] else split_on c s' (x :: cur)
  end.
Definition split (c : ascii) (s : str) : list str := split_on c s [].

(** [s.replace(/\s+/g, " ")]: every maximal run of white space becomes
    one space. *)
Fixpoint collapse_ws (s : str) (in_run : bool) : str :=
  match s with
  | [] => []
  | c :: s' =>
      if is_space c
      then (if in_run then collapse_ws s' true else " "%char :: collapse_ws s' true)
      else c :: collapse_ws s' false
  end.
Definition collapseSpaces (s : str) : str := collapse_ws s false.

(** The maximal runs of characters satisfying [keep]:
    [s.split(/[^...]+/g).filter(Boolean)]. *)
Fixpoint runs (keep : ascii -> bool) (s : str) (cur : str) : list str :=
  match s with
  | [] => match cur with [] => [] | _ => [rev cur] end
  | c :: s' =>
      if keep c then runs keep s' (c :: cur)
      else match cur with
           | [] => runs keep s' []
           | _ => rev cur :: runs keep s' []
           end
  end.

(** [s.replace(pat, rep)] with a string pattern: the first occurrence. *)
Fixpoint replaceFirst (s pat rep : str) : str :=
  if startsWith s pat then rep ++ skipn (length pat) s
  else match s with
       | [] => []
       | c :: s' => c :: replaceFirst s' pat rep
       end.

(** A [/g] regular expression applied from left to right
    ([String.prototype.match], or [exec] looped until it returns [null],
    which also resets [lastIndex]).  [m prev s] tries the expression at
    the current position, [prev] being the character before it, and
    returns the captured value together with the length of the match
    ([>= 1] for every expression used here); after a match the scan
    resumes behind it. *)
Section MatchAll.
Context {A : Type} (m : option ascii -> str -> option (A * nat)).

Fixpoint scan (prev : option ascii) (s : str) (skip : nat) : list A :=
  match s with
  | [] => []
  | c :: s' =>
      match skip with
      | S k => scan (Some c) s' k
      | O =>
          match m prev s with
          | Some (v, len) => v :: scan (Some c) s' (len - 1)
          | None => scan (Some c) s' 0
          end
      end
  end.

Definition matchAll (s : str) : list A := scan None s 0.

End MatchAll.

(** The first match of an expression without [/g]
    ([String.prototype.match]): [m s] tries it at the current position. *)
Fixpoint search {A : Type} (m : str -> option A) (s : str) : option A :=
  match m s with
  | Some v => Some v
  | None =>
      match s with
      | [] => None
      | _ :: s' => search m s'
      end
  end.

(** The word boundary [\b] between [prev] and the head of [s]. *)
Definition is_word_opt (c : option ascii) : bool :=
  match c with Some c => is_word c | None => false end.
Definition boundary (prev : option ascii) (s : str) : bool :=
  xorb (is_word_opt prev) (is_word_opt (hd_error s)).

(** [Array.prototype.sort(cmp)]: stable; [x] goes before the first
    element it does not have to follow. *)
Section Sort.
Context {A : Type} (cmp : A -> A -> Z).

Fixpoint insert (x : A) (l : list A) : list A :=
  match l with
  | [] => [x]
  | y :: l' => if (cmp x y <=? 0)%Z then x :: l else y :: insert x l'
  end.

Definition sort (l : list A) : list A := fold_right insert [] l.
End Sort.

(** [l.slice(0, n)]; a negative [n] counts from the end. *)
Definition slice0 {A : Type} (l : list A) (n : Z) : list A :=
  if (n <? 0)%Z
  then firstn (length l - Z.to_nat (- n)) l
  else firstn (Z.to_nat n) l.

(** An insertion-ordered [Map] with string keys: [set] on a key that is
    present replaces its value where it stands. *)
Section JsMap.
Context {V : Type}.
Definition Map := list (str * V).

Fixpoint set (m : Map) (k : str) (v : V) : Map :=
  match m with
  | [] => [(k, v)]
  | (k', v') :: m' => if eqb k' k then (k, v) :: m' else (k', v') :: set m' k v
  end.

Fixpoint get (m : Map) (k : str) : option V :=
  match m with
  | [] => None
  | (k', v') :: m' => if eqb k' k then Some v' else get m' k
  end.

(** [new Map(pairs)]. *)
Definition ofPairs (pairs : list (str * V)) : Map :=
  fold_left (fun m kv => set m (fst kv) (snd kv)) pairs [].

(** [Array.from(m.values())]. *)
Definition values (m : Map) : list V := map snd m.
Definition keys (m : Map) : list str := map fst m.
End JsMap.
Arguments Map : clear implicits.

End Js.

(** ** JSON values, as the API reads and writes them *)

#[warning="-register-all"] Inductive json :=
| JNull
| JBool (b : bool)
| JNum (n : Z)
| JStr (s : str)
| JArr (l : list json)
| JObj (fields : list (str * json)).

Module Json.
(** [o.k]: [None] is [undefined]. *)
Fixpoint lookup (fields : list (str * json)) (k : str) : option json :=
  match fields with
  | [] => None
  | (k', v) :: fs =>
      match lookup fs k with
      | Some w => Some w            (* a later duplicate key wins *)
      | None => if Js.eqb k' k then Some v else None
      end
  end.

Definition prop (o : json) (k : str) : option json :=
  match o with
  | JObj fields => lookup fields k
  | _ => None
  end.

Definition truthy (v : json) : bool :=
  match v with
  | JNull => false
  | JBool b => b
  | JNum n => negb (n =? 0)%Z
  | JStr s => Js.nonEmpty s
  | JArr _ | JObj _ => true
  end.

Fixpoint strings (l : list json) : option (list str) :=
  match l with
  | [] => Some []
  | JStr s :: l' => option_map (cons s) (strings l')
  | _ :: _ => None
  end.
End Json.

(** ** apps/api/src/r2.ts *)

Module R2.

(** What a call can evaluate to: [null], [undefined], or a value. *)
Inductive result (T : Type) :=
| Null
| Undefined
| Value (v : T).
Arguments Null {T}.
Arguments Undefined {T}.
Arguments Value {T} v.

(** An R2 bucket: [bucket.get(key)] gives the stored bytes or [null]. *)
Definition R2Bucket := str -> option str.

(** [getJson].  The [try { JSON.parse } catch { return null }] block
    stands inside the [if (!obj)] branch, behind its [return null]:
    it is never run.  When the object exists the function body falls
    through its end and the call evaluates to [undefined]. *)
Definition getJson (bucket : R2Bucket) (key : str) : result json :=
  match bucket key with
  | None => Null
  | Some _ => Undefined
  end.

(** [!x] on such a result. *)
Definition falsy {T} (truthy : T -> bool) (r : result T) : bool :=
  match r with
  | Null | Undefined => true
  | Value v => negb (truthy v)
  end.

End R2.

(** ** apps/api/src/rag.ts *)

Module Rag.

Record ControlIndexItem := {
  control_id : str;
  control_name : str;
  family_id : str;
  aliases : option (list str);
  keywords : option (list str)
}.

(** [tokenize]: [text.toLowerCase().split(/[^a-z0-9]+/g).filter(Boolean)]. *)
Definition is_token_char (c : ascii) : bool := Js.is_lower c || Js.is_digit c.
Definition tokenize (text : str) : list str :=
  Js.runs is_token_char (Js.toLowerCase text) [].

Definition normalizeControlId (id : str) : str := Js.toUpperCase (Js.trim id).

(** [/\b[A-Z]{2}-\d{1,3}\b/] tried at one position.  [\d{1,3}] is greedy:
    three digits are tried first, then two, then one, each followed by the
    closing [\b]. *)
Definition digits_then_boundary (k : nat) (s : str) : bool :=
  (length (firstn k s) =? k) && forallb Js.is_digit (firstn k s)
  && Js.boundary (Some (last (firstn k s) "0"%char)) (skipn k s).

Definition controlIdAt (prev : option ascii) (s : str) : option (str * nat) :=
  match s with
  | a :: b :: h :: ds =>
      if Js.boundary prev s && Js.is_upper a && Js.is_upper b && Js.ceqb h "-"%char
      then
        if digits_then_boundary 3 ds then Some (firstn 6 s, 6)
        else if digits_then_boundary 2 ds then Some (firstn 5 s, 5)
        else if digits_then_boundary 1 ds then Some (firstn 4 s, 4)
        else None
      else None
  | _ => None
  end.

(** [extractControlIds]: the matches of the expression in the upper-cased
    text, without repetitions. *)
Definition extractControlIds (text : str) : list str :=
  Js.dedupe (Js.matchAll controlIdAt (Js.toUpperCase text)).

(** [scoreControl]: 3 for a term found in the question, 1 for each token
    of a term that is a token of the question. *)
Definition terms (item : ControlIndexItem) : list str :=
  filter Js.nonEmpty
    ([control_id item; control_name item]
       ++ match aliases item with Some l => l | None => [] end
       ++ match keywords item with Some l => l | None => [] end).

Definition scoreTerm (haystack : str) (tokens : list str) (term : str) : Z :=
  let termLower := Js.toLowerCase term in
  ((if Js.nonEmpty termLower && Js.includes haystack termLower then 3 else 0)
   + fold_left (fun acc token => if Js.mem token tokens then acc + 1 else acc)
       (tokenize termLower) 0)%Z.

Definition scoreControl (question : str) (tokens : list str)
    (item : ControlIndexItem) : Z :=
  let haystack := Js.toLowerCase question in
  fold_left (fun score term => (score + scoreTerm haystack tokens term)%Z)
    (terms item) 0%Z.

(** [canonical]: upper-cased id to the id as the index spells it. *)
Definition canonical (index : list ControlIndexItem) : Js.Map str :=
  Js.ofPairs (map (fun item => (Js.toUpperCase (control_id item), control_id item)) index).

(** The closure [add]: [chosen] is the array it pushes to. *)
Definition add (canon : Js.Map str) (chosen : list str) (id : str) : list str :=
  match Js.get canon (normalizeControlId id) with
  | Some canonicalId =>
      if Js.nonEmpty canonicalId && negb (Js.mem canonicalId chosen)
      then chosen ++ [canonicalId]
      else chosen
  | None => chosen
  end.

Definition addAll (canon : Js.Map str) (chosen ids : list str) : list str :=
  fold_left (add canon) ids chosen.

(** Step 3 of [selectControlIds]: entries scored, the positive ones kept,
    sorted by descending score, cut at [limit]. *)
Definition scored (question : str) (index : list ControlIndexItem)
    : list (ControlIndexItem * Z) :=
  let tokens := tokenize question in
  Js.sort (fun a b => (snd b - snd a)%Z)
    (filter (fun entry => (0 <? snd entry)%Z)
       (map (fun item => (item, scoreControl question tokens item)) index)).

Definition lexicalFallback (question : str) (index : list ControlIndexItem)
    (limit : Z) : list str :=
  map (fun entry => control_id (fst entry)) (Js.slice0 (scored question index) limit).

Definition selectControlIds (question : str) (controlIds : option (list str))
    (index : list ControlIndexItem) (limit : Z) : list str :=
  let canon := canonical index in
  let chosen1 :=
    match controlIds with
    | Some ((_ :: _) as ids) => addAll canon [] ids
    | _ => []
    end in
  match chosen1 with
  | _ :: _ => chosen1
  | [] =>
      match addAll canon [] (extractControlIds question) with
      | (_ :: _) as chosen2 => chosen2
      | [] => lexicalFallback question index limit
      end
  end.

Definition default_limit : Z := 6.

End Rag.


(** ** apps/api/src/index.ts *)

Module Api.

(** The bindings of the worker.  [AI] stands for the whole answering step
    (prompt assembly with [buildControlContext], [env.AI.run] and
    [extractModelText]): question and control records to answer text. *)
Record Env := {
  DATA : R2.R2Bucket;
  DATA_PREFIX : option str;
  AI : option (str -> list json -> str);
  MODEL_NAME : str
}.

Record Request := {
  method : str;
  path : str;
  (** [await req.json()]: [None] when the body is not JSON. *)
  body : option json
}.

(** [payload.question] etc. are read from the parsed body: the declared
    shape [ChatRequest] is a cast, nothing checks it. *)
Inductive Body :=
| NoBody
| ErrorBody (error : str)
| JsonBody (v : json)
| ChatBody (answer : str) (retrieved_controls : list (option json)).

Record Response := { status : Z; payload : Body }.

(** A handler answers, or an exception escapes it. *)
Inductive Outcome :=
| Respond (r : Response)
| Throws.

Definition jsonResponse (b : Body) (st : Z) : Outcome :=
  Respond {| status := st; payload := b |}.

(** [joinKey]: [prefix] without trailing, [path] without leading slashes. *)
Definition is_slash (c : ascii) : bool := Js.ceqb c "/"%char.

Definition joinKey (prefix : option str) (p : str) : str :=
  let cleanPrefix :=
    rev (Js.dropWhile is_slash (rev (match prefix with Some x => x | None => "" end))) in
  let cleanPath := Js.dropWhile is_slash p in
  if Js.nonEmpty cleanPrefix then cleanPrefix ++ "/" ++ cleanPath else cleanPath.

Definition handleIndex (env : Env) : Outcome :=
  let key := joinKey (DATA_PREFIX env) "controls-index.json" in
  match R2.getJson (DATA env) key with
  | R2.Value index =>
      if Json.truthy index then jsonResponse (JsonBody index) 200
      else jsonResponse (ErrorBody "controls-index.json not found") 404
  | _ => jsonResponse (ErrorBody "controls-index.json not found") 404
  end.

Definition handleControl (env : Env) (controlId : str) : Outcome :=
  let key := joinKey (DATA_PREFIX env) ("controls/" ++ controlId ++ ".json") in
  match R2.getJson (DATA env) key with
  | R2.Value control =>
      if Json.truthy control then jsonResponse (JsonBody control) 200
      else jsonResponse (ErrorBody "control not found") 404
  | _ => jsonResponse (ErrorBody "control not found") 404
  end.

(** Reading the index array as [ControlIndexItem[]]. *)
Definition asStrings (v : option json) : option (option (list str)) :=
  match v with
  | None | Some JNull => Some None
  | Some (JArr l) => option_map Some (Json.strings l)
  | Some _ => None
  end.

Definition asItem (v : json) : option Rag.ControlIndexItem :=
  match Json.prop v "control_id", Json.prop v "control_name",
        asStrings (Json.prop v "aliases"), asStrings (Json.prop v "keywords") with
  | Some (JStr id), Some (JStr name), Some al, Some kw =>
      Some {| Rag.control_id := id; Rag.control_name := name;
              Rag.family_id :=
                match Json.prop v "family_id" with Some (JStr f) => f | _ => "" end;
              Rag.aliases := al; Rag.keywords := kw |}
  | _, _, _, _ => None
  end.

Fixpoint asIndex (l : list json) : option (list Rag.ControlIndexItem) :=
  match l with
  | [] => Some []
  | v :: l' =>
      match asItem v, asIndex l' with
      | Some item, Some items => Some (item :: items)
      | _, _ => None
      end
  end.

(** Line 146: [selectControlIds(payload.question, payload.controlIds, index)].
    The property read is [controlIds]; the body's [control_ids] (the name
    [ChatRequest] declares and the endpoint documents) is not read.
    A value that is not an array of strings is outside what
    [selectControlIds] is typed for; the run is then counted as throwing. *)
Definition chatControlIds (question : str) (payload : json)
    (index : list Rag.ControlIndexItem) : option (list str) :=
  match asStrings (Json.prop payload "controlIds") with
  | Some controlIds =>
      Some (Rag.selectControlIds question controlIds index Rag.default_limit)
  | None => None
  end.

Definition fetchControls (env : Env) (controlIds : list str) : list json :=
  flat_map
    (fun controlId =>
       let controlKey := joinKey (DATA_PREFIX env) ("controls/" ++ controlId ++ ".json") in
       match R2.getJson (DATA env) controlKey with
       | R2.Value control => if Json.truthy control then [control] else []
       | _ => []
       end)
    controlIds.

Definition insufficient : str :=
  "Insufficient information in the retrieved controls to answer this question.".

Definition answerChat (env : Env) (question : str) (payload : json)
    (index : list Rag.ControlIndexItem) : Outcome :=
  match chatControlIds question payload index with
  | None => Throws
  | Some controlIds =>
      match fetchControls env controlIds with
      | [] => jsonResponse (ChatBody insufficient []) 200
      | controls =>
          match AI env with
          | Some run =>
              if Js.nonEmpty (MODEL_NAME env)
              then jsonResponse
                     (ChatBody (run question controls)
                        (map (fun control => Json.prop control "control_id") controls))
                     200
              else jsonResponse (ErrorBody "AI binding or model is not configured") 500
          | None => jsonResponse (ErrorBody "AI binding or model is not configured") 500
          end
      end
  end.

Definition handleChat (env : Env) (req : Request) : Outcome :=
  match body req with
  | None => jsonResponse (ErrorBody "question is required") 400
  | Some payload =>
      if negb (Json.truthy payload)
      then jsonResponse (ErrorBody "question is required") 400
      else
        match Json.prop payload "question" with
        | None | Some JNull => jsonResponse (ErrorBody "question is required") 400
        | Some (JStr question) =>
            if negb (Js.nonEmpty (Js.trim question))
            then jsonResponse (ErrorBody "question is required") 400
            else
              let indexKey := joinKey (DATA_PREFIX env) "controls-index.json" in
              match R2.getJson (DATA env) indexKey with
              | R2.Value (JArr items) =>
                  match asIndex items with
                  | Some index => answerChat env question payload index
                  | None => Throws
                  end
              | R2.Value index =>
                  if Json.truthy index then Throws
                  else jsonResponse (ErrorBody "controls-index not found") 500
              | _ => jsonResponse (ErrorBody "controls-index not found") 500
              end
        | Some _ => Throws      (* [.trim] is not a function *)
        end
  end.

(** The router, [fetch]. *)
Definition fetch (env : Env) (req : Request) : Outcome :=
  if Js.eqb (method req) "OPTIONS" then jsonResponse NoBody 204
  else if Js.eqb (method req) "GET" && Js.eqb (path req) "/api/controls/index"
  then handleIndex env
  else if Js.eqb (method req) "GET" && Js.startsWith (path req) "/api/controls/"
  then
    let controlId := Js.trim (Js.replaceFirst (path req) "/api/controls/" "") in
    if negb (Js.nonEmpty controlId)
    then jsonResponse (ErrorBody "control id is required") 400
    else handleControl env controlId
  else if Js.eqb (method req) "POST" && Js.eqb (path req) "/api/chat"
  then handleChat env req
  else jsonResponse (ErrorBody "not found") 404.

End Api.

(** ** The catalogue records both extractors produce *)

Module Part.
Record sub := { sub_id : str; sub_text : str }.
Record t := { id : str; text : str; subparts : list sub }.
End Part.

Module Enhancement.
Record t := {
  enhancement_id : str;
  title : option str;
  statement : str;
  supplemental_guidance : option str
}.
End Enhancement.

Module Control.
Record t := {
  control_id : str;
  control_name : str;
  family_id : str;
  statement : option str;
  statement_parts : option (list Part.t);
  supplemental_guidance : option str;
  enhancements : option (list Enhancement.t);
  related_controls : option (list str);
  references : option (list str);
  (** provenance: [raw_text] (PDF), [source_type] (HTML) *)
  raw_text : option (list str);
  source_type : option str
}.
End Control.

(** [xs.length ? xs : undefined]. *)
Definition orUndefined {A : Type} (xs : list A) : option (list A) :=
  match xs with [] => None | _ => Some xs end.

(** [s || undefined]. *)
Definition strOrUndefined (s : str) : option str :=
  match s with [] => None | _ => Some s end.

(** [buildKeywords], the same function in both extractors: the control
    name, then each enhancement's id and title, empty values left out,
    through a [Set]. *)
Definition buildKeywords (controlName : str) (enhancements : list Enhancement.t)
    : list str :=
  Js.dedupe
    (filter Js.nonEmpty
       (controlName ::
        flat_map (fun e => [Enhancement.enhancement_id e;
                            match Enhancement.title e with Some x => x | None => "" end])
          enhancements)).

(** ** The file system, as the runs change it *)

Module Fs.

Definition Metadata := list (str * option str).

Inductive content :=
| RecordJson (r : Control.t)
| IndexJson (index : list Rag.ControlIndexItem)
| MetadataJson (m : Metadata).

Inductive op :=
| Mkdir (dir : str)
| WriteFile (file : str) (c : content).

Definition trace := list op.

(** How a run ends. *)
Inductive outcome :=
| Done
| Failed (message : str).

Definition outputDir : str := "data/controls/controls".
Definition indexFile : str := "data/controls/controls-index.json".
Definition metadataFile : str := "data/controls/catalog-metadata.json".
Definition controlFile (control_id : str) : str :=
  outputDir ++ "/" ++ control_id ++ ".json".

(** What the trace leaves in a file: the last write to it. *)
Fixpoint read (t : trace) (file : str) : option content :=
  match t with
  | [] => None
  | o :: t' =>
      match read t' file with
      | Some c => Some c
      | None =>
          match o with
          | WriteFile f c => if Js.eqb f file then Some c else None
          | Mkdir _ => None
          end
      end
  end.

End Fs.

(** Common pieces of the expressions of both extractors. *)
Module Rx.

(** [(.+)$] and [(.star)$]: the rest of the input, free of line terminators. *)
Definition dotsToEnd (atLeast : nat) (s : str) : bool :=
  (atLeast <=? length s) && forallb (fun c => negb (Js.is_newline c)) s.

(** A greedy [\s{lo,}] followed by [(.+)$] ([atLeast = 1]) or [(.star)$]
    ([atLeast = 0]): the white space taken is tried from the longest, [j]
    characters, down to [lo]; the value is the captured rest. *)
Fixpoint spacesThenRest_from (lo atLeast : nat) (j : nat) (s : str) : option str :=
  if dotsToEnd atLeast (skipn j s) then Some (skipn j s)
  else match j with
       | O => None
       | S j' => if j' <? lo then None else spacesThenRest_from lo atLeast j' s
       end.

Definition spacesThenRest (lo atLeast : nat) (s : str) : option str :=
  let j := length (Js.takeWhile Js.is_space s) in
  if j <? lo then None else spacesThenRest_from lo atLeast j s.

(** [\d{1,3}] followed by something that is not a digit: the longest run
    of at most three digits (a shorter one would be followed by a digit).
    Gives the digits and what follows them. *)
Definition digits13 (s : str) : option (str * str) :=
  let ds := Js.takeWhile Js.is_digit s in
  if (1 <=? length ds) && (length ds <=? 3) then Some (ds, skipn (length ds) s)
  else None.

(** The control-id expressions [/\b([A-Z]{2})\s*-\s*(\d{1,3})\b/]
    ([loose = true], PDF) and [/\b([A-Z]{2})-(\d{1,3})\b/] ([loose = false],
    HTML) at one position; the value is [`${m[1]}-${m[2]}`]. *)
Definition optSpaces (loose : bool) (s : str) : str :=
  if loose then Js.dropWhile Js.is_space s else s.

Definition digitsBoundary (k : nat) (s : str) : option (str * str) :=
  let ds := firstn k s in
  if (length ds =? k) && forallb Js.is_digit ds
     && Js.boundary (Some (last ds "0"%char)) (skipn k s)
  then Some (ds, skipn k s) else None.

Definition controlIdAt (loose : bool) (prev : option ascii) (s : str)
    : option (str * nat) :=
  match s with
  | a :: b :: s1 =>
      if Js.boundary prev s && Js.is_upper a && Js.is_upper b then
        match optSpaces loose s1 with
        | h :: s2 =>
            if Js.ceqb h "-"%char then
              let s3 := optSpaces loose s2 in
              match
                match digitsBoundary 3 s3 with
                | Some r => Some r
                | None =>
                    match digitsBoundary 2 s3 with
                    | Some r => Some r
                    | None => digitsBoundary 1 s3
                    end
                end
              with
              | Some (ds, rest) => Some ([a; b] ++ "-" ++ ds, length s - length rest)
              | None => None
              end
            else None
        | [] => None
        end
      else None
  | _ => None
  end.

(** A string of the form [^[A-Z]{2}-\d{1,3}$]. *)
Definition isControlId (s : str) : bool :=
  match s with
  | a :: b :: h :: ds =>
      Js.is_upper a && Js.is_upper b && Js.ceqb h "-"%char
      && (1 <=? length ds) && (length ds <=? 3) && forallb Js.is_digit ds
  | _ => false
  end.

End Rx.

(** ** scripts/extract-annex-3a.mjs *)

Module Pdf.

Inductive section := Statement | SupplementalGuidance | Enhancements
                   | RelatedControls | References.

(** [SECTION_HEADERS]. *)
Definition SECTION_HEADERS : list (str * section) :=
  [("control", Statement);
   ("supplemental guidance", SupplementalGuidance);
   ("control enhancements", Enhancements);
   ("related controls", RelatedControls);
   ("references", References)].

Definition START_MARKER : str := "3. Security Control Definitions".

Definition normalizeHeader (text : str) : str :=
  Js.trim (Js.collapseSpaces (Js.toLowerCase text)).

(** [tocDots = /\.{2,}/] and [tocPage = /\s\d{1,3}$/]. *)
Definition endsWithPage (k : nat) (line : str) : bool :=
  let tail := firstn (S k) (rev line) in
  (length tail =? S k)
  && forallb Js.is_digit (firstn k tail)
  && match skipn k tail with c :: _ => Js.is_space c | [] => false end.

Definition isTocLine (line : str) : bool :=
  Js.includes line ".."
  && (endsWithPage 1 line || endsWithPage 2 line || endsWithPage 3 line).

(** [controlHeadingRegex = /^([A-Z]{2})\s*-\s*(\d{1,3})\s+(.+)$/]:
    the groups, or [None]. *)
Definition controlHeading (line : str) : option (str * str * str) :=
  match line with
  | a :: b :: s1 =>
      if Js.is_upper a && Js.is_upper b then
        match Js.dropWhile Js.is_space s1 with
        | h :: s2 =>
            if Js.ceqb h "-"%char then
              match Rx.digits13 (Js.dropWhile Js.is_space s2) with
              | Some (ds, s3) =>
                  match Rx.spacesThenRest 1 1 s3 with
                  | Some name => Some ([a; b], ds, name)
                  | None => None
                  end
              | None => None
              end
            else None
        | [] => None
        end
      else None
  | _ => None
  end.

Definition count (c : ascii) (s : str) : nat :=
  length (filter (Js.ceqb c) s).

Definition hasUnbalancedOpenParen (text : str) : bool :=
  count ")"%char text <? count "("%char text.

(** [/^[A-Z0-9\s/\-()|]+$/]. *)
Definition headingChar (c : ascii) : bool :=
  Js.is_upper c || Js.is_digit c || Js.is_space c
  || existsb (Js.ceqb c) "/-()|".

Definition isLikelyHeadingContinuation (line : str) : bool :=
  Js.nonEmpty line
  && negb (Js.includes line ":")
  && negb (match controlHeading line with Some _ => true | None => false end)
  && forallb headingChar line.

(** [relatedControlsRegex = /related controls\s*:\s*([^\.]+(?:\.|$))/i]
    at one position; the value is group 1.  After the colon the white
    space is taken greedily; when nothing but a period or the end follows
    it, the engine gives one white-space character back to the group. *)
Definition notDot (c : ascii) : bool := negb (Js.ceqb c "."%char).

Definition clause (s : str) : str :=
  let body := Js.takeWhile notDot s in
  body ++ firstn 1 (skipn (length body) s).

Definition relatedControlsAt (s : str) : option str :=
  if Js.startsWith_ci s "related controls" then
    match Js.dropWhile Js.is_space (skipn 16 s) with
    | c :: s1 =>
        if Js.ceqb c ":"%char then
          let ws := Js.takeWhile Js.is_space s1 in
          let s2 := skipn (length ws) s1 in
          match Js.takeWhile notDot s2, ws with
          | _ :: _, _ => Some (clause s2)
          | [], _ :: _ => Some (clause (skipn (length ws - 1) s1))
          | [], [] => None
          end
        else None
    | [] => None
    end
  else None.

(** [extractRelatedControls]. *)
Definition extractRelatedControls (text : str) : list str :=
  match Js.search relatedControlsAt text with
  | None => []
  | Some group => Js.dedupe (Js.matchAll (Rx.controlIdAt true) group)
  end.

(** [splitControls]: the state of the loop is the list of finished
    controls, the control being read and the [started] flag. *)
Record RawControl := {
  control_id : str;
  control_name : str;
  lines : list str
}.

Record splitState := {
  controls : list RawControl;
  current : option RawControl;
  started : bool
}.

Definition splitStep (st : splitState) (line : str) : splitState :=
  if negb (started st) then
    {| controls := controls st; current := current st;
       started := Js.includes line START_MARKER |}
  else if isTocLine line then st
  else
    match current st with
    | Some cur =>
        if match lines cur with [] => true | _ => false end
           && hasUnbalancedOpenParen (control_name cur)
           && isLikelyHeadingContinuation line
        then
          {| controls := controls st;
             current := Some {| control_id := control_id cur;
                                control_name :=
                                  Js.trim (Js.collapseSpaces (control_name cur ++ " " ++ line));
                                lines := [] |};
             started := true |}
        else
          match controlHeading line with
          | Some (fam, num, name) =>
              {| controls := controls st ++ [cur];
                 current := Some {| control_id := fam ++ "-" ++ num;
                                    control_name := Js.trim name;
                                    lines := [] |};
                 started := true |}
          | None =>
              {| controls := controls st;
                 current := Some {| control_id := control_id cur;
                                    control_name := control_name cur;
                                    lines := lines cur ++ [line] |};
                 started := true |}
          end
    | None =>
        match controlHeading line with
        | Some (fam, num, name) =>
            {| controls := controls st;
               current := Some {| control_id := fam ++ "-" ++ num;
                                  control_name := Js.trim name;
                                  lines := [] |};
               started := true |}
        | None => st
        end
    end.

Definition splitControls (allLines : list str) : list RawControl :=
  let st := fold_left splitStep allLines
              {| controls := []; current := None; started := false |} in
  controls st ++ match current st with Some cur => [cur] | None => [] end.

(** [parseSections]: the object [sectioned], one optional array per
    section, and [currentSection]. *)
Definition Sections := section -> option (list str).

Definition section_eqb (a b : section) : bool :=
  match a, b with
  | Statement, Statement | SupplementalGuidance, SupplementalGuidance
  | Enhancements, Enhancements | RelatedControls, RelatedControls
  | References, References => true
  | _, _ => false
  end.

Definition push (sectioned : Sections) (sec : section) (items : list str) : Sections :=
  fun s =>
    if section_eqb s sec
    then Some (match sectioned sec with Some l => l | None => [] end ++ items)
    else sectioned s.

(** [/^([A-Za-z][A-Za-z ]+):\s*(.star)$/]: header text and rest. *)
Definition headerChar (c : ascii) : bool := Js.is_alpha c || Js.ceqb c " "%char.

Definition sectionHeader (line : str) : option (str * str) :=
  match line with
  | a :: s1 =>
      let h := Js.takeWhile headerChar s1 in
      if Js.is_alpha a && (1 <=? length h) then
        match skipn (length h) s1 with
        | c :: s2 =>
            if Js.ceqb c ":"%char then
              match Rx.spacesThenRest 0 0 s2 with
              | Some rest => Some (a :: h, rest)
              | None => None
              end
            else None
        | [] => None
        end
      else None
  | [] => None
  end.

Definition lookupHeader (header : str) : option section :=
  Js.get SECTION_HEADERS header.

Definition sectionStep (st : Sections * option section) (line : str)
    : Sections * option section :=
  let '(sectioned, currentSection) := st in
  match
    match sectionHeader line with
    | Some (h, rest) =>
        match lookupHeader (normalizeHeader h) with
        | Some sec => Some (sec, rest)
        | None => None
        end
    | None => None
    end
  with
  | Some (sec, rest) =>
      (push sectioned sec (if Js.nonEmpty rest then [Js.trim rest] else []), Some sec)
  | None =>
      let sec := match currentSection with Some s => s | None => Statement end in
      (push sectioned sec [line], Some sec)
  end.

Definition parseSections (control : RawControl) : Sections :=
  fst (fold_left sectionStep (lines control) (fun _ => None, None)).

(** [controlPartRegex = /^\(([A-Z])\)\s*(.+)$/] and
    [controlSubPartRegex = /^\(([a-z])\)\s*(.+)$/]. *)
Definition marker (letter : ascii -> bool) (line : str) : option (str * str) :=
  match line with
  | o :: x :: c :: s1 =>
      if Js.ceqb o "("%char && letter x && Js.ceqb c ")"%char then
        match Rx.spacesThenRest 0 1 s1 with
        | Some rest => Some ([x], rest)
        | None => None
        end
      else None
  | _ => None
  end.

(** [parseStatementParts]: [current] is the part being read. *)
Definition appendText (a b : str) : str := Js.trim (a ++ " " ++ b).

Definition appendToLastSub (subs : list Part.sub) (line : str) : list Part.sub :=
  match rev subs with
  | last :: before =>
      rev before ++ [{| Part.sub_id := Part.sub_id last;
                        Part.sub_text := appendText (Part.sub_text last) line |}]
  | [] => []
  end.

Definition partStep (st : list Part.t * option Part.t) (line : str)
    : list Part.t * option Part.t :=
  let '(parts, current) := st in
  match marker Js.is_upper line with
  | Some (id, text) =>
      (parts ++ match current with Some cur => [cur] | None => [] end,
       Some {| Part.id := id; Part.text := Js.trim text; Part.subparts := [] |})
  | None =>
      match current with
      | Some cur =>
          match marker Js.is_lower line with
          | Some (id, text) =>
              (parts,
               Some {| Part.id := Part.id cur; Part.text := Part.text cur;
                       Part.subparts :=
                         Part.subparts cur
                           ++ [{| Part.sub_id := id; Part.sub_text := Js.trim text |}] |})
          | None =>
              match Part.subparts cur with
              | _ :: _ =>
                  (parts,
                   Some {| Part.id := Part.id cur; Part.text := Part.text cur;
                           Part.subparts := appendToLastSub (Part.subparts cur) line |})
              | [] =>
                  (parts,
                   Some {| Part.id := Part.id cur;
                           Part.text := appendText (Part.text cur) line;
                           Part.subparts := [] |})
              end
          end
      | None => (parts, None)
      end
  end.

Definition parseStatementParts (lines : list str) : list Part.t :=
  let '(parts, current) := fold_left partStep lines ([], None) in
  parts ++ match current with Some cur => [cur] | None => [] end.

(** [enhancementHeaderRegex = /^\((\d+)\)\s+(.+)$/]. *)
Definition enhancementHeader (line : str) : option (str * str) :=
  match line with
  | o :: s1 =>
      let ds := Js.takeWhile Js.is_digit s1 in
      if Js.ceqb o "("%char && (1 <=? length ds) then
        match skipn (length ds) s1 with
        | c :: s2 =>
            if Js.ceqb c ")"%char then
              match Rx.spacesThenRest 1 1 s2 with
              | Some rest => Some (ds, rest)
              | None => None
              end
            else None
        | [] => None
        end
      else None
  | [] => None
  end.

(** [line.split(":").slice(1).join(":").trim()]. *)
Definition afterFirstColon (line : str) : str :=
  Js.trim (Js.join ":" (skipn 1 (Js.split ":"%char line))).

(** [parseEnhancements]: [current] is the enhancement being read. *)
Definition enhancementStep (controlId : str)
    (st : list Enhancement.t * option Enhancement.t) (line : str)
    : list Enhancement.t * option Enhancement.t :=
  let '(enhancements, current) := st in
  match enhancementHeader line with
  | Some (number, title) =>
      (enhancements ++ match current with Some cur => [cur] | None => [] end,
       Some {| Enhancement.enhancement_id := controlId ++ "(" ++ number ++ ")";
               Enhancement.title := Some (Js.trim title);
               Enhancement.statement := "";
               Enhancement.supplemental_guidance := None |})
  | None =>
      match current with
      | None => (enhancements, None)
      | Some cur =>
          if Js.startsWith (Js.toLowerCase line) "enhancement supplemental guidance"
          then
            let guidance := afterFirstColon line in
            (enhancements,
             Some {| Enhancement.enhancement_id := Enhancement.enhancement_id cur;
                     Enhancement.title := Enhancement.title cur;
                     Enhancement.statement := Enhancement.statement cur;
                     Enhancement.supplemental_guidance :=
                       if Js.nonEmpty guidance then Some guidance
                       else Enhancement.supplemental_guidance cur |})
          else
            match Enhancement.supplemental_guidance cur with
            | Some g =>
                (enhancements,
                 Some {| Enhancement.enhancement_id := Enhancement.enhancement_id cur;
                         Enhancement.title := Enhancement.title cur;
                         Enhancement.statement := Enhancement.statement cur;
                         Enhancement.supplemental_guidance := Some (appendText g line) |})
            | None =>
                (enhancements,
                 Some {| Enhancement.enhancement_id := Enhancement.enhancement_id cur;
                         Enhancement.title := Enhancement.title cur;
                         Enhancement.statement :=
                           appendText (Enhancement.statement cur) line;
                         Enhancement.supplemental_guidance := None |})
            end
      end
  end.

Definition parseEnhancements (lines : list str) (controlId : str)
    : list Enhancement.t :=
  let '(enhancements, current) :=
    fold_left (enhancementStep controlId) lines ([], None) in
  enhancements ++ match current with Some cur => [cur] | None => [] end.

(** The body of the loop of [extract]: one record and one index entry. *)
Definition orEmpty (l : option (list str)) : list str :=
  match l with Some x => x | None => [] end.

Definition assemble (control : RawControl) : Control.t :=
  let sections := parseSections control in
  let supplementalGuidance := option_map (Js.join " ") (sections SupplementalGuidance) in
  let relatedControls :=
    Js.dedupe
      (extractRelatedControls (match supplementalGuidance with Some g => g | None => "" end)
       ++ match sections RelatedControls with
          | Some l => extractRelatedControls (Js.join " " l)
          | None => []
          end) in
  let enhancements := parseEnhancements (orEmpty (sections Enhancements)) (control_id control) in
  let statementParts := parseStatementParts (orEmpty (sections Statement)) in
  {| Control.control_id := control_id control;
     Control.control_name := control_name control;
     Control.family_id := hd "" (Js.split "-"%char (control_id control));
     Control.statement := option_map (Js.join " ") (sections Statement);
     Control.statement_parts := orUndefined statementParts;
     Control.supplemental_guidance := supplementalGuidance;
     Control.enhancements := orUndefined enhancements;
     Control.related_controls := orUndefined relatedControls;
     Control.references := sections References;
     Control.raw_text := Some (lines control);
     Control.source_type := None |}.

Definition indexEntry (record : Control.t) : Rag.ControlIndexItem :=
  {| Rag.control_id := Control.control_id record;
     Rag.control_name := Control.control_name record;
     Rag.family_id := Control.family_id record;
     Rag.aliases := Some [];
     Rag.keywords :=
       Some (buildKeywords (Control.control_name record)
               (match Control.enhancements record with Some l => l | None => [] end)) |}.

(** The loop over [rawControls]: [indexMap] and the writes so far. *)
Definition extractStep (st : Js.Map Rag.ControlIndexItem * Fs.trace) (control : RawControl)
    : Js.Map Rag.ControlIndexItem * Fs.trace :=
  let '(indexMap, written) := st in
  let record := assemble control in
  (Js.set indexMap (Control.control_id record) (indexEntry record),
   written ++ [Fs.WriteFile (Fs.controlFile (control_id control)) (Fs.RecordJson record)]).

Definition extractLoop (rawControls : list RawControl)
    : Js.Map Rag.ControlIndexItem * Fs.trace :=
  fold_left extractStep rawControls ([], [Fs.Mkdir Fs.outputDir]).

(** [extract], from the lines of all pages on. *)
Definition extract (allLines : list str) : Fs.trace * Fs.outcome :=
  let rawControls := splitControls allLines in
  match rawControls with
  | [] => ([], Fs.Failed "No controls found. Check the parser or PDF version.")
  | _ =>
      let '(indexMap, written) := extractLoop rawControls in
      (written ++ [Fs.WriteFile Fs.indexFile (Fs.IndexJson (Js.values indexMap))],
       Fs.Done)
  end.

End Pdf.


(** ** scripts/extract-annex-3a-html.mjs *)

Module Html.

(** The document as cheerio presents it: elements with lower-case tag
    names, attributes and children, and text nodes. *)
#[warning="-register-all"] Inductive node :=
| Text (s : str)
| Elem (tag : str) (attrs : list (str * str)) (children : list node).

Definition tagName (n : node) : option str :=
  match n with Elem tag _ _ => Some tag | Text _ => None end.

Definition isTag (tag : str) (n : node) : bool :=
  match n with Elem t _ _ => Js.eqb t tag | Text _ => false end.

(** [.children(tag)]. *)
Definition children (tag : str) (n : node) : list node :=
  match n with
  | Elem _ _ cs => filter (isTag tag) cs
  | Text _ => []
  end.

(** [.attr(name)]. *)
Definition attr (name : str) (n : node) : option str :=
  match n with
  | Elem _ attrs _ => Js.get attrs name
  | Text _ => None
  end.

(** [.text()]: the text of all descendants, in order. *)
Fixpoint text (n : node) : str :=
  match n with
  | Text s => s
  | Elem _ _ cs =>
      (fix texts (l : list node) : str :=
         match l with
         | [] => []
         | c :: l' => text c ++ texts l'
         end) cs
  end.

(** [.clone()] with [.children(tag).remove()] for each of [tags]. *)
Definition without (tags : list str) (n : node) : node :=
  match n with
  | Elem t attrs cs =>
      Elem t attrs (filter (fun c => negb (existsb (fun tag => isTag tag c) tags)) cs)
  | Text _ => n
  end.

Definition cleanText (value : str) : str :=
  Js.trim (Js.collapseSpaces
             (map (fun c => if Js.code c =? 160 then " "%char else c) value)).

(** [Number.parseInt(s, 10)]: [None] is [NaN].  The value is exact,
    where JavaScript's is a double: the same number up to 2^53 in
    absolute value. *)
Definition digitValue (ds : str) : Z :=
  fold_left (fun acc c => (10 * acc + Z.of_nat (Js.code c - 48))%Z) ds 0%Z.

Definition parseInt (s : str) : option Z :=
  let s1 := Js.dropWhile Js.is_space s in
  let '(negative, s2) :=
    match s1 with
    | c :: r =>
        if Js.ceqb c "-"%char then (true, r)
        else if Js.ceqb c "+"%char then (false, r)
        else (false, s1)
    | [] => (false, s1)
    end in
  match Js.takeWhile Js.is_digit s2 with
  | [] => None
  | ds => Some (if negative then (- digitValue ds)%Z else digitValue ds)
  end.

(** [`${n}`] for an integer. *)
Definition showZ (n : Z) : str :=
  String.list_ascii_of_string (DecimalString.NilZero.string_of_int (Z.to_int n)).

(** [controlHeadingRegex = /^([A-Z]{2})-(\d{1,3})\s+(.+)$/]. *)
Definition controlHeading (line : str) : option (str * str * str) :=
  match line with
  | a :: b :: h :: s1 =>
      if Js.is_upper a && Js.is_upper b && Js.ceqb h "-"%char then
        match Rx.digits13 s1 with
        | Some (ds, s2) =>
            match Rx.spacesThenRest 1 1 s2 with
            | Some name => Some ([a; b], ds, name)
            | None => None
            end
        | None => None
        end
      else None
  | _ => None
  end.

(** [/Related controls:\s*(.+?)\./i] at one position; the value is group 1.
    The white space is taken greedily, the group lazily: it ends before the
    first period that stands at least one character into it, and holds no
    line terminator.  White space is given back one character at a time
    when that fails. *)
Fixpoint lazyToDot (s : str) : option str :=
  match s with
  | [] => None
  | c :: s' =>
      if Js.is_newline c then None
      else match s' with
           | d :: _ =>
               if Js.ceqb d "."%char then Some [c]
               else option_map (cons c) (lazyToDot s')
           | [] => None
           end
  end.

Fixpoint lazyToDot_from (j : nat) (s : str) : option str :=
  match lazyToDot (skipn j s) with
  | Some g => Some g
  | None =>
      match j with
      | O => None
      | S j' => lazyToDot_from j' s
      end
  end.

Definition relatedControlsAt (s : str) : option str :=
  if Js.startsWith_ci s "related controls:" then
    let s1 := skipn 17 s in
    lazyToDot_from (length (Js.takeWhile Js.is_space s1)) s1
  else None.

(** [extractRelatedControls]. *)
Definition extractRelatedControls (text : str) : list str :=
  match Js.search relatedControlsAt text with
  | None => []
  | Some group => Js.dedupe (Js.matchAll (Rx.controlIdAt false) group)
  end.

(** [numberToAlpha]: the loop runs while [n > 0]. *)
Equations? numberToAlpha_loop (lower : bool) (n : Z) (out : str) : str
    by wf (Z.to_nat n) lt :=
  numberToAlpha_loop lower n out with Z_gt_dec n 0 => {
    | left _ =>
        numberToAlpha_loop lower ((n - 1) / 26)
          (Js.chr (Z.to_nat ((if lower then 97 else 65) + (n - 1) mod 26)) :: out);
    | right _ => out }.
Proof.
  assert ((n - 1) / 26 < n)%Z by (apply Z.div_lt_upper_bound; lia).
  assert (0 <= (n - 1) / 26)%Z by (apply Z.div_pos; lia).
  lia.
Qed.

Definition numberToAlpha (value : Z) (lower : bool) : str :=
  numberToAlpha_loop lower value "".

(** [partRegex = /^\(([A-Z]{1,2})\)\s*(.+)$/] and
    [subPartRegex = /^\(([a-z])\)\s*(.+)$/]. *)
Definition partMarker (line : str) : option (str * str) :=
  match line with
  | o :: x :: s1 =>
      if Js.ceqb o "("%char && Js.is_upper x then
        match s1 with
        | y :: c :: s2 =>
            if Js.is_upper y && Js.ceqb c ")"%char then
              option_map (fun rest => ([x; y], rest)) (Rx.spacesThenRest 0 1 s2)
            else if Js.ceqb y ")"%char then
              option_map (fun rest => ([x], rest)) (Rx.spacesThenRest 0 1 (c :: s2))
            else None
        | [y] => None
        | [] => None
        end
      else None
  | _ => None
  end.

Definition subPartMarker (line : str) : option (str * str) :=
  match line with
  | o :: x :: c :: s1 =>
      if Js.ceqb o "("%char && Js.is_lower x && Js.ceqb c ")"%char then
        option_map (fun rest => ([x], rest)) (Rx.spacesThenRest 0 1 s1)
      else None
  | _ => None
  end.

Definition stripPartMarker (text : str) : option (str * str) :=
  match partMarker text with
  | Some (id, rest) => Some (id, Js.trim rest)
  | None =>
      match subPartMarker text with
      | Some (id, rest) => Some (id, Js.trim rest)
      | None => None
      end
  end.

(** [Number.isFinite(rawValue) ? rawValue : index + 1]. *)
Definition ordinalOf (li : node) (index : nat) : Z :=
  match parseInt (match attr "value" li with Some v => v | None => "" end) with
  | Some rawValue => rawValue
  | None => Z.of_nat index + 1
  end.

(** [xs.each((index, x) => ...)] collecting one value per element. *)
Fixpoint eachFrom {A B : Type} (f : nat -> A -> B) (index : nat) (xs : list A) : list B :=
  match xs with
  | [] => []
  | x :: xs' => f index x :: eachFrom f (S index) xs'
  end.
Definition each {A B : Type} (f : nat -> A -> B) (xs : list A) : list B :=
  eachFrom f 0 xs.

(** [parseStatementList]. *)
Definition parseSubpart (subIndex : nat) (subLi : node) : Part.sub :=
  let derivedSubId := numberToAlpha (ordinalOf subLi subIndex) true in
  let subTextRaw := cleanText (text subLi) in
  match stripPartMarker subTextRaw with
  | Some (id, txt) => {| Part.sub_id := id; Part.sub_text := txt |}
  | None => {| Part.sub_id := derivedSubId; Part.sub_text := subTextRaw |}
  end.

Definition parsePart (index : nat) (li : node) : Part.t :=
  let derivedId := numberToAlpha (ordinalOf li index) false in
  let partTextRaw := cleanText (text (without ["ol"] li)) in
  let subs := each parseSubpart (flat_map (children "li") (children "ol" li)) in
  match stripPartMarker partTextRaw with
  | Some (id, txt) => {| Part.id := id; Part.text := txt; Part.subparts := subs |}
  | None => {| Part.id := derivedId; Part.text := partTextRaw; Part.subparts := subs |}
  end.

Definition parseStatementList (listElement : node) : list Part.t :=
  each parsePart (children "li" listElement).

(** [enhancementHeaderRegex = /^\((\d+)\)\s*(.+)$/]. *)
Definition enhancementHeader (line : str) : option (str * str) :=
  match line with
  | o :: s1 =>
      let ds := Js.takeWhile Js.is_digit s1 in
      if Js.ceqb o "("%char && (1 <=? length ds) then
        match skipn (length ds) s1 with
        | c :: s2 =>
            if Js.ceqb c ")"%char
            then option_map (fun rest => (ds, rest)) (Rx.spacesThenRest 0 1 s2)
            else None
        | [] => None
        end
      else None
  | [] => None
  end.

(** [/^Enhancement Supplemental Guidance\s*:*/i]: what follows the match,
    or [None]. *)
Definition isColon (c : ascii) : bool := Js.ceqb c ":"%char.

Definition afterGuidanceLabel (line : str) : option str :=
  if Js.startsWith_ci line "enhancement supplemental guidance"
  then Some (Js.dropWhile isColon (Js.dropWhile Js.is_space (skipn 33 line)))
  else None.

(** The loop over the paragraphs of one enhancement. *)
Definition paragraphStep (st : list str * list str) (p : node) : list str * list str :=
  let '(statementParts, guidanceParts) := st in
  let line := cleanText (text p) in
  if negb (Js.nonEmpty line) then st
  else
    match afterGuidanceLabel line with
    | Some rest =>
        let guidance := Js.trim rest in
        if Js.nonEmpty guidance then (statementParts, guidanceParts ++ [guidance]) else st
    | None =>
        match guidanceParts with
        | _ :: _ => (statementParts, guidanceParts ++ [line])
        | [] => (statementParts ++ [line], guidanceParts)
        end
    end.

Definition parseEnhancement (controlId : str) (index : nat) (li : node) : Enhancement.t :=
  let number := ordinalOf li index in
  let headerRaw := cleanText (text (without ["p"; "ol"] li)) in
  let headerMatch := enhancementHeader headerRaw in
  let title := match headerMatch with Some (_, t) => Js.trim t | None => headerRaw end in
  let paragraphs := children "p" li in
  let nested :=
    filter Js.nonEmpty
      (map (fun nestedLi => cleanText (text nestedLi))
         (flat_map (children "li") (children "ol" li))) in
  let '(statementParts, guidanceParts) := fold_left paragraphStep paragraphs (nested, []) in
  {| Enhancement.enhancement_id :=
       controlId ++ "(" ++ match headerMatch with Some (n, _) => n | None => showZ number end
                 ++ ")";
     Enhancement.title := strOrUndefined title;
     Enhancement.statement :=
       match statementParts with
       | _ :: _ => Js.trim (Js.join " " statementParts)
       | [] =>
           match paragraphs with
           | [] => if negb (Js.includes headerRaw "|") then headerRaw else ""
           | _ => ""
           end
       end;
     Enhancement.supplemental_guidance :=
       match guidanceParts with
       | _ :: _ => Some (Js.trim (Js.join " " guidanceParts))
       | [] => None
       end |}.

Definition parseEnhancementList (listElement : node) (controlId : str)
    : list Enhancement.t :=
  each (parseEnhancement controlId) (children "li" listElement).

(** [$("h4").toArray()] with, for each heading, the siblings behind it. *)
Fixpoint headingsIn (n : node) (following : list node) : list (node * list node) :=
  match n with
  | Text _ => []
  | Elem tag _ cs =>
      (if Js.eqb tag "h4" then [(n, following)] else [])
      ++ (fix inList (l : list node) : list (node * list node) :=
            match l with
            | [] => []
            | c :: l' => headingsIn c l' ++ inList l'
            end) cs
  end.

Fixpoint headings (doc : list node) : list (node * list node) :=
  match doc with
  | [] => []
  | n :: doc' => headingsIn n doc' ++ headings doc'
  end.

Definition isControlHeading (n : node) : bool :=
  isTag "h4" n
  && match controlHeading (cleanText (text n)) with Some _ => true | None => false end.

(** The sibling elements up to the next control heading. *)
Fixpoint blockNodes (following : list node) : list node :=
  match following with
  | [] => []
  | n :: rest =>
      match n with
      | Text _ => blockNodes rest
      | Elem _ _ _ => if isControlHeading n then [] else n :: blockNodes rest
      end
  end.

Inductive section := Statement | SupplementalGuidance | Enhancements | References.

Record blockState := {
  section_ : option section;
  statementLines : list str;
  statementParts : list Part.t;
  supplementalGuidance : list str;
  references : list str;
  enhancements : list Enhancement.t
}.

Definition setSection (st : blockState) (s : section) : blockState :=
  {| section_ := Some s; statementLines := statementLines st;
     statementParts := statementParts st;
     supplementalGuidance := supplementalGuidance st;
     references := references st; enhancements := enhancements st |}.

(** [/^Control:\s*$/i] and its like: the label, then only white space. *)
Definition isLabel (label text : str) : bool :=
  Js.startsWith_ci text label && forallb Js.is_space (skipn (length label) text).

(** [/^Supplemental Guidance\s*:/i]: what follows the match. *)
Definition afterSupplementalGuidance (text : str) : option str :=
  if Js.startsWith_ci text "supplemental guidance" then
    match Js.dropWhile Js.is_space (skipn 21 text) with
    | c :: rest => if Js.ceqb c ":"%char then Some rest else None
    | [] => None
    end
  else None.

Definition partLines (part : Part.t) : list str :=
  filter Js.nonEmpty (Part.text part :: map Part.sub_text (Part.subparts part)).

Definition blockStep (controlId : str) (st : blockState) (nodeEl : node) : blockState :=
  match tagName nodeEl with
  | None => st
  | Some tag =>
      if Js.eqb tag "p" then
        let text := cleanText (text nodeEl) in
        if negb (Js.nonEmpty text) then st
        else if isLabel "Control:" text then setSection st Statement
        else
          match afterSupplementalGuidance text with
          | Some rest =>
              let value := Js.trim rest in
              {| section_ := Some SupplementalGuidance;
                 statementLines := statementLines st;
                 statementParts := statementParts st;
                 supplementalGuidance :=
                   supplementalGuidance st ++ (if Js.nonEmpty value then [value] else []);
                 references := references st; enhancements := enhancements st |}
          | None =>
              if isLabel "Control Enhancements:" text then setSection st Enhancements
              else if isLabel "References:" text then setSection st References
              else
                match section_ st with
                | Some Statement =>
                    {| section_ := section_ st;
                       statementLines := statementLines st ++ [text];
                       statementParts := statementParts st;
                       supplementalGuidance := supplementalGuidance st;
                       references := references st; enhancements := enhancements st |}
                | Some SupplementalGuidance =>
                    {| section_ := section_ st;
                       statementLines := statementLines st;
                       statementParts := statementParts st;
                       supplementalGuidance := supplementalGuidance st ++ [text];
                       references := references st; enhancements := enhancements st |}
                | Some References =>
                    {| section_ := section_ st;
                       statementLines := statementLines st;
                       statementParts := statementParts st;
                       supplementalGuidance := supplementalGuidance st;
                       references := references st ++ [text];
                       enhancements := enhancements st |}
                | _ => st
                end
          end
      else
        match section_ st with
        | Some Statement =>
            if Js.eqb tag "ol" then
              let parsedParts := parseStatementList nodeEl in
              {| section_ := section_ st;
                 statementLines := statementLines st ++ flat_map partLines parsedParts;
                 statementParts := statementParts st ++ parsedParts;
                 supplementalGuidance := supplementalGuidance st;
                 references := references st; enhancements := enhancements st |}
            else st
        | Some Enhancements =>
            if Js.eqb tag "ol" then
              {| section_ := section_ st;
                 statementLines := statementLines st;
                 statementParts := statementParts st;
                 supplementalGuidance := supplementalGuidance st;
                 references := references st;
                 enhancements := enhancements st ++ parseEnhancementList nodeEl controlId |}
            else st
        | Some References =>
            if Js.eqb tag "ul" then
              {| section_ := section_ st;
                 statementLines := statementLines st;
                 statementParts := statementParts st;
                 supplementalGuidance := supplementalGuidance st;
                 references :=
                   references st
                     ++ filter Js.nonEmpty
                          (map (fun li => cleanText (text li)) (children "li" nodeEl));
                 enhancements := enhancements st |}
            else st
        | _ => st
        end
  end.

(** The body of the loop of [parseControlsFromHtml] for one heading. *)
Definition parseControl (heading : node) (following : list node) : option Control.t :=
  match controlHeading (cleanText (text heading)) with
  | None => None
  | Some (fam, num, name) =>
      let controlId := fam ++ "-" ++ num in
      let st := fold_left (blockStep controlId) (blockNodes following)
                  {| section_ := None; statementLines := []; statementParts := [];
                     supplementalGuidance := []; references := [];
                     enhancements := [] |} in
      let statement := Js.trim (Js.join " " (statementLines st)) in
      let guidanceText := Js.trim (Js.join " " (supplementalGuidance st)) in
      let relatedControls := extractRelatedControls guidanceText in
      Some {| Control.control_id := controlId;
              Control.control_name := Js.trim name;
              Control.family_id := fam;
              Control.statement := strOrUndefined statement;
              Control.statement_parts := orUndefined (statementParts st);
              Control.supplemental_guidance := strOrUndefined guidanceText;
              Control.enhancements := orUndefined (enhancements st);
              Control.related_controls := orUndefined relatedControls;
              Control.references := orUndefined (references st);
              Control.raw_text := None;
              Control.source_type := Some "html" |}
  end.

Definition parseControlsFromHtml (doc : list node) : list Control.t :=
  flat_map
    (fun hf => match parseControl (fst hf) (snd hf) with Some c => [c] | None => [] end)
    (headings doc).

Definition indexEntry (control : Control.t) : Rag.ControlIndexItem :=
  {| Rag.control_id := Control.control_id control;
     Rag.control_name := Control.control_name control;
     Rag.family_id := Control.family_id control;
     Rag.aliases := Some [];
     Rag.keywords :=
       Some (buildKeywords (Control.control_name control)
               (match Control.enhancements control with Some l => l | None => [] end)) |}.

Definition writeControl (control : Control.t) : Fs.op :=
  Fs.WriteFile (Fs.controlFile (Control.control_id control)) (Fs.RecordJson control).

(** [run].  [source] is what [fetchSourcePage] and [load] deliver, [None]
    when the fetch throws; [catalogMetadata] is the value
    [extractCatalogMetadata(page, bodyHtml)] returns, a call without
    effect.  The run in which that call throws is [HtmlRun.run]. *)
Definition run (source : option (list node)) (catalogMetadata : Fs.Metadata)
    : Fs.trace * Fs.outcome :=
  match source with
  | None => ([], Fs.Failed "Failed to fetch source HTML")
  | Some doc =>
      match parseControlsFromHtml doc with
      | [] => ([], Fs.Failed "No controls parsed from HTML source")
      | controls =>
          let index := map indexEntry controls in
          ([Fs.Mkdir Fs.outputDir]
             ++ map writeControl controls
             ++ [Fs.WriteFile Fs.indexFile (Fs.IndexJson index);
                 Fs.WriteFile Fs.metadataFile (Fs.MetadataJson catalogMetadata)],
           Fs.Done)
      end
  end.

End Html.

(** ** scripts/export-assignments-csv.mjs *)

Module Assignments.

(** [assignmentPattern = /\[Assignment:[^\]]+\]/gi] at one position: the
    opener, then the longest run of characters other than the closing
    bracket, which must not be empty and must be followed by one. *)
Definition notClose (c : ascii) : bool := negb (Js.ceqb c "]"%char).

Definition assignmentAt (prev : option ascii) (s : str) : option (str * nat) :=
  if Js.startsWith_ci s "[assignment:" then
    let inner := Js.takeWhile notClose (skipn 12 s) in
    match inner, skipn (12 + length inner) s with
    | _ :: _, _ :: _ => Some (firstn (12 + length inner + 1) s, 12 + length inner + 1)
    | _, _ => None
    end
  else None.

Definition normalizeSpaces (text : str) : str := Js.trim (Js.collapseSpaces text).
Definition normalizeAssignment (text : str) : str := normalizeSpaces text.

(** [s.replace(/^lit\s*/i, "")]. *)
Definition stripLabel (label s : str) : str :=
  if Js.startsWith_ci s label
  then Js.dropWhile Js.is_space (skipn (length label) s)
  else s.

Definition stripOpen (s : str) : str :=
  match s with
  | c :: s' => if Js.ceqb c "["%char then s' else s
  | [] => []
  end.

Definition stripClose (s : str) : str := rev (
  match rev s with
  | c :: s' => if Js.ceqb c "]"%char then s' else c :: s'
  | [] => []
  end).

Definition parseAssignmentTopic (assignment : str) : str :=
  let inner := stripClose (stripOpen assignment) in
  let withoutPrefix := Js.trim (stripLabel "assignment:" inner) in
  Js.trim (stripLabel "organization-defined" withoutPrefix).

Definition anyOf (t : str) (words : list str) : bool := existsb (Js.includes t) words.

Definition categorizeTopic (topic : str) : str :=
  let t := Js.toLowerCase topic in
  if Js.includes t "frequency" then "cadence"
  else if anyOf t ["time period"; "timeframe"; "period of time"] then "time_window"
  else if anyOf t ["personnel"; "roles"; "individuals"] then "roles_responsibilities"
  else if anyOf t ["number"; "threshold"; "limit"] then "threshold"
  else if anyOf t ["condition"; "criteria"; "circumstances"] then "conditions"
  else if anyOf t ["action"; "procedure"; "step"] then "actions"
  else if anyOf t ["security safeguard"; "security control"; "security function";
                   "security attribute"] then "security_specification"
  else if anyOf t ["component"; "system"; "device"; "media"; "account"; "application";
                   "service"] then "scope_inventory"
  else if anyOf t ["external organization"; "provider"] then "external_parties"
  else if anyOf t ["test"; "assessment"] then "validation"
  else "general".

(** [walk]: the string fields of a value with their paths, the fields of
    an object in the order they are written.  ([Object.entries] lists
    keys that are array indices first; the order of the fields is part
    of no property stated here.) *)
Definition showNat (n : nat) : str := Html.showZ (Z.of_nat n).

Fixpoint walk (value : json) (path : str) : list (str * str) :=
  match value with
  | JStr s => [(path, s)]
  | JArr l =>
      (fix items (l : list json) (index : nat) : list (str * str) :=
         match l with
         | [] => []
         | item :: l' =>
             walk item (path ++ "[" ++ showNat index ++ "]") ++ items l' (S index)
         end) l 0
  | JObj fields =>
      (fix entries (fs : list (str * json)) : list (str * str) :=
         match fs with
         | [] => []
         | (key, item) :: fs' =>
             walk item (if Js.nonEmpty path then path ++ "." ++ key else key)
               ++ entries fs'
         end) fields
  | JNull | JBool _ | JNum _ => []
  end.

(** [collectAssignmentsInScope]: per placeholder, the number of
    occurrences and the set of locations.  (The excerpt kept for the
    report is left out of the model.) *)
Record Stats := { count : Z; locations : list str }.

Definition record (map : Js.Map Stats) (path : str) (raw : str) : Js.Map Stats :=
  let assignment := normalizeAssignment raw in
  let current :=
    match Js.get map assignment with
    | Some st => st
    | None => {| count := 0; locations := [] |}
    end in
  let location := if Js.nonEmpty path then path else "root" in
  Js.set map assignment
    {| count := count current + 1;
       locations := if Js.mem location (locations current)
                    then locations current
                    else locations current ++ [location] |}.

Definition onString (map : Js.Map Stats) (field : str * str) : Js.Map Stats :=
  fold_left (fun m raw => record m (fst field) raw)
    (Js.matchAll assignmentAt (snd field)) map.

Definition collectAssignmentsInScope (scopeData : json) : Js.Map Stats :=
  fold_left onString (walk scopeData "") [].

(** [buildRowsForControl]; the guidance columns, a fixed table indexed by
    the category, are left out. *)
Record Row := {
  control_id : option json;
  enhancement_id : option json;
  assignment_placeholder : str;
  assignment_topic : str;
  category : str;
  occurrence_count : Z
}.

Definition rowsOf (control_id enhancement_id : option json) (scope : json) : list Row :=
  map (fun entry =>
         let topic := parseAssignmentTopic (fst entry) in
         {| control_id := control_id;
            enhancement_id := enhancement_id;
            assignment_placeholder := fst entry;
            assignment_topic := topic;
            category := categorizeTopic topic;
            occurrence_count := count (snd entry) |})
    (collectAssignmentsInScope scope).

Definition withoutKey (key : str) (o : json) : json :=
  match o with
  | JObj fields => JObj (filter (fun kv => negb (Js.eqb (fst kv) key)) fields)
  | _ => o
  end.

(** [v ?? ""]. *)
Definition orEmptyString (v : option json) : json :=
  match v with
  | None | Some JNull => JStr ""
  | Some x => x
  end.

Definition buildRowsForControl (control : json) : list Row :=
  let enhancements :=
    match Json.prop control "enhancements" with
    | Some (JArr l) => l
    | _ => []
    end in
  rowsOf (Json.prop control "control_id") (Some (JStr "")) (withoutKey "enhancements" control)
    ++ flat_map
         (fun enhancement =>
            rowsOf (Json.prop control "control_id")
              (Some (orEmptyString (Json.prop enhancement "enhancement_id"))) enhancement)
         enhancements.

End Assignments.

(** ** Notions the properties are stated with *)

(** An id of the index: the [control_id] of one of its entries. *)
Definition indexed (index : list Rag.ControlIndexItem) (id : str) : Prop :=
  exists item, In item index /\ Rag.control_id item = id.

(** What [add] keeps true of [chosen]. *)
Definition wellChosen (index : list Rag.ControlIndexItem) (chosen : list str) : Prop :=
  NoDup chosen /\ forall id, In id chosen -> indexed index id.

(** The canonical id a caller-supplied id stands for, if any. *)
Definition canonicalOf (index : list Rag.ControlIndexItem) (id : str) : list str :=
  match Js.get (Rag.canonical index) (Rag.normalizeControlId id) with
  | Some canonicalId => if Js.nonEmpty canonicalId then [canonicalId] else []
  | None => []
  end.

(** A bucket in which the catalogue is published: the index and the
    record of AC-2, whatever their bytes, the record under the key of the
    layout and under the key the handler builds for the [.json] URL. *)
Definition publishedBucket (indexBytes recordBytes : str) : R2.R2Bucket :=
  fun key =>
    if Js.eqb key "controls-index.json" then Some indexBytes
    else if Js.eqb key "controls/AC-2.json" then Some recordBytes
    else if Js.eqb key "controls/AC-2.json.json" then Some recordBytes
    else None.

Definition publishedEnv (indexBytes recordBytes : str) : Api.Env :=
  {| Api.DATA := publishedBucket indexBytes recordBytes; Api.DATA_PREFIX := None;
     Api.AI := Some (fun _ _ => "answer"); Api.MODEL_NAME := "model" |}.

Definition get (p : str) : Api.Request :=
  {| Api.method := "GET"; Api.path := p; Api.body := None |}.

(** The chat request of the scenario: a question that names AC-2 and the
    caller's [control_ids] naming IA-2, against an index with both. *)
Definition chatPayload : json :=
  JObj [("question", JStr "What does AC-2 require?");
        ("control_ids", JArr [JStr "IA-2"])].

Definition chatIndex : list Rag.ControlIndexItem :=
  [{| Rag.control_id := "AC-2"; Rag.control_name := "Account Management";
      Rag.family_id := "AC"; Rag.aliases := None; Rag.keywords := None |};
   {| Rag.control_id := "IA-2"; Rag.control_name := "Identification and Authentication";
      Rag.family_id := "IA"; Rag.aliases := None; Rag.keywords := None |}].

Definition chatRequest : Api.Request :=
  {| Api.method := "POST"; Api.path := "/api/chat"; Api.body := Some chatPayload |}.

(** A record file for [id] is written somewhere in the trace. *)
Definition recordWritten (t : Fs.trace) (id : str) : Prop :=
  exists r, In (Fs.WriteFile (Fs.controlFile id) (Fs.RecordJson r)) t.

Definition isRecordWrite (o : Fs.op) : Prop :=
  match o with
  | Fs.WriteFile _ (Fs.RecordJson _) => True
  | _ => False
  end.

(** Index and records agree: the index is written once, after every
    record file; its ids are the ids of the record files written; each of
    its entries has the name and family of the record its file holds. *)
Definition consistent (t : Fs.trace) : Prop :=
  exists pre index post,
    t = pre ++ Fs.WriteFile Fs.indexFile (Fs.IndexJson index) :: post
    /\ (forall o, In o post -> ~ isRecordWrite o)
    /\ (forall id, In id (map Rag.control_id index) <-> recordWritten t id)
    /\ (forall e, In e index ->
          exists r, Fs.read t (Fs.controlFile (Rag.control_id e)) = Some (Fs.RecordJson r)
                    /\ Control.control_id r = Rag.control_id e
                    /\ Control.control_name r = Rag.control_name e
                    /\ Control.family_id r = Rag.family_id e).

(** A page on which the heading of AC-2 stands twice, with two names. *)
Definition twiceAC2 : list Html.node :=
  [Html.Elem "h4" [] [Html.Text "AC-2 ACCOUNT MANAGEMENT"];
   Html.Elem "p" [] [Html.Text "Control:"];
   Html.Elem "p" [] [Html.Text "The organization manages accounts."];
   Html.Elem "h4" [] [Html.Text "AC-2 ACCESS ENFORCEMENT"];
   Html.Elem "p" [] [Html.Text "Control:"];
   Html.Elem "p" [] [Html.Text "The system enforces approved authorizations."]].

(** Lines without a control heading, and a page without one. *)
Definition noHeadingLines : list str :=
  ["3. Security Control Definitions"; "Introduction"; "Control: none here"].

Definition noHeadingPage : list Html.node :=
  [Html.Elem "h4" [] [Html.Text "Introduction"];
   Html.Elem "p" [] [Html.Text "Nothing to extract."]].

(** Bijective base 26: a word over the letters A..Z (or a..z), each worth
    1..26, read most significant letter first. *)
Definition letterValue (lower : bool) (c : ascii) : Z :=
  Z.of_nat (Js.code c) - (if lower then 97 else 65) + 1.

Definition alphaValue (lower : bool) (word : str) : Z :=
  fold_left (fun acc c => (26 * acc + letterValue lower c)%Z) word 0%Z.

Definition isLetter (lower : bool) (c : ascii) : bool :=
  if lower then Js.is_lower c else Js.is_upper c.


(** Enhancement sections in which the guidance header stands alone on its
    line, with and without colon, and one in which text follows it. *)
Definition headerAlone : list str :=
  ["(1) AUTOMATED SYSTEM ACCOUNT MANAGEMENT";
   "The organization employs automated mechanisms.";
   "Enhancement Supplemental Guidance:";
   "Automated mechanisms include email alerts."].

Definition headerAloneNoColon : list str :=
  ["(1) AUTOMATED SYSTEM ACCOUNT MANAGEMENT";
   "The organization employs automated mechanisms.";
   "Enhancement Supplemental Guidance";
   "Automated mechanisms include email alerts."].

Definition headerWithText : list str :=
  ["(1) AUTOMATED SYSTEM ACCOUNT MANAGEMENT";
   "The organization employs automated mechanisms.";
   "Enhancement Supplemental Guidance: Automated mechanisms";
   "include email alerts."].

(** Ascending order of strings by code units, as [Array.prototype.sort]
    without comparator orders them. *)
Fixpoint leb (a b : str) : bool :=
  match a, b with
  | [], _ => true
  | _ :: _, [] => false
  | x :: a', y :: b' =>
      if Js.code x <? Js.code y then true
      else if Js.code y <? Js.code x then false
      else leb a' b'
  end.

Fixpoint sortedAscending (l : list str) : bool :=
  match l with
  | x :: l' =>
      match l' with
      | y :: _ => leb x y && sortedAscending l'
      | [] => true
      end
  | [] => true
  end.

(** The text holds the label "Related controls:", whatever the case of
    its letters. *)
Definition containsLabel (text : str) : bool :=
  Js.includes (Js.toLowerCase text) "related controls:".

(** The text holds the words "related controls", whatever the case of
    their letters, followed by a colon with nothing but white space in
    between. *)
Definition looseLabelAt (s : str) : bool :=
  Js.startsWith_ci s "related controls"
  && match Js.dropWhile Js.is_space (skipn 16 s) with
     | c :: _ => Js.ceqb c ":"%char
     | [] => false
     end.

Fixpoint containsLooseLabel (text : str) : bool :=
  looseLabelAt text
  || match text with
     | [] => false
     | _ :: text' => containsLooseLabel text'
     end.

(** A control whose guidance names its related controls out of order,
    once as the PDF lines give it and once as the page gives it. *)
Definition unsortedRaw : Pdf.RawControl :=
  {| Pdf.control_id := "AC-6"; Pdf.control_name := "LEAST PRIVILEGE";
     Pdf.lines := ["Control: The organization employs least privilege.";
                   "Supplemental Guidance: Related controls: AC-3, AC-2."] |}.

Definition unsortedHeading : Html.node :=
  Html.Elem "h4" [] [Html.Text "AC-6 LEAST PRIVILEGE"].

Definition unsortedBlock : list Html.node :=
  [Html.Elem "p" [] [Html.Text "Control:"];
   Html.Elem "p" [] [Html.Text "The organization employs least privilege."];
   Html.Elem "p" [] [Html.Text "Supplemental Guidance: Related controls: AC-3, AC-2."]].

(** The placeholder of the scenario. *)
Definition frequencyPlaceholder : str := "[Assignment: organization-defined frequency]".

(** Somewhere in [pre] an opener "[Assignment:" stands with no closing
    bracket behind it. *)
Fixpoint unclosedOpener (pre : str) : bool :=
  (Js.startsWith_ci pre "[assignment:"
   && forallb Assignments.notClose (skipn 12 pre))
  || match pre with
     | [] => false
     | _ :: pre' => unclosedOpener pre'
     end.

(** A field in which the placeholder stands behind an opener that is
    never closed before it. *)
Definition nestedField : str :=
  "[Assignment: [Assignment: organization-defined frequency]".

(** The placeholder without its closing bracket. *)
Definition frequencyInner : str := "[Assignment: organization-defined frequency".

(** The elements of a list in the order of their first occurrence: what
    [Array.from(new Set(l))] has to give. *)
Fixpoint firstOccurrences (l : list str) : list str :=
  match l with
  | [] => []
  | x :: l' => x :: filter (fun y => negb (Js.eqb y x)) (firstOccurrences l')
  end.

(** The ids the related-controls clause of a text names, one for each
    mention and in the order of the mentions, as the PDF extractor and
    as the HTML extractor read the clause. *)
Definition pdfNamed (text : str) : list str :=
  match Js.search Pdf.relatedControlsAt text with
  | Some clause => Js.matchAll (Rx.controlIdAt true) clause
  | None => []
  end.

Definition htmlNamed (text : str) : list str :=
  match Js.search Html.relatedControlsAt text with
  | Some clause => Js.matchAll (Rx.controlIdAt false) clause
  | None => []
  end.

(** A label of related controls with the white space behind it: the
    words, in any case, and the colon; the PDF extractor lets white
    space stand before the colon. *)
Definition htmlLabel (label : str) : bool :=
  Js.startsWith_ci label "related controls:" && forallb Js.is_space (skipn 17 label).

Definition pdfLabel (label : str) : bool :=
  Js.startsWith_ci label "related controls"
  && match Js.dropWhile Js.is_space (skipn 16 label) with
     | c :: ws => Js.ceqb c ":"%char && forallb Js.is_space ws
     | [] => false
     end.

(** A text with ids before the labelled clause and behind its period. *)
Definition idsAround : str :=
  "See AC-1. Related controls: AC-3, AC-2, AC-3. AC-4 is out of scope.".

(** ** Further functions of the same files *)

(** *** apps/api/src/index.ts: the CORS allow list *)

Module Cors.



End Cors.

(** *** scripts/export-assignments-csv.mjs: CSV fields and excerpts *)

Module Csv.

Definition quote : ascii := Js.chr 34.
Definition newline : ascii := Js.chr 10.

(** The characters that make [csvEscape] quote a field: the double quote,
    the comma and the line feed. *)
Definition special (c : ascii) : bool :=
  Js.ceqb c quote || Js.ceqb c ","%char || Js.ceqb c newline.

(** The replacement of [csvEscape]: every double quote is written twice. *)
Fixpoint doubleQuotes (text : str) : str :=
  match text with
  | [] => []
  | c :: text' =>
      if Js.ceqb c quote then quote :: quote :: doubleQuotes text'
      else c :: doubleQuotes text'
  end.

(** [csvEscape], on the string [String(value ?? "")]. *)
Definition csvEscape (text : str) : str :=
  if existsb special text then [quote] ++ doubleQuotes text ++ [quote] else text.

(** [s.indexOf(p)]: [None] is [-1]. *)
Fixpoint indexOf (s p : str) : option nat :=
  if Js.startsWith s p then Some 0
  else match s with
       | [] => None
       | _ :: s' => option_map S (indexOf s' p)
       end.

(** [s.slice(start, end)] for [0 <= start] and [0 <= end]. *)
Definition slice (s : str) (start stop : nat) : str :=
  firstn (stop - start) (skipn start s).

(** [extractSnippet]. *)
Definition extractSnippet (text assignment : str) : str :=
  let flattened := Assignments.normalizeSpaces text in
  match flattened with
  | [] => ""
  | _ =>
      match indexOf (Js.toLowerCase flattened) (Js.toLowerCase assignment) with
      | None => slice flattened 0 220
      | Some idx =>
          let start := idx - 80 in
          let stop := Nat.min (length flattened) (idx + length assignment + 80) in
          (if 0 <? start then "..." else "")
            ++ slice flattened start stop
            ++ (if stop <? length flattened then "..." else "")
      end
  end.

End Csv.

(** *** The publishing step that follows a run (in the file of the PDF
    extractor): the catalogue is copied to the directory the web client
    reads. *)

Module Publish.

(** An entry of the target directory: a file with its bytes, or
    something that is not a file. *)
Inductive entry :=
| File (bytes : str)
| Directory.

(** What the step reads: [controls-index.json] and
    [catalog-metadata.json] of the source root ([None] when absent) and
    the files of the source directory [controls] ([None] when the
    directory is absent); sub-directories of it are not listed. *)
Record source := {
  sourceIndex : option str;
  sourceMetadata : option str;
  sourceControls : option (Js.Map str)
}.

Definition target := Js.Map entry.

Inductive outcome :=
| Published (count : nat) (metadataPublished : bool)
| Failed.

(** [name.endsWith(".json")]. *)
Definition endsWithJson (name : str) : bool := Js.startsWith (rev name) (rev ".json").

(** [clearTargetControlJsonFiles]: the files whose name ends in [.json]
    are removed, everything else stays. *)
Definition clearTargetControlJsonFiles (t : target) : target :=
  filter (fun e => negb (match snd e with File _ => endsWithJson (fst e) | Directory => false end))
    t.

(** [copyFile(src, dest)] into the target directory: it fails on a
    directory, otherwise the file is created or overwritten. *)
Definition copyFile (t : target) (name : str) (bytes : str) : option target :=
  match Js.get t name with
  | Some Directory => None
  | _ => Some (Js.set t name (File bytes))
  end.

(** [Promise.all(files.map(copyFile))]: the copies run together, each
    on a name of its own, so their order does not show; one that fails
    makes the whole fail and does not stop the others. *)
Fixpoint copyAll (t : target) (files : list (str * str)) : target * bool :=
  match files with
  | [] => (t, true)
  | (name, bytes) :: files' =>
      match copyFile t name bytes with
      | Some t' => copyAll t' files'
      | None => (fst (copyAll t files'), false)
      end
  end.

(** [publish]: the target after the step and how the step ends.  A
    failure leaves the target as the steps before it made it. *)
Definition publish (src : source) (t : target) : target * outcome :=
  let cleared := clearTargetControlJsonFiles t in
  match sourceIndex src with
  | None => (cleared, Failed)
  | Some indexBytes =>
      match copyFile cleared "index" indexBytes with
      | None => (cleared, Failed)
      | Some t1 =>
          match
            match sourceMetadata src with
            | None => Some (t1, false)
            | Some m =>
                match copyFile t1 "metadata.json" m with
                | Some t2 => Some (t2, true)
                | None => None
                end
            end
          with
          | None => (t1, Failed)
          | Some (t2, metadataPublished) =>
              match sourceControls src with
              | None => (t2, Failed)
              | Some entries =>
                  let sourceJsonFiles := filter (fun e => endsWithJson (fst e)) entries in
                  match copyAll t2 sourceJsonFiles with
                  | (t3, true) =>
                      (t3, Published (length sourceJsonFiles) metadataPublished)
                  | (t3, false) => (t3, Failed)
                  end
              end
          end
      end
  end.

End Publish.

(** An index entry to stand for "none". *)
Definition ix_default : Rag.ControlIndexItem :=
  {| Rag.control_id := ""; Rag.control_name := ""; Rag.family_id := "";
     Rag.aliases := None; Rag.keywords := None |}.


Definition isSome {A : Type} (o : option A) : bool :=
  match o with Some _ => true | None => false end.

(** Lines of a document in which a heading stands before the start
    marker and the heading of AC-2 stands twice after it. *)
Definition markedLines : list str :=
  ["Table of contents";
   "AC-1 ACCESS CONTROL POLICY AND PROCEDURES";
   "3. Security Control Definitions";
   "AC-2 ACCOUNT MANAGEMENT";
   "Control:";
   "(A) The organization manages accounts.";
   "AC-2 ACCOUNT MANAGEMENT";
   "Control: The organization reviews accounts."].

(** A control whose text has no section header. *)
Definition plainControl : Pdf.RawControl :=
  {| Pdf.control_id := "AC-2"; Pdf.control_name := "ACCOUNT MANAGEMENT";
     Pdf.lines := ["The organization manages accounts"; "and reviews them monthly."] |}.

(** A text in which white space stands only as single spaces, between
    other characters. *)
Fixpoint singleSpaced (s : str) (afterSpace : bool) : bool :=
  match s with
  | [] => true
  | c :: s' =>
      if Js.is_space c
      then Js.ceqb c " "%char && negb afterSpace && singleSpaced s' true
      else singleSpaced s' false
  end.

Definition startsClean (s : str) : bool :=
  match s with c :: _ => negb (Js.is_space c) | [] => true end.

Definition normalText (s : str) : bool := singleSpaced s true && startsClean (rev s).

(** A page with two controls, the second with an enhancement whose
    guidance label stands alone in its paragraph. *)
Definition twoControls : list Html.node :=
  [Html.Elem "h4" [] [Html.Text "AC-1 ACCESS CONTROL POLICY"];
   Html.Elem "p" [] [Html.Text "Control:"];
   Html.Elem "p" [] [Html.Text "The organization develops a policy."];
   Html.Elem "h4" [] [Html.Text "AC-2 ACCOUNT MANAGEMENT"];
   Html.Elem "p" [] [Html.Text "Control:"];
   Html.Elem "ol" []
     [Html.Elem "li" [] [Html.Text "The organization manages accounts."]];
   Html.Elem "p" [] [Html.Text "Control Enhancements:"];
   Html.Elem "ol" []
     [Html.Elem "li" []
        [Html.Text "(1) AUTOMATED MANAGEMENT";
         Html.Elem "p" [] [Html.Text "The organization employs automated mechanisms."];
         Html.Elem "p" [] [Html.Text "Enhancement Supplemental Guidance:"];
         Html.Elem "p" [] [Html.Text "Mechanisms include email alerts."]]]].

(** The occurrences a map of placeholders counts, all together. *)
Definition totalCount (m : Js.Map Assignments.Stats) : Z :=
  fold_right Z.add 0%Z (map (fun e => Assignments.count (snd e)) m).

(** What holds of the statistics kept for one placeholder. *)
Definition goodStats (st : Assignments.Stats) : Prop :=
  (1 <= Assignments.count st)%Z
  /\ NoDup (Assignments.locations st)
  /\ Assignments.locations st <> []
  /\ (Z.of_nat (length (Assignments.locations st)) <= Assignments.count st)%Z.

(** A target directory that holds the files of an earlier run and a file
    that is not JSON, and sources with and without an index. *)
Definition staleTarget : Publish.target :=
  [("index", Publish.File "[old]");
   ("AC-1.json", Publish.File "{old}");
   ("robots.txt", Publish.File "User-agent: *")].

Definition completeSource : Publish.source :=
  {| Publish.sourceIndex := Some "[new]";
     Publish.sourceMetadata := None;
     Publish.sourceControls := Some [("AC-2.json", "{new}"); ("notes.txt", "n")] |}.

Definition sourceWithoutIndex : Publish.source :=
  {| Publish.sourceIndex := None;
     Publish.sourceMetadata := None;
     Publish.sourceControls := Some [("AC-2.json", "{new}")] |}.

(** A string of ASCII characters.  On such strings [Js.toLowerCase] and
    [Js.toUpperCase] are [String.prototype.toLowerCase] and
    [toUpperCase]; what depends on the case of other characters is
    stated of ASCII strings. *)
Definition isAscii (s : str) : bool := forallb (fun c => Js.code c <? 128) s.





(** The HTML run with the call of [extractCatalogMetadata] in it: the
    call stands behind the parsing of the page and before the test for
    controls and every write, and it returns the metadata or throws. *)
Module HtmlRun.

Inductive extracted :=
| Metadata (m : Fs.Metadata)
| Throws (message : str).

Definition run (source : option (list Html.node)) (catalogMetadata : extracted)
    : Fs.trace * Fs.outcome :=
  match source with
  | None => ([], Fs.Failed "Failed to fetch source HTML")
  | Some doc =>
      match catalogMetadata with
      | Throws message => ([], Fs.Failed message)
      | Metadata m => Html.run (Some doc) m
      end
  end.

End HtmlRun.




(** * Properties *)

(** ** Strings, sets and maps *)

Lemma ceqb_eq (a b : ascii) : Js.ceqb a b = true <-> a = b.
Proof. unfold Js.ceqb. apply Ascii.eqb_eq. Qed.

Lemma eqb_eq (a b : str) : Js.eqb a b = true <-> a = b.
Proof.
  revert b. induction a as [|x a IH]; intros [|y b]; simpl; split; intro H;
    try reflexivity; try discriminate.
  - apply andb_true_iff in H as [Hx Hab].
    apply ceqb_eq in Hx. apply IH in Hab. congruence.
  - injection H as -> ->. apply andb_true_iff. split.
    + now apply ceqb_eq.
    + now apply IH.
Qed.

Lemma eqb_refl (a : str) : Js.eqb a a = true.
Proof. now apply eqb_eq. Qed.

Lemma eqb_neq (a b : str) : Js.eqb a b = false <-> a <> b.
Proof.
  split.
  - intros H E. apply eqb_eq in E. congruence.
  - intros H. destruct (Js.eqb a b) eqn:E; [|reflexivity].
    apply eqb_eq in E. contradiction.
Qed.

Lemma mem_In (x : str) (l : list str) : Js.mem x l = true <-> In x l.
Proof.
  unfold Js.mem. rewrite existsb_exists. split.
  - intros [y [Hy E]]. apply eqb_eq in E. now subst.
  - intros H. exists x. split; [assumption | apply eqb_refl].
Qed.

Lemma mem_not_In (x : str) (l : list str) : Js.mem x l = false <-> ~ In x l.
Proof.
  rewrite <- mem_In. destruct (Js.mem x l); split; intro H; congruence.
Qed.

(** [Array.from(new Set(l))] holds the elements of [l], each once. *)
Lemma dedupe_into_In (seen l : list str) (x : str) :
  In x (Js.dedupe_into seen l) <-> In x seen \/ In x l.
Proof.
  revert seen. induction l as [|y l IH]; intros seen; simpl.
  - tauto.
  - rewrite IH. destruct (Js.mem y seen) eqn:E.
    + apply mem_In in E. split; [tauto|]. intros [H|[->|H]]; tauto.
    + rewrite in_app_iff. simpl. tauto.
Qed.

Lemma dedupe_into_NoDup (seen l : list str) :
  NoDup seen -> NoDup (Js.dedupe_into seen l).
Proof.
  revert seen. induction l as [|y l IH]; intros seen Hs; simpl; [assumption|].
  apply IH. destruct (Js.mem y seen) eqn:E; [assumption|].
  apply mem_not_In in E.
  apply NoDup_app; [assumption | repeat constructor; intros [] | ].
  intros a Ha [<-|[]]. contradiction.
Qed.

Lemma dedupe_In (l : list str) (x : str) : In x (Js.dedupe l) <-> In x l.
Proof. unfold Js.dedupe. rewrite dedupe_into_In. simpl. tauto. Qed.

Lemma dedupe_NoDup (l : list str) : NoDup (Js.dedupe l).
Proof. apply dedupe_into_NoDup. constructor. Qed.

(** An insertion-ordered map. *)
Lemma get_set {V} (m : Js.Map V) (k k' : str) (v : V) :
  Js.get (Js.set m k v) k' = if Js.eqb k k' then Some v else Js.get m k'.
Proof.
  induction m as [|[k0 v0] m IH]; simpl.
  - reflexivity.
  - destruct (Js.eqb k0 k) eqn:E0; simpl.
    + apply eqb_eq in E0. subst k0. destruct (Js.eqb k k'); reflexivity.
    + destruct (Js.eqb k0 k') eqn:E1.
      * apply eqb_eq in E1. subst k0. now rewrite (proj2 (eqb_neq k k')) by
          (intro; subst; rewrite eqb_refl in E0; discriminate).
      * exact IH.
Qed.

Lemma keys_set {V} (m : Js.Map V) (k : str) (v : V) (x : str) :
  In x (Js.keys (Js.set m k v)) <-> x = k \/ In x (Js.keys m).
Proof.
  unfold Js.keys. induction m as [|[k0 v0] m IH]; simpl.
  - intuition.
  - destruct (Js.eqb k0 k) eqn:E0; simpl.
    + apply eqb_eq in E0. subst. intuition.
    + rewrite IH. intuition.
Qed.

Lemma keys_set_NoDup {V} (m : Js.Map V) (k : str) (v : V) :
  NoDup (Js.keys m) -> NoDup (Js.keys (Js.set m k v)).
Proof.
  unfold Js.keys. induction m as [|[k0 v0] m IH]; simpl; intros H.
  - repeat constructor. intros [].
  - inversion H as [|? ? Hn Hd]; subst.
    destruct (Js.eqb k0 k) eqn:E0; simpl.
    + apply eqb_eq in E0. subst. now constructor.
    + constructor; [|now apply IH].
      intros Hin. apply (keys_set m k v k0) in Hin as [->|Hin].
      * rewrite eqb_refl in E0. discriminate.
      * contradiction.
Qed.

Lemma get_In {V} (m : Js.Map V) (k : str) (v : V) :
  Js.get m k = Some v -> In (k, v) m.
Proof.
  induction m as [|[k0 v0] m IH]; simpl; [discriminate|].
  destruct (Js.eqb k0 k) eqn:E.
  - apply eqb_eq in E. intros [= <-]. subst. now left.
  - intros H. right. now apply IH.
Qed.

Lemma In_get {V} (m : Js.Map V) (k : str) (v : V) :
  NoDup (Js.keys m) -> In (k, v) m -> Js.get m k = Some v.
Proof.
  unfold Js.keys. induction m as [|[k0 v0] m IH]; simpl; [intros _ []|].
  intros Hnd [E|Hin]; inversion Hnd as [|? ? Hn Hd]; subst.
  - injection E as -> ->. now rewrite eqb_refl.
  - destruct (Js.eqb k0 k) eqn:E.
    + apply eqb_eq in E. subst. exfalso. apply Hn.
      change k with (fst (k, v)). now apply in_map.
    + now apply IH.
Qed.

(** Prefixes and runs of characters. *)
Lemma startsWith_ci_length (s p : str) :
  Js.startsWith_ci s p = true -> length p <= length s.
Proof.
  revert s. induction p as [|x p IH]; intros s H; simpl; [lia|].
  destruct s as [|y s]; [discriminate|]. simpl in *.
  apply andb_true_iff in H as [_ H]. apply IH in H. lia.
Qed.

Lemma takeWhile_all (f : ascii -> bool) (u v : str) :
  forallb f u = true -> Js.takeWhile f (u ++ v) = u ++ Js.takeWhile f v.
Proof.
  induction u as [|c u IH]; simpl; [reflexivity|].
  intros H. apply andb_true_iff in H as [H1 H2]. now rewrite H1, IH.
Qed.

Lemma firstn_past {A} (a b : list A) (n : nat) :
  firstn (length a + n) (a ++ b) = a ++ firstn n b.
Proof. induction a as [|x a IH]; simpl; [reflexivity | now rewrite IH]. Qed.

Lemma dropWhile_app_stop (f : ascii -> bool) (u : str) (c : ascii) (v : str) :
  f c = false -> Js.dropWhile f (u ++ c :: v) = Js.dropWhile f u ++ c :: v.
Proof.
  intros H. induction u as [|d u IH]; simpl; [now rewrite H|].
  now destruct (f d).
Qed.

Lemma takeWhile_sat (f : ascii -> bool) (s : str) : forallb f (Js.takeWhile f s) = true.
Proof.
  induction s as [|c s IH]; simpl; [reflexivity|].
  destruct (f c) eqn:E; simpl; [now rewrite E | reflexivity].
Qed.

Lemma takeWhile_skipn (f : ascii -> bool) (s : str) :
  Js.takeWhile f s ++ skipn (length (Js.takeWhile f s)) s = s.
Proof.
  induction s as [|c s IH]; simpl; [reflexivity|].
  destruct (f c); simpl; [now rewrite IH | reflexivity].
Qed.

Lemma takeWhile_next (f : ascii -> bool) (s : str) (d : ascii) (r : str) :
  skipn (length (Js.takeWhile f s)) s = d :: r -> f d = false.
Proof.
  induction s as [|c s IH]; simpl; [discriminate|].
  destruct (f c) eqn:E; simpl; [exact IH|]. now intros [= <- _].
Qed.

Lemma startsWith_ci_prefix (p a u v : str) :
  length p <= length a ->
  Js.startsWith_ci (a ++ u) p = true -> Js.startsWith_ci (a ++ v) p = true.
Proof.
  revert a. induction p as [|x p IH]; intros a L H; [now destruct (a ++ v)|].
  destruct a as [|y a]; [simpl in L; lia|].
  cbn [Js.startsWith_ci app] in *.
  apply andb_true_iff in H as [H1 H2]. rewrite H1. apply IH; [simpl in L; lia | exact H2].
Qed.

Lemma dropWhile_not_head (f : ascii -> bool) (s : str) :
  match Js.dropWhile f s with c :: _ => f c = false | [] => True end.
Proof.
  induction s as [|c s IH]; simpl; [exact I|].
  destruct (f c) eqn:E; [exact IH | exact E].
Qed.

(** ** Selection of controls for a question ([rag.ts]) *)

Section Selection.

Variable index : list Rag.ControlIndexItem.

Lemma ofPairs_get {V} (pairs : list (str * V)) (m0 : Js.Map V) (k : str) (v : V) :
  Js.get (fold_left (fun m kv => Js.set m (fst kv) (snd kv)) pairs m0) k = Some v ->
  (exists kv, In kv pairs /\ snd kv = v) \/ Js.get m0 k = Some v.
Proof.
  revert m0. induction pairs as [|p pairs IH]; intros m0 H; simpl in *.
  - now right.
  - apply IH in H as [[kv [Hin E]]|H].
    + left. exists kv. split; [now right | assumption].
    + rewrite get_set in H. destruct (Js.eqb (fst p) k).
      * injection H as <-. left. exists p. split; [now left | reflexivity].
      * now right.
Qed.

Lemma canonical_indexed (k id : str) :
  Js.get (Rag.canonical index) k = Some id -> indexed index id.
Proof.
  unfold Rag.canonical, Js.ofPairs. intros H.
  apply ofPairs_get in H as [[kv [Hin E]]|H]; [|discriminate].
  apply in_map_iff in Hin as [item [<- Hin]].
  exists item. split; [assumption | exact E].
Qed.

Lemma add_wellChosen (chosen : list str) (id : str) :
  wellChosen index chosen -> wellChosen index (Rag.add (Rag.canonical index) chosen id).
Proof.
  intros [Hnd Hsub]. unfold Rag.add.
  destruct (Js.get (Rag.canonical index) (Rag.normalizeControlId id)) as [c|] eqn:G;
    [|now split].
  destruct (Js.nonEmpty c && negb (Js.mem c chosen)) eqn:E; [|now split].
  apply andb_true_iff in E as [_ E]. apply negb_true_iff, mem_not_In in E.
  split.
  - apply NoDup_app; [assumption | repeat constructor; intros [] |].
    intros a Ha [<-|[]]. contradiction.
  - intros x Hx. apply in_app_iff in Hx as [Hx|[<-|[]]].
    + now apply Hsub.
    + eapply canonical_indexed, G.
Qed.

Lemma addAll_wellChosen (ids chosen : list str) :
  wellChosen index chosen -> wellChosen index (Rag.addAll (Rag.canonical index) chosen ids).
Proof.
  unfold Rag.addAll. revert chosen.
  induction ids as [|id ids IH]; intros chosen H; simpl; [assumption|].
  apply IH. now apply add_wellChosen.
Qed.

Lemma wellChosen_nil : wellChosen index [].
Proof. split; [constructor | intros ? []]. Qed.

(** The stable sort permutes its input. *)
Lemma insert_perm {A} (cmp : A -> A -> Z) (x : A) (l : list A) :
  Permutation (Js.insert cmp x l) (x :: l).
Proof.
  induction l as [|y l IH]; simpl; [reflexivity|].
  destruct (cmp x y <=? 0)%Z; [reflexivity|].
  rewrite IH. apply perm_swap.
Qed.

Lemma sort_perm {A} (cmp : A -> A -> Z) (l : list A) :
  Permutation (Js.sort cmp l) l.
Proof.
  induction l as [|x l IH]; simpl; [reflexivity|].
  rewrite insert_perm. now constructor.
Qed.

Lemma NoDup_map_filter {K E} (key : E -> K) (keep : E -> bool) (entries : list E)
    (Hkeys : NoDup (map key entries)) :
  NoDup (map key (filter keep entries)).
Proof.
  induction entries as [|x entries IH]; simpl in *; [constructor|].
  inversion Hkeys as [|? ? Hn Hd]; subst.
  destruct (keep x); simpl; [|now apply IH].
  constructor; [|now apply IH].
  intros Hin. apply Hn. apply in_map_iff in Hin as [y [E1 Hy]].
  apply filter_In in Hy as [Hy _]. rewrite <- E1. now apply in_map.
Qed.

Lemma NoDup_prefix {A} (n : nat) (l : list A) : NoDup l -> NoDup (firstn n l).
Proof.
  intros H. rewrite <- (firstn_skipn n l) in H.
  now apply NoDup_app_remove_r in H.
Qed.

Lemma In_prefix {A} (n : nat) (l : list A) (x : A) : In x (firstn n l) -> In x l.
Proof.
  intros H. rewrite <- (firstn_skipn n l). apply in_app_iff. now left.
Qed.

Variable question : str.

Lemma scored_In (entry : Rag.ControlIndexItem * Z) :
  In entry (Rag.scored question index) ->
  In (fst entry) index
  /\ snd entry = Rag.scoreControl question (Rag.tokenize question) (fst entry)
  /\ (0 < snd entry)%Z.
Proof.
  unfold Rag.scored. intros H.
  apply (Permutation_in _ (sort_perm _ _)) in H.
  apply filter_In in H as [H Hpos].
  apply in_map_iff in H as [item [<- Hin]]. simpl in *.
  repeat split; [assumption | now apply Z.ltb_lt].
Qed.

Lemma scored_NoDup :
  NoDup (map Rag.control_id index) ->
  NoDup (map (fun entry => Rag.control_id (fst entry)) (Rag.scored question index)).
Proof.
  intros H. unfold Rag.scored.
  eapply Permutation_NoDup.
  - apply Permutation_map. symmetry. apply sort_perm.
  - apply NoDup_map_filter. now rewrite map_map.
Qed.

Lemma slice0_prefix {A} (l : list A) (n : Z) :
  exists k, Js.slice0 l n = firstn k l /\ ((0 <= n)%Z -> k = Z.to_nat n).
Proof.
  unfold Js.slice0. destruct (n <? 0)%Z eqn:E.
  - eexists. split; [reflexivity|]. apply Z.ltb_lt in E. lia.
  - eexists. split; reflexivity.
Qed.

Lemma lexicalFallback_NoDup (limit : Z) :
  NoDup (map Rag.control_id index) -> NoDup (Rag.lexicalFallback question index limit).
Proof.
  intros H. unfold Rag.lexicalFallback.
  destruct (slice0_prefix (Rag.scored question index) limit) as [k [-> _]].
  rewrite <- firstn_map. apply NoDup_prefix. now apply scored_NoDup.
Qed.

Lemma lexicalFallback_positive (limit : Z) (id : str) :
  In id (Rag.lexicalFallback question index limit) ->
  exists item, In item index /\ Rag.control_id item = id
               /\ (0 < Rag.scoreControl question (Rag.tokenize question) item)%Z.
Proof.
  unfold Rag.lexicalFallback.
  destruct (slice0_prefix (Rag.scored question index) limit) as [k [-> _]].
  intros H. apply in_map_iff in H as [entry [<- H]].
  apply In_prefix, scored_In in H as [Hin [Hs Hpos]].
  exists (fst entry). repeat split; [assumption | now rewrite <- Hs].
Qed.

Lemma lexicalFallback_length (limit : Z) :
  (0 <= limit)%Z ->
  (Z.of_nat (length (Rag.lexicalFallback question index limit)) <= limit)%Z.
Proof.
  intros H. unfold Rag.lexicalFallback. rewrite length_map.
  destruct (slice0_prefix (Rag.scored question index) limit) as [k [-> Hk]].
  rewrite (Hk H). pose proof (firstn_le_length (Z.to_nat limit) (Rag.scored question index)).
  rewrite length_firstn. lia.
Qed.

(** The three ways the selection is made. *)
Lemma selectControlIds_cases (controlIds : option (list str)) (limit : Z) :
  let chosen := Rag.selectControlIds question controlIds index limit in
  (exists ids, controlIds = Some ids /\ ids <> []
               /\ chosen = Rag.addAll (Rag.canonical index) [] ids /\ chosen <> [])
  \/ (chosen = Rag.addAll (Rag.canonical index) [] (Rag.extractControlIds question)
      /\ chosen <> [])
  \/ chosen = Rag.lexicalFallback question index limit.
Proof.
  cbv zeta. unfold Rag.selectControlIds.
  destruct controlIds as [[|id ids]|].
  2: destruct (Rag.addAll (Rag.canonical index) [] (id :: ids)) as [|c chosen] eqn:E.
  3: { left. exists (id :: ids). repeat split; discriminate || now rewrite E. }
  all: destruct (Rag.addAll (Rag.canonical index) [] (Rag.extractControlIds question));
    [now right; right | right; left; split; [reflexivity | discriminate]].
Qed.

End Selection.

Lemma dedupe_into_app (seen a b : list str) :
  Js.dedupe_into seen (a ++ b) = Js.dedupe_into (Js.dedupe_into seen a) b.
Proof.
  revert seen. induction a as [|x a IH]; intros seen; simpl; [reflexivity|].
  apply IH.
Qed.

Lemma addAll_dedupe (index : list Rag.ControlIndexItem) (ids chosen : list str) :
  Rag.addAll (Rag.canonical index) chosen ids
  = Js.dedupe_into chosen (flat_map (canonicalOf index) ids).
Proof.
  unfold Rag.addAll. revert chosen.
  induction ids as [|id ids IH]; intros chosen; simpl; [reflexivity|].
  rewrite dedupe_into_app, IH. f_equal.
  unfold Rag.add, canonicalOf.
  destruct (Js.get (Rag.canonical index) (Rag.normalizeControlId id)) as [c|];
    [|reflexivity].
  destruct (Js.nonEmpty c); simpl; [|reflexivity].
  now destruct (Js.mem c chosen).
Qed.

(** Caller-supplied ids, when at least one is in the index, are the whole
    selection: each is looked up under its trimmed upper-case form and
    the canonical ids found are kept once each, in the caller's order. *)
Lemma selectControlIds_caller_ids (question : str) (ids : list str)
    (index : list Rag.ControlIndexItem) (limit : Z) :
  flat_map (canonicalOf index) ids <> [] ->
  Rag.selectControlIds question (Some ids) index limit
  = Js.dedupe (flat_map (canonicalOf index) ids).
Proof.
  intros H. unfold Rag.selectControlIds, Js.dedupe.
  destruct ids as [|id ids]; [now contradiction H|].
  rewrite addAll_dedupe.
  destruct (Js.dedupe_into [] (flat_map (canonicalOf index) (id :: ids))) eqn:E;
    [|reflexivity].
  exfalso. destruct (flat_map (canonicalOf index) (id :: ids)) as [|c l] eqn:F;
    [now contradiction H|].
  assert (Hin : In c (Js.dedupe_into [] (c :: l)))
    by (apply dedupe_into_In; right; now left).
  rewrite E in Hin. destruct Hin.
Qed.

(** ** The read API ([r2.ts], [index.ts]) *)

Lemma getJson_never_value (bucket : R2.R2Bucket) (key : str) (v : json) :
  R2.getJson bucket key <> R2.Value v.
Proof. unfold R2.getJson. destruct (bucket key); discriminate. Qed.

Lemma handleControl_not_found (env : Api.Env) (controlId : str) :
  Api.handleControl env controlId
  = Api.jsonResponse (Api.ErrorBody "control not found") 404.
Proof.
  unfold Api.handleControl, R2.getJson.
  now destruct (Api.DATA env _).
Qed.

Lemma handleIndex_not_found (env : Api.Env) :
  Api.handleIndex env
  = Api.jsonResponse (Api.ErrorBody "controls-index.json not found") 404.
Proof.
  unfold Api.handleIndex, R2.getJson.
  now destruct (Api.DATA env _).
Qed.

(** C1 (the code departs from the claim).  [getJson] never delivers a
    stored value, so [handleControl] answers 404 "control not found" for
    every control id and every bucket, also when a record is published
    under the key, whatever its bytes: here for AC-2, requested with and
    without the [.json] suffix. *)
Theorem published_control_answers_404 :
  (forall env controlId,
      Api.handleControl env controlId
      = Api.jsonResponse (Api.ErrorBody "control not found") 404)
  /\ (forall indexBytes recordBytes,
        publishedBucket indexBytes recordBytes "controls/AC-2.json" = Some recordBytes
        /\ Api.fetch (publishedEnv indexBytes recordBytes) (get "/api/controls/AC-2.json")
           = Api.jsonResponse (Api.ErrorBody "control not found") 404
        /\ Api.fetch (publishedEnv indexBytes recordBytes) (get "/api/controls/AC-2")
           = Api.jsonResponse (Api.ErrorBody "control not found") 404).
Proof.
  split; [exact handleControl_not_found|].
  intros indexBytes recordBytes. repeat split; reflexivity.
Qed.

Lemma chatControlIds_without_controlIds (question : str) (fields : list (str * json))
    (index : list Rag.ControlIndexItem) :
  Json.lookup fields "controlIds" = None ->
  Api.chatControlIds question (JObj fields) index
  = Some (Rag.selectControlIds question None index Rag.default_limit).
Proof. intros H. unfold Api.chatControlIds. simpl. now rewrite H. Qed.

(** A chat request with a question is answered 500 when the index is
    published, whatever its bytes. *)
Lemma handleChat_index_not_found (env : Api.Env) (req : Api.Request)
    (fields : list (str * json)) (question : str) :
  Api.body req = Some (JObj fields) ->
  Json.lookup fields "question" = Some (JStr question) ->
  Js.nonEmpty (Js.trim question) = true ->
  Api.handleChat env req
  = Api.jsonResponse (Api.ErrorBody "controls-index not found") 500.
Proof.
  intros Hbody Hq Hne. unfold Api.handleChat. rewrite Hbody.
  cbn [Json.truthy negb Json.prop]. rewrite Hq, Hne. cbn [negb].
  unfold R2.getJson. now destruct (Api.DATA env _).
Qed.

(** C2 (the code departs from the claim).  [selectControlIds] itself
    gives the caller's ids priority, but [handleChat] passes it
    [payload.controlIds], not the [control_ids] of the request: the
    caller's IA-2 is ignored and AC-2 is selected from the question text.
    The handler does not even get that far: the index read through
    [getJson] is never a value, and the answer is 500. *)
Theorem chat_ignores_control_ids :
  Rag.selectControlIds "What does AC-2 require?" (Some ["IA-2"]) chatIndex
    Rag.default_limit = ["IA-2"]
  /\ Api.chatControlIds "What does AC-2 require?" chatPayload chatIndex = Some ["AC-2"]
  /\ (forall indexBytes recordBytes,
        Api.fetch (publishedEnv indexBytes recordBytes) chatRequest
        = Api.jsonResponse (Api.ErrorBody "controls-index not found") 500).
Proof. repeat split; reflexivity. Qed.

(** C10.  With pairwise distinct control ids in the index and a limit
    that is not negative, the list [selectControlIds] returns has no
    duplicates and holds ids of index entries only.  It is made in one
    of three ways: it is the ids of the index the caller's ids stand
    for, not empty; or it is the ids of the index the ids written in the
    question stand for, not empty; or it comes from lexical scoring, and
    then it has at most [limit] ids, each the id of an entry whose score
    is positive. *)
Theorem selectControlIds_invariants (question : str) (controlIds : option (list str))
    (index : list Rag.ControlIndexItem) (limit : Z)
    (Hdistinct : NoDup (map Rag.control_id index)) (Hlimit : (0 <= limit)%Z) :
  NoDup (Rag.selectControlIds question controlIds index limit)
  /\ (forall id, In id (Rag.selectControlIds question controlIds index limit) ->
                 exists item, In item index /\ Rag.control_id item = id)
  /\ ((exists ids,
         controlIds = Some ids
         /\ Rag.selectControlIds question controlIds index limit <> []
         /\ Rag.selectControlIds question controlIds index limit
            = Js.dedupe (flat_map (canonicalOf index) ids))
      \/ (Rag.selectControlIds question controlIds index limit <> []
          /\ Rag.selectControlIds question controlIds index limit
             = Js.dedupe (flat_map (canonicalOf index) (Rag.extractControlIds question)))
      \/ ((Z.of_nat (length (Rag.selectControlIds question controlIds index limit))
           <= limit)%Z
          /\ forall id, In id (Rag.selectControlIds question controlIds index limit) ->
               exists item,
                 In item index /\ Rag.control_id item = id
                 /\ (0 < Rag.scoreControl question (Rag.tokenize question) item)%Z)).
Proof.
  assert (W : wellChosen index (Rag.selectControlIds question controlIds index limit)).
  { destruct (selectControlIds_cases index question controlIds limit)
      as [[ids [_ [_ [-> _]]]]|[[-> _]| ->]].
    - apply addAll_wellChosen, wellChosen_nil.
    - apply addAll_wellChosen, wellChosen_nil.
    - split; [now apply lexicalFallback_NoDup|].
      intros id Hid. apply lexicalFallback_positive in Hid as [item [Hin [E _]]].
      now exists item. }
  destruct W as [W1 W2].
  split; [exact W1|]. split; [exact W2|].
  destruct (selectControlIds_cases index question controlIds limit)
    as [[ids [E [_ [H N]]]]|[[H N]| H]].
  - left. exists ids. split; [exact E|]. split; [exact N|].
    rewrite H. apply addAll_dedupe.
  - right. left. split; [exact N|]. rewrite H. apply addAll_dedupe.
  - right. right. rewrite H. split; [now apply lexicalFallback_length|].
    apply lexicalFallback_positive.
Qed.

Lemma selectControlIds_invariants_witness :
  NoDup (map Rag.control_id chatIndex) /\ (0 <= 1)%Z
  /\ Rag.selectControlIds "What does AC-2 require?" (Some [" ia-2 "]) chatIndex 1 = ["IA-2"]
  /\ Rag.selectControlIds "What does AC-2 require?" None chatIndex 1 = ["AC-2"]
  /\ Rag.selectControlIds "account management and authentication" None chatIndex 1
     = ["AC-2"]
  /\ (Z.of_nat (length (Rag.selectControlIds "account management and authentication"
                          None chatIndex 1)) <= 1)%Z
  /\ (forall id,
        In id (Rag.selectControlIds "account management and authentication"
                 None chatIndex 1) ->
        exists item,
          In item chatIndex /\ Rag.control_id item = id
          /\ (0 < Rag.scoreControl "account management and authentication"
                    (Rag.tokenize "account management and authentication") item)%Z).
Proof.
  assert (H1 : NoDup (map Rag.control_id chatIndex)).
  { simpl. repeat constructor; simpl; intuition discriminate. }
  assert (H2 : (0 <= 1)%Z) by lia.
  split; [exact H1|]. split; [exact H2|].
  split; [reflexivity|]. split; [reflexivity|]. split; [reflexivity|].
  destruct (selectControlIds_invariants "account management and authentication" None
              chatIndex 1 H1 H2) as [_ [_ [[ids [E _]]|[[_ E]|[A B]]]]].
  - discriminate E.
  - discriminate E.
  - split; [exact A | exact B].
Defined.

(** ** The extraction runs and the files they write *)

Lemma read_app (t1 t2 : Fs.trace) (file : str) :
  Fs.read (t1 ++ t2) file
  = match Fs.read t2 file with
    | Some c => Some c
    | None => Fs.read t1 file
    end.
Proof.
  induction t1 as [|o t1 IH]; simpl.
  - now destruct (Fs.read t2 file).
  - rewrite IH. now destruct (Fs.read t2 file).
Qed.


Lemma read_snoc (t : Fs.trace) (f : str) (c : Fs.content) (file : str) :
  Fs.read (t ++ [Fs.WriteFile f c]) file
  = if Js.eqb f file then Some c else Fs.read t file.
Proof. rewrite read_app. simpl. now destruct (Js.eqb f file). Qed.

Lemma controlFile_inj (a b : str) : Fs.controlFile a = Fs.controlFile b -> a = b.
Proof.
  unfold Fs.controlFile. intros H.
  apply app_inv_head in H. apply app_inv_head in H.
  now apply app_inv_tail in H.
Qed.

Lemma controlFile_not_index (id : str) : Fs.controlFile id <> Fs.indexFile.
Proof. unfold Fs.controlFile, Fs.indexFile, Fs.outputDir. simpl. discriminate. Qed.


Arguments Fs.controlFile : simpl never.

(** *** The PDF run *)

(** What the loop of [extract] keeps true of [indexMap] and of the
    writes made so far. *)
Record extractInv (indexMap : Js.Map Rag.ControlIndexItem) (written : Fs.trace) : Prop := {
  inv_keys : NoDup (Js.keys indexMap);
  inv_ids : forall id, In id (Js.keys indexMap) <-> recordWritten written id;
  inv_entries : forall id e, In (id, e) indexMap ->
      exists r, Fs.read written (Fs.controlFile id) = Some (Fs.RecordJson r)
                /\ e = Pdf.indexEntry r /\ Control.control_id r = id;
  inv_writes : forall o, In o written ->
      o = Fs.Mkdir Fs.outputDir
      \/ exists id r, o = Fs.WriteFile (Fs.controlFile id) (Fs.RecordJson r)
}.

Lemma extractInv_init : extractInv [] [Fs.Mkdir Fs.outputDir].
Proof.
  split.
  - constructor.
  - intros id. split; [intros [] | intros [r [H|[]]]; discriminate].
  - intros id e [].
  - intros o [<-|[]]. now left.
Qed.

Lemma extractStep_inv (indexMap : Js.Map Rag.ControlIndexItem) (written : Fs.trace)
    (control : Pdf.RawControl) :
  extractInv indexMap written ->
  extractInv (fst (Pdf.extractStep (indexMap, written) control))
             (snd (Pdf.extractStep (indexMap, written) control)).
Proof.
  intros [K I E W]. simpl.
  set (r := Pdf.assemble control).
  change (Control.control_id r) with (Pdf.control_id control).
  split.
  - now apply keys_set_NoDup.
  - intros id. rewrite keys_set, I. unfold recordWritten. split.
    + intros [->|[r' H]].
      * exists r. apply in_app_iff. right. now left.
      * exists r'. apply in_app_iff. now left.
    + intros [r' H]. apply in_app_iff in H as [H|[H|[]]].
      * right. now exists r'.
      * left. symmetry. apply controlFile_inj. congruence.
  - intros id e Hin.
    assert (G : Js.get (Js.set indexMap (Pdf.control_id control) (Pdf.indexEntry r)) id
                = Some e).
    { apply In_get; [now apply keys_set_NoDup | assumption]. }
    rewrite get_set in G. rewrite read_snoc.
    destruct (Js.eqb (Pdf.control_id control) id) eqn:Eq.
    + apply eqb_eq in Eq. subst id. rewrite eqb_refl. injection G as <-.
      now exists r.
    + apply eqb_neq in Eq.
      assert (Hf : Js.eqb (Fs.controlFile (Pdf.control_id control)) (Fs.controlFile id)
                   = false).
      { apply eqb_neq. intros H. now apply controlFile_inj in H. }
      rewrite Hf. apply E. now apply get_In.
  - intros o Ho. apply in_app_iff in Ho as [Ho|[<-|[]]].
    + now apply W.
    + right. now exists (Pdf.control_id control), r.
Qed.

Lemma fold_extractStep_inv (rawControls : list Pdf.RawControl)
    (st : Js.Map Rag.ControlIndexItem * Fs.trace) :
  extractInv (fst st) (snd st) ->
  extractInv (fst (fold_left Pdf.extractStep rawControls st))
             (snd (fold_left Pdf.extractStep rawControls st)).
Proof.
  revert st.
  induction rawControls as [|c cs IH]; intros [indexMap written] H; simpl;
    [assumption|].
  apply IH. exact (extractStep_inv indexMap written c H).
Qed.

Lemma extractLoop_inv (rawControls : list Pdf.RawControl) :
  extractInv (fst (Pdf.extractLoop rawControls)) (snd (Pdf.extractLoop rawControls)).
Proof. apply fold_extractStep_inv, extractInv_init. Qed.

Lemma extract_done (allLines : list str) :
  snd (Pdf.extract allLines) = Fs.Done ->
  exists indexMap written,
    Pdf.extract allLines
    = (written ++ [Fs.WriteFile Fs.indexFile (Fs.IndexJson (Js.values indexMap))], Fs.Done)
    /\ extractInv indexMap written.
Proof.
  unfold Pdf.extract.
  destruct (Pdf.splitControls allLines) as [|c cs] eqn:S; [discriminate|].
  intros _. pose proof (extractLoop_inv (c :: cs)) as H.
  destruct (Pdf.extractLoop (c :: cs)) as [indexMap written].
  exists indexMap, written. split; [reflexivity | exact H].
Qed.

Lemma extract_consistent (allLines : list str) :
  snd (Pdf.extract allLines) = Fs.Done -> consistent (fst (Pdf.extract allLines)).
Proof.
  intros H. destruct (extract_done allLines H) as [indexMap [written [-> [K I E W]]]].
  simpl. exists written, (Js.values indexMap), []. split; [reflexivity|].
  assert (Hkeys : map Rag.control_id (Js.values indexMap) = Js.keys indexMap).
  { unfold Js.values, Js.keys. rewrite map_map. apply map_ext_in.
    intros [id e] Hin. simpl. destruct (E id e Hin) as [r [_ [-> Hr]]]. exact Hr. }
  split; [intros o []|]. split.
  - intros id. rewrite Hkeys, I. unfold recordWritten. split.
    + intros [r Hr]. exists r. apply in_app_iff. now left.
    + intros [r Hr]. apply in_app_iff in Hr as [Hr|[Hr|[]]]; [now exists r | discriminate].
  - intros e He. unfold Js.values in He. apply in_map_iff in He as [[id e'] [<- Hin]].
    destruct (E id e' Hin) as [r [Hread [-> Hr]]].
    exists r. rewrite read_snoc.
    change (Rag.control_id (snd (id, Pdf.indexEntry r))) with (Control.control_id r).
    assert (Hf : Js.eqb Fs.indexFile (Fs.controlFile (Control.control_id r)) = false).
    { apply eqb_neq. intros X. symmetry in X. now apply controlFile_not_index in X. }
    rewrite Hf, Hr. now repeat split.
Qed.

(** *** The HTML run *)





(** *** Runs that find no control *)

Lemma splitStep_no_heading (st : Pdf.splitState) (line : str) :
  Pdf.controlHeading line = None ->
  Pdf.controls st = [] -> Pdf.current st = None ->
  Pdf.controls (Pdf.splitStep st line) = []
  /\ Pdf.current (Pdf.splitStep st line) = None.
Proof.
  intros H C1 C2. unfold Pdf.splitStep.
  destruct (negb (Pdf.started st)); [now split|].
  destruct (Pdf.isTocLine line); [now split|].
  rewrite C2, H. now split.
Qed.

Lemma splitControls_no_heading (allLines : list str) :
  (forall line, In line allLines -> Pdf.controlHeading line = None) ->
  Pdf.splitControls allLines = [].
Proof.
  intros H. unfold Pdf.splitControls.
  assert (G : forall st, Pdf.controls st = [] -> Pdf.current st = None ->
            Pdf.controls (fold_left Pdf.splitStep allLines st) = []
            /\ Pdf.current (fold_left Pdf.splitStep allLines st) = None).
  { induction allLines as [|l ls IH]; intros st C1 C2; simpl; [now split|].
    destruct (splitStep_no_heading st l (H l (or_introl eq_refl)) C1 C2) as [D1 D2].
    apply IH; [|assumption..]. intros line Hl. apply H. now right. }
  destruct (G {| Pdf.controls := []; Pdf.current := None; Pdf.started := false |}
              eq_refl eq_refl) as [-> ->].
  reflexivity.
Qed.

Lemma parseControls_no_heading (doc : list Html.node) :
  (forall h following, In (h, following) (Html.headings doc) ->
     Html.controlHeading (Html.cleanText (Html.text h)) = None) ->
  Html.parseControlsFromHtml doc = [].
Proof.
  unfold Html.parseControlsFromHtml. intros H.
  induction (Html.headings doc) as [|[h following] hs IH]; [reflexivity|].
  cbn [flat_map fst snd]. unfold Html.parseControl at 1.
  rewrite (H h following (or_introl eq_refl)). cbn [app].
  apply IH. intros h' f' Hin. apply (H h' f'). now right.
Qed.

Lemma extract_no_controls (allLines : list str) :
  Pdf.splitControls allLines = [] ->
  Pdf.extract allLines
  = ([], Fs.Failed "No controls found. Check the parser or PDF version.").
Proof. intros H. unfold Pdf.extract. now rewrite H. Qed.

Lemma run_no_controls (doc : list Html.node) (md : Fs.Metadata) :
  Html.parseControlsFromHtml doc = [] ->
  Html.run (Some doc) md = ([], Fs.Failed "No controls parsed from HTML source").
Proof. intros H. unfold Html.run. now rewrite H. Qed.

(** C4.  When segmentation finds no control, the PDF run and the HTML
    run end with an error and an empty trace: no directory is created
    and no control, index or metadata file is written. *)
Theorem zero_controls_abort (allLines : list str) (doc : list Html.node)
    (md : Fs.Metadata) :
  (Pdf.splitControls allLines = [] ->
   fst (Pdf.extract allLines) = []
   /\ exists message, snd (Pdf.extract allLines) = Fs.Failed message)
  /\ (Html.parseControlsFromHtml doc = [] ->
      fst (Html.run (Some doc) md) = []
      /\ exists message, snd (Html.run (Some doc) md) = Fs.Failed message).
Proof.
  split; intros H.
  - rewrite (extract_no_controls allLines H). split; [reflexivity | now eexists].
  - rewrite (run_no_controls doc md H). split; [reflexivity | now eexists].
Qed.

Lemma zero_controls_abort_witness :
  Pdf.splitControls noHeadingLines = []
  /\ Html.parseControlsFromHtml noHeadingPage = []
  /\ fst (Pdf.extract noHeadingLines) = []
  /\ fst (Html.run (Some noHeadingPage) []) = [].
Proof.
  assert (H1 : Pdf.splitControls noHeadingLines = []) by reflexivity.
  assert (H2 : Html.parseControlsFromHtml noHeadingPage = []) by reflexivity.
  destruct (zero_controls_abort noHeadingLines noHeadingPage []) as [A B].
  split; [exact H1|]. split; [exact H2|].
  split; [exact (proj1 (A H1)) | exact (proj1 (B H2))].
Defined.

(** C3 (the code departs from the claim).  The PDF run keys its index by
    control id, the HTML run does not: on a page where the heading of a
    control stands twice the index gets two entries for it, and the first
    carries a name the record file, written last by the second, does not
    have. *)
Theorem html_index_diverges_on_repeated_heading :
  snd (Html.run (Some twiceAC2) []) = Fs.Done
  /\ exists index e r,
       In (Fs.WriteFile Fs.indexFile (Fs.IndexJson index)) (fst (Html.run (Some twiceAC2) []))
       /\ In e index
       /\ Fs.read (fst (Html.run (Some twiceAC2) [])) (Fs.controlFile (Rag.control_id e))
          = Some (Fs.RecordJson r)
       /\ Rag.control_name e = "ACCOUNT MANAGEMENT"
       /\ Control.control_name r = "ACCESS ENFORCEMENT".
Proof.
  split; [reflexivity|].
  eexists _, _, _. split; [|split; [|split; [|split]]].
  - vm_compute. right. right. right. left. reflexivity.
  - left. reflexivity.
  - vm_compute. reflexivity.
  - reflexivity.
  - reflexivity.
Qed.

(** ** Derived part ids ([numberToAlpha], [parseStatementList]) *)

Lemma numberToAlpha_loop_unfold (lower : bool) (n : Z) (out : str) :
  Html.numberToAlpha_loop lower n out
  = if (0 <? n)%Z
    then Html.numberToAlpha_loop lower ((n - 1) / 26)
           (Js.chr (Z.to_nat ((if lower then 97 else 65) + (n - 1) mod 26)) :: out)
    else out.
Proof.
  rewrite Html.numberToAlpha_loop_equation_1.
  destruct (Z_gt_dec n 0) as [H|H]; simpl;
    destruct (0 <? n)%Z eqn:E; try reflexivity;
    (apply Z.ltb_lt in E || apply Z.ltb_ge in E); lia.
Qed.


Lemma alphaValue_snoc (lower : bool) (word : str) (c : ascii) :
  alphaValue lower (word ++ [c]) = (26 * alphaValue lower word + letterValue lower c)%Z.
Proof. unfold alphaValue. now rewrite fold_left_app. Qed.




(** Words of letters with the same value are the same word: the mapping
    from ordinals to ids is one to one. *)
Lemma letterValue_range (lower : bool) (c : ascii) :
  isLetter lower c = true -> (1 <= letterValue lower c <= 26)%Z.
Proof.
  unfold isLetter, letterValue, Js.is_lower, Js.is_upper, Js.between.
  destruct lower; intros H; apply andb_true_iff in H as [H1 H2];
    apply Nat.leb_le in H1, H2; lia.
Qed.

Lemma letterValue_inj (lower : bool) (a b : ascii) :
  letterValue lower a = letterValue lower b -> a = b.
Proof.
  unfold letterValue. intros H.
  assert (E : Js.code a = Js.code b) by lia.
  unfold Js.code in E.
  rewrite <- (ascii_nat_embedding a), <- (ascii_nat_embedding b). now rewrite E.
Qed.

Lemma alphaValue_nonneg (lower : bool) (w : str) :
  forallb (isLetter lower) w = true -> (0 <= alphaValue lower w)%Z.
Proof.
  induction w as [|c w IH] using rev_ind; intros H.
  - unfold alphaValue. simpl. lia.
  - rewrite forallb_app in H. apply andb_true_iff in H as [H1 H2].
    simpl in H2. rewrite andb_true_r in H2.
    rewrite alphaValue_snoc. pose proof (letterValue_range lower c H2). specialize (IH H1). lia.
Qed.

Lemma alphaValue_inj (lower : bool) (v w : str) :
  forallb (isLetter lower) v = true -> forallb (isLetter lower) w = true ->
  alphaValue lower v = alphaValue lower w -> v = w.
Proof.
  revert w. induction v as [|a v IH] using rev_ind; intros w Hv Hw E.
  - destruct w as [|b w] using rev_ind; [reflexivity|].
    rewrite forallb_app in Hw. apply andb_true_iff in Hw as [H1 H2].
    simpl in H2. rewrite andb_true_r in H2.
    rewrite alphaValue_snoc in E. change (alphaValue lower []) with 0%Z in E.
    pose proof (letterValue_range lower b H2). pose proof (alphaValue_nonneg lower w H1). lia.
  - rewrite forallb_app in Hv. apply andb_true_iff in Hv as [Hv1 Hv2].
    simpl in Hv2. rewrite andb_true_r in Hv2.
    pose proof (letterValue_range lower a Hv2) as Ra.
    pose proof (alphaValue_nonneg lower v Hv1) as Nv.
    destruct w as [|b w _] using rev_ind.
    + rewrite alphaValue_snoc in E. change (alphaValue lower []) with 0%Z in E. lia.
    + rewrite forallb_app in Hw. apply andb_true_iff in Hw as [Hw1 Hw2].
      simpl in Hw2. rewrite andb_true_r in Hw2.
      pose proof (letterValue_range lower b Hw2) as Rb.
      rewrite !alphaValue_snoc in E.
      assert (letterValue lower a = letterValue lower b /\
              alphaValue lower v = alphaValue lower w) as [Ea Ev] by lia.
      apply letterValue_inj in Ea. subst b. f_equal. now apply IH.
Qed.


(** The items of a list, numbered from 0. *)
Lemma eachFrom_nth {A B} (f : nat -> A -> B) (xs : list A) (start n : nat) :
  nth_error (Html.eachFrom f start xs) n = option_map (f (start + n)) (nth_error xs n).
Proof.
  revert start n. induction xs as [|x xs IH]; intros start [|n]; simpl;
    try reflexivity.
  - now rewrite Nat.add_0_r.
  - rewrite IH. now rewrite Nat.add_succ_r.
Qed.

Lemma each_nth {A B} (f : nat -> A -> B) (xs : list A) (n : nat) :
  nth_error (Html.each f xs) n = option_map (f n) (nth_error xs n).
Proof. unfold Html.each. now rewrite eachFrom_nth. Qed.


Lemma parsePart_subparts (index : nat) (li : Html.node) :
  Part.subparts (Html.parsePart index li)
  = Html.each Html.parseSubpart (flat_map (Html.children "li") (Html.children "ol" li)).
Proof.
  unfold Html.parsePart.
  now destruct (Html.stripPartMarker _) as [[id txt]|].
Qed.



(** ** The PDF enhancement parser ([parseEnhancements]) *)

(** Once an enhancement has guidance, the lines that follow, up to the
    next enhancement header, leave its statement as it is. *)
Lemma guidance_mode_keeps_statement (controlId : str) (lines : list str) :
  (forall line, In line lines -> Pdf.enhancementHeader line = None) ->
  forall (done : list Enhancement.t) (cur : Enhancement.t),
    Enhancement.supplemental_guidance cur <> None ->
    exists cur',
      fold_left (Pdf.enhancementStep controlId) lines (done, Some cur) = (done, Some cur')
      /\ Enhancement.statement cur' = Enhancement.statement cur
      /\ Enhancement.supplemental_guidance cur' <> None.
Proof.
  induction lines as [|line lines IH]; intros Hlines done cur Hg; simpl.
  - now exists cur.
  - rewrite (Hlines line (or_introl eq_refl)).
    destruct (Js.startsWith (Js.toLowerCase line) "enhancement supplemental guidance").
    + edestruct IH as [cur' [E1 [E2 E3]]];
        [intros l Hl; apply Hlines; now right | | exists cur'; split; [exact E1|]].
      * simpl. destruct (Js.nonEmpty (Pdf.afterFirstColon line)); [discriminate | exact Hg].
      * now split.
    + destruct (Enhancement.supplemental_guidance cur) as [g|] eqn:G; [|now contradiction Hg].
      edestruct IH as [cur' [E1 [E2 E3]]];
        [intros l Hl; apply Hlines; now right | | exists cur'; split; [exact E1|]].
      * simpl. discriminate.
      * now split.
Qed.

(** A guidance header with text behind its first colon opens the
    guidance of the enhancement being read. *)
Lemma guidance_header_with_text (controlId : str) (done : list Enhancement.t)
    (cur : Enhancement.t) (line : str) :
  Pdf.enhancementHeader line = None ->
  Js.startsWith (Js.toLowerCase line) "enhancement supplemental guidance" = true ->
  Js.nonEmpty (Pdf.afterFirstColon line) = true ->
  exists cur',
    Pdf.enhancementStep controlId (done, Some cur) line = (done, Some cur')
    /\ Enhancement.statement cur' = Enhancement.statement cur
    /\ Enhancement.supplemental_guidance cur' = Some (Pdf.afterFirstColon line).
Proof.
  intros H1 H2 H3. unfold Pdf.enhancementStep. rewrite H1, H2, H3.
  eexists. split; [reflexivity | now split].
Qed.

(** A guidance header without text behind a colon changes nothing, and
    the line after it is appended to the statement when the enhancement
    has no guidance yet. *)
Lemma guidance_header_without_text (controlId : str) (done : list Enhancement.t)
    (cur : Enhancement.t) (header next : str) :
  Pdf.enhancementHeader header = None ->
  Js.startsWith (Js.toLowerCase header) "enhancement supplemental guidance" = true ->
  Js.nonEmpty (Pdf.afterFirstColon header) = false ->
  Enhancement.supplemental_guidance cur = None ->
  Pdf.enhancementHeader next = None ->
  Js.startsWith (Js.toLowerCase next) "enhancement supplemental guidance" = false ->
  exists cur',
    fold_left (Pdf.enhancementStep controlId) [header; next] (done, Some cur)
    = (done, Some cur')
    /\ Enhancement.statement cur' = Pdf.appendText (Enhancement.statement cur) next
    /\ Enhancement.supplemental_guidance cur' = None.
Proof.
  intros H1 H2 H3 H4 H5 H6. cbn [fold_left].
  unfold Pdf.enhancementStep at 2. rewrite H1, H2, H3, H4.
  unfold Pdf.enhancementStep. rewrite H5, H6. cbn [Enhancement.supplemental_guidance].
  eexists. split; [reflexivity | now split].
Qed.

(** C6 (the code departs from the claim).  The parser takes "this
    enhancement has guidance" for "guidance mode", and gives it guidance
    only when text follows the first colon of the header line.  After a
    header that stands alone, with or without colon, the mode is not
    switched: the next line goes to the statement and no guidance is
    recorded.  With text behind the colon the switch happens. *)
Theorem guidance_header_alone_does_not_switch :
  Pdf.parseEnhancements headerAlone "AC-2"
  = [{| Enhancement.enhancement_id := "AC-2(1)";
        Enhancement.title := Some "AUTOMATED SYSTEM ACCOUNT MANAGEMENT";
        Enhancement.statement :=
          "The organization employs automated mechanisms. Automated mechanisms include email alerts.";
        Enhancement.supplemental_guidance := None |}]
  /\ Pdf.parseEnhancements headerAloneNoColon "AC-2"
     = Pdf.parseEnhancements headerAlone "AC-2"
  /\ Pdf.parseEnhancements headerWithText "AC-2"
     = [{| Enhancement.enhancement_id := "AC-2(1)";
           Enhancement.title := Some "AUTOMATED SYSTEM ACCOUNT MANAGEMENT";
           Enhancement.statement := "The organization employs automated mechanisms.";
           Enhancement.supplemental_guidance :=
             Some "Automated mechanisms include email alerts." |}].
Proof. repeat split; reflexivity. Qed.

(** ** Related controls ([extractRelatedControls]) *)

(** What a scan returns was matched somewhere. *)
Lemma scan_In {A} (m : option ascii -> str -> option (A * nat)) (x : A) (s : str) :
  forall prev skip, In x (Js.scan m prev s skip) ->
  exists prev' s' len, m prev' s' = Some (x, len).
Proof.
  induction s as [|c s IH]; intros prev skip H; simpl in H; [destruct H|].
  destruct skip as [|k]; [|now apply IH in H].
  destruct (m prev (c :: s)) as [[v len]|] eqn:E.
  - destruct H as [<-|H]; [now exists prev, (c :: s), len | now apply IH in H].
  - now apply IH in H.
Qed.

Lemma digitsBoundary_digits (k : nat) (s ds rest : str) :
  Rx.digitsBoundary k s = Some (ds, rest) ->
  length ds = k /\ forallb Js.is_digit ds = true.
Proof.
  unfold Rx.digitsBoundary.
  destruct (_ && _ && _) eqn:E; [|discriminate].
  intros [= <- _]. apply andb_true_iff in E as [E _].
  apply andb_true_iff in E as [E1 E2]. now apply Nat.eqb_eq in E1.
Qed.

Lemma controlIdAt_canonical (loose : bool) (prev : option ascii) (s id : str) (len : nat) :
  Rx.controlIdAt loose prev s = Some (id, len) -> Rx.isControlId id = true.
Proof.
  unfold Rx.controlIdAt.
  destruct s as [|a [|b s1]]; try discriminate.
  destruct (_ && Js.is_upper a && Js.is_upper b) eqn:E; [|discriminate].
  apply andb_true_iff in E as [E Eb]. apply andb_true_iff in E as [_ Ea].
  destruct (Rx.optSpaces loose s1) as [|h s2]; [discriminate|].
  destruct (Js.ceqb h "-"%char); [|discriminate].
  set (s3 := Rx.optSpaces loose s2).
  assert (G : forall k ds rest, 1 <= k <= 3 -> Rx.digitsBoundary k s3 = Some (ds, rest) ->
              Rx.isControlId ([a; b] ++ "-" ++ ds) = true).
  { intros k ds rest Hk D. apply digitsBoundary_digits in D as [D1 D2].
    change ([a; b] ++ "-" ++ ds) with (a :: b :: "-"%char :: ds).
    unfold Rx.isControlId. rewrite Ea, Eb, D2.
    rewrite (proj2 (Nat.leb_le 1 (length ds))), (proj2 (Nat.leb_le (length ds) 3)) by lia.
    reflexivity. }
  destruct (Rx.digitsBoundary 3 s3) as [[ds rest]|] eqn:D3.
  { intros [= <- _]. apply (G 3 ds rest); [lia | assumption]. }
  destruct (Rx.digitsBoundary 2 s3) as [[ds rest]|] eqn:D2.
  { intros [= <- _]. apply (G 2 ds rest); [lia | assumption]. }
  destruct (Rx.digitsBoundary 1 s3) as [[ds rest]|] eqn:D1; [|discriminate].
  intros [= <- _]. apply (G 1 ds rest); [lia | assumption].
Qed.

Lemma matchAll_canonical (loose : bool) (group id : str) :
  In id (Js.matchAll (Rx.controlIdAt loose) group) -> Rx.isControlId id = true.
Proof.
  unfold Js.matchAll. intros H.
  apply scan_In in H as [prev [s [len H]]]. eapply controlIdAt_canonical, H.
Qed.

Lemma pdf_related_canonical (text id : str) :
  In id (Pdf.extractRelatedControls text) -> Rx.isControlId id = true.
Proof.
  unfold Pdf.extractRelatedControls.
  destruct (Js.search Pdf.relatedControlsAt text); [|intros []].
  rewrite dedupe_In. apply matchAll_canonical.
Qed.

Lemma html_related_canonical (text id : str) :
  In id (Html.extractRelatedControls text) -> Rx.isControlId id = true.
Proof.
  unfold Html.extractRelatedControls.
  destruct (Js.search Html.relatedControlsAt text); [|intros []].
  rewrite dedupe_In. apply matchAll_canonical.
Qed.

Lemma html_related_NoDup (text : str) : NoDup (Html.extractRelatedControls text).
Proof.
  unfold Html.extractRelatedControls.
  destruct (Js.search Html.relatedControlsAt text); [apply dedupe_NoDup | constructor].
Qed.

Lemma orUndefined_Some {A} (xs l : list A) :
  orUndefined xs = Some l -> l = xs /\ l <> [].
Proof.
  destruct xs; simpl; [discriminate|]. intros [= <-]. split; [reflexivity | discriminate].
Qed.


(** *** First occurrences *)

Lemma filter_swap {A} (p q : A -> bool) (l : list A) :
  filter p (filter q l) = filter q (filter p l).
Proof.
  induction l as [|x l IH]; [reflexivity|]. cbn [filter].
  destruct (p x) eqn:P, (q x) eqn:Q; cbn [filter]; rewrite ?P, ?Q, IH; reflexivity.
Qed.

Lemma filter_without (p : str -> bool) (y : str) (l : list str) :
  p y = false ->
  filter p (filter (fun z => negb (Js.eqb z y)) l) = filter p l.
Proof.
  intros H. induction l as [|z l IH]; [reflexivity|]. cbn [filter].
  destruct (Js.eqb z y) eqn:E; cbn [negb filter].
  - apply eqb_eq in E. subst z. now rewrite H.
  - now rewrite IH.
Qed.

Lemma firstOccurrences_filter (p : str -> bool) (l : list str) :
  firstOccurrences (filter p l) = filter p (firstOccurrences l).
Proof.
  induction l as [|y l IH]; [reflexivity|]. cbn [filter firstOccurrences].
  destruct (p y) eqn:E.
  - cbn [firstOccurrences]. rewrite IH. f_equal. apply filter_swap.
  - rewrite IH. symmetry. now apply filter_without.
Qed.

Lemma filter_all {A} (p : A -> bool) (l : list A) :
  (forall x, In x l -> p x = true) -> filter p l = l.
Proof.
  induction l as [|x l IH]; intros H; [reflexivity|]. cbn [filter].
  rewrite (H x) by now left. f_equal. apply IH. intros z Hz. apply H. now right.
Qed.

Lemma filter_unseen_snoc (seen : list str) (x : str) (l : list str) :
  filter (fun z => negb (Js.mem z (seen ++ [x]))) l
  = filter (fun z => negb (Js.eqb z x)) (filter (fun z => negb (Js.mem z seen)) l).
Proof.
  induction l as [|z l IH]; [reflexivity|]. cbn [filter].
  unfold Js.mem at 1. rewrite existsb_app. fold (Js.mem z seen). cbn [existsb].
  rewrite orb_false_r.
  destruct (Js.mem z seen); cbn [negb orb filter]; [exact IH|].
  destruct (Js.eqb z x); cbn [negb]; now rewrite IH.
Qed.

(** The [Set] of the code keeps the first occurrences, in order. *)
Lemma dedupe_into_first (l seen : list str) :
  Js.dedupe_into seen l
  = seen ++ firstOccurrences (filter (fun z => negb (Js.mem z seen)) l).
Proof.
  revert seen. induction l as [|x l IH]; intros seen.
  - simpl. now rewrite app_nil_r.
  - cbn [Js.dedupe_into filter]. destruct (Js.mem x seen) eqn:M; cbn [negb].
    + apply IH.
    + rewrite IH, <- app_assoc. cbn [app firstOccurrences]. do 2 f_equal.
      now rewrite filter_unseen_snoc, firstOccurrences_filter.
Qed.

Lemma dedupe_first (l : list str) : Js.dedupe l = firstOccurrences l.
Proof.
  unfold Js.dedupe. rewrite dedupe_into_first. cbn [app]. f_equal.
  now apply filter_all.
Qed.

Lemma firstOccurrences_NoDup_id (l : list str) : NoDup l -> firstOccurrences l = l.
Proof.
  induction 1 as [|x l Hx Hl IH]; [reflexivity|]. cbn [firstOccurrences].
  rewrite IH. f_equal. apply filter_all. intros z Hz.
  apply negb_true_iff, eqb_neq. intros ->. contradiction.
Qed.

Lemma firstOccurrences_idem (l : list str) :
  firstOccurrences (firstOccurrences l) = firstOccurrences l.
Proof.
  apply firstOccurrences_NoDup_id. rewrite <- dedupe_first. apply dedupe_NoDup.
Qed.

Lemma firstOccurrences_app (a b : list str) :
  firstOccurrences (a ++ b)
  = firstOccurrences a
      ++ firstOccurrences (filter (fun z => negb (Js.mem z (firstOccurrences a))) b).
Proof.
  rewrite <- (dedupe_first (a ++ b)). unfold Js.dedupe.
  rewrite dedupe_into_app. fold (Js.dedupe a).
  now rewrite dedupe_into_first, dedupe_first.
Qed.

Lemma firstOccurrences_parts (a b : list str) :
  firstOccurrences (firstOccurrences a ++ firstOccurrences b) = firstOccurrences (a ++ b).
Proof.
  rewrite (firstOccurrences_app (firstOccurrences a)), (firstOccurrences_app a).
  rewrite !firstOccurrences_idem. f_equal.
  now rewrite <- firstOccurrences_filter, firstOccurrences_idem.
Qed.

(** C5, as the code has it.  The related controls of an assembled
    record, when present, are a non-empty list without repetition of
    ids of the form XX-N, in the order in which the text first names
    them: for a record of the PDF run the ids named by the
    related-controls clause of its guidance, then those named by its
    section of related controls; for a record of the HTML run the ids
    named by the clause of its guidance.  Nothing sorts the list. *)
Theorem related_controls_deduplicated (control : Pdf.RawControl)
    (heading : Html.node) (following : list Html.node) (record : Control.t)
    (related : list str) :
  (Control.related_controls (Pdf.assemble control) = Some related ->
   related <> [] /\ NoDup related
   /\ (forall id, In id related -> Rx.isControlId id = true)
   /\ related
      = firstOccurrences
          (pdfNamed (match Control.supplemental_guidance (Pdf.assemble control) with
                     | Some guidance => guidance
                     | None => ""
                     end)
           ++ pdfNamed (match Pdf.parseSections control Pdf.RelatedControls with
                        | Some lines => Js.join " " lines
                        | None => ""
                        end)))
  /\ (Html.parseControl heading following = Some record ->
      Control.related_controls record = Some related ->
      related <> [] /\ NoDup related
      /\ (forall id, In id related -> Rx.isControlId id = true)
      /\ related
         = firstOccurrences
             (htmlNamed (match Control.supplemental_guidance record with
                         | Some guidance => guidance
                         | None => ""
                         end))).
Proof.
  assert (P : forall text, Pdf.extractRelatedControls text = firstOccurrences (pdfNamed text)).
  { intros text. unfold Pdf.extractRelatedControls, pdfNamed.
    destruct (Js.search Pdf.relatedControlsAt text); [apply dedupe_first | reflexivity]. }
  assert (Q : forall text, Html.extractRelatedControls text = firstOccurrences (htmlNamed text)).
  { intros text. unfold Html.extractRelatedControls, htmlNamed.
    destruct (Js.search Html.relatedControlsAt text); [apply dedupe_first | reflexivity]. }
  split.
  - unfold Pdf.assemble. cbv zeta.
    cbn [Control.related_controls Control.supplemental_guidance]. intros H.
    apply orUndefined_Some in H as [-> Hne].
    split; [assumption|]. split; [apply dedupe_NoDup|]. split.
    + intros id Hid. apply dedupe_In, in_app_iff in Hid as [Hid|Hid].
      * eapply pdf_related_canonical, Hid.
      * destruct (Pdf.parseSections control Pdf.RelatedControls); [|destruct Hid].
        eapply pdf_related_canonical, Hid.
    + rewrite dedupe_first, P.
      destruct (Pdf.parseSections control Pdf.RelatedControls) as [lines|].
      * rewrite P. apply firstOccurrences_parts.
      * change (pdfNamed "") with (@nil str).
        rewrite !app_nil_r. apply firstOccurrences_idem.
  - unfold Html.parseControl.
    destruct (Html.controlHeading _) as [[[fam num] name]|]; [|discriminate].
    intros [= <-]. cbn [Control.related_controls Control.supplemental_guidance]. intros H.
    apply orUndefined_Some in H as [-> Hne].
    split; [assumption|]. split; [apply html_related_NoDup|]. split.
    + intros id. apply html_related_canonical.
    + rewrite Q.
      match goal with
      | |- context [strOrUndefined ?g] => destruct g as [|c g'] eqn:G
      end; [|reflexivity].
      reflexivity.
Qed.

Lemma related_controls_deduplicated_witness :
  Control.related_controls (Pdf.assemble unsortedRaw) = Some ["AC-3"; "AC-2"]
  /\ (exists record, Html.parseControl unsortedHeading unsortedBlock = Some record
                     /\ Control.related_controls record = Some ["AC-3"; "AC-2"])
  /\ NoDup ["AC-3"; "AC-2"]
  /\ (forall id, In id ["AC-3"; "AC-2"] -> Rx.isControlId id = true)
  /\ ["AC-3"; "AC-2"]
     = firstOccurrences (pdfNamed "Related controls: AC-3, AC-2." ++ pdfNamed "").
Proof.
  assert (H1 : Control.related_controls (Pdf.assemble unsortedRaw) = Some ["AC-3"; "AC-2"])
    by reflexivity.
  assert (H2 : exists record,
             Html.parseControl unsortedHeading unsortedBlock = Some record
             /\ Control.related_controls record = Some ["AC-3"; "AC-2"])
    by (eexists; split; reflexivity).
  split; [exact H1|]. split; [exact H2|].
  destruct H2 as [record [H2 H3]].
  destruct (related_controls_deduplicated unsortedRaw unsortedHeading unsortedBlock
              record ["AC-3"; "AC-2"]) as [A B].
  split; [exact (proj1 (proj2 (A H1)))|].
  split; [exact (proj1 (proj2 (proj2 (B H2 H3)))) | exact (proj2 (proj2 (proj2 (A H1))))].
Defined.

(** C5 as stated fails: neither extractor sorts the list.  The ids stand
    in the order the guidance names them. *)
Lemma related_controls_not_sorted :
  Control.related_controls (Pdf.assemble unsortedRaw) = Some ["AC-3"; "AC-2"]
  /\ option_map Control.related_controls (Html.parseControl unsortedHeading unsortedBlock)
     = Some (Some ["AC-3"; "AC-2"])
  /\ sortedAscending ["AC-3"; "AC-2"] = false.
Proof. repeat split; reflexivity. Qed.

(** *** The label *)

Lemma pdf_label_needed (s group : str) :
  Pdf.relatedControlsAt s = Some group -> looseLabelAt s = true.
Proof.
  unfold Pdf.relatedControlsAt, looseLabelAt.
  destruct (Js.startsWith_ci s "related controls"); [|discriminate].
  destruct (Js.dropWhile Js.is_space (skipn 16 s)) as [|c s1]; [discriminate|].
  now destruct (Js.ceqb c ":"%char).
Qed.

Lemma pdf_search_label (text : str) :
  containsLooseLabel text = false -> Js.search Pdf.relatedControlsAt text = None.
Proof.
  induction text as [|c text IH]; intros H; [reflexivity|].
  cbn [containsLooseLabel] in H. apply orb_false_iff in H as [H1 H2].
  cbn [Js.search].
  destruct (Pdf.relatedControlsAt (c :: text)) eqn:E.
  - apply pdf_label_needed in E. congruence.
  - now apply IH.
Qed.

Lemma startsWith_ci_lower (p s : str) :
  Js.toLowerCase p = p ->
  Js.startsWith_ci s p = Js.startsWith (Js.toLowerCase s) p.
Proof.
  revert s. induction p as [|x p IH]; intros s Hp; [now destruct s|].
  injection Hp as Hx Hp.
  destruct s as [|y s]; simpl; [reflexivity|].
  unfold Js.ceqb_ci, Js.ceqb. rewrite Hx. now rewrite IH.
Qed.

Lemma html_label_needed (s group : str) :
  Html.relatedControlsAt s = Some group ->
  Js.startsWith (Js.toLowerCase s) "related controls:" = true.
Proof.
  unfold Html.relatedControlsAt.
  rewrite (startsWith_ci_lower "related controls:" s eq_refl).
  now destruct (Js.startsWith (Js.toLowerCase s) "related controls:").
Qed.

Lemma html_search_label (text : str) :
  containsLabel text = false -> Js.search Html.relatedControlsAt text = None.
Proof.
  unfold containsLabel.
  induction text as [|c text IH]; intros H.
  - reflexivity.
  - change (Js.toLowerCase (c :: text)) with (Js.lc c :: Js.toLowerCase text) in H.
    cbn [Js.includes] in H. apply orb_false_iff in H as [H1 H2].
    cbn [Js.search].
    destruct (Html.relatedControlsAt (c :: text)) eqn:E.
    + apply html_label_needed in E.
      change (Js.toLowerCase (c :: text)) with (Js.lc c :: Js.toLowerCase text) in E.
      congruence.
    + now apply IH.
Qed.


(** *** The clause *)

Lemma search_found {A} (m : str -> option A) (text : str) (v : A) :
  Js.search m text = Some v -> exists before s, text = before ++ s /\ m s = Some v.
Proof.
  induction text as [|c text IH]; cbn [Js.search].
  - destruct (m []) eqn:E; [|discriminate]. intros [= <-]. now exists [], [].
  - destruct (m (c :: text)) eqn:E.
    + intros [= <-]. now exists [], (c :: text).
    + intros H. destruct (IH H) as (before & s & -> & Hs). now exists (c :: before), s.
Qed.

Lemma takeWhile_dropWhile (f : ascii -> bool) (s : str) :
  s = Js.takeWhile f s ++ Js.dropWhile f s.
Proof.
  induction s as [|c s IH]; [reflexivity|]. cbn [Js.takeWhile Js.dropWhile].
  destruct (f c); [simpl; now rewrite <- IH | reflexivity].
Qed.

Lemma dropWhile_all (f : ascii -> bool) (s : str) :
  forallb f s = true -> Js.dropWhile f s = [].
Proof.
  induction s as [|c s IH]; [reflexivity|]. cbn [forallb Js.dropWhile].
  intros H. apply andb_true_iff in H as [H1 H2]. rewrite H1. now apply IH.
Qed.

Lemma firstn_of_run (f : ascii -> bool) (s : str) (j : nat) :
  j <= length (Js.takeWhile f s) -> forallb f (firstn j s) = true.
Proof.
  revert j. induction s as [|c s IH]; intros [|j]; cbn [Js.takeWhile]; try reflexivity.
  destruct (f c) eqn:E; cbn [length]; intros H; [|lia].
  cbn [firstn forallb]. rewrite E. apply IH. lia.
Qed.

Lemma forallb_removelast {A} (f : A -> bool) (l : list A) :
  forallb f l = true -> forallb f (removelast l) = true.
Proof.
  induction l as [|x l IH]; [reflexivity|]. cbn [forallb removelast].
  intros H. apply andb_true_iff in H as [H1 H2].
  destruct l; [reflexivity|]. cbn [forallb]. rewrite H1. now apply IH.
Qed.

(** The group of the PDF expression: the characters up to and with the
    first period, or up to the end. *)
Lemma clause_shape (u : str) :
  exists after,
    u = Pdf.clause u ++ after
    /\ forallb Pdf.notDot (removelast (Pdf.clause u)) = true
    /\ (after = [] \/ exists body, Pdf.clause u = body ++ ".").
Proof.
  unfold Pdf.clause. cbv zeta.
  pose proof (takeWhile_skipn Pdf.notDot u) as E.
  pose proof (takeWhile_sat Pdf.notDot u) as F.
  destruct (skipn (length (Js.takeWhile Pdf.notDot u)) u) as [|d r] eqn:S.
  - exists []. cbn [firstn]. rewrite !app_nil_r in *. split; [now symmetry|].
    split; [now apply forallb_removelast | now left].
  - exists r. cbn [firstn]. split; [now rewrite <- app_assoc|].
    rewrite removelast_last. split; [exact F|]. right.
    exists (Js.takeWhile Pdf.notDot u). f_equal.
    apply takeWhile_next in S. unfold Pdf.notDot in S.
    apply negb_false_iff, ceqb_eq in S. now subst d.
Qed.

Lemma pdf_clause_at (s group : str) :
  Pdf.relatedControlsAt s = Some group ->
  exists label after,
    s = label ++ group ++ after
    /\ pdfLabel label = true
    /\ forallb Pdf.notDot (removelast group) = true
    /\ (after = [] \/ exists body, group = body ++ ".").
Proof.
  unfold Pdf.relatedControlsAt.
  destruct (Js.startsWith_ci s "related controls") eqn:P; [|discriminate].
  pose proof (startsWith_ci_length _ _ P) as L. change (length "related controls") with 16 in L.
  pose proof (takeWhile_dropWhile Js.is_space (skipn 16 s)) as T.
  pose proof (takeWhile_sat Js.is_space (skipn 16 s)) as Tsp.
  destruct (Js.dropWhile Js.is_space (skipn 16 s)) as [|c s1]; [discriminate|].
  destruct (Js.ceqb c ":"%char) eqn:C; [|discriminate].
  apply ceqb_eq in C. subst c. cbv zeta.
  assert (Label : forall ws rest,
             s1 = ws ++ rest -> forallb Js.is_space ws = true ->
             s = (firstn 16 s ++ Js.takeWhile Js.is_space (skipn 16 s) ++ ":"%char :: ws) ++ rest
             /\ pdfLabel (firstn 16 s ++ Js.takeWhile Js.is_space (skipn 16 s)
                            ++ ":"%char :: ws) = true).
  { intros ws rest -> Hws. split.
    - rewrite <- (firstn_skipn 16 s) at 1. rewrite T at 1.
      now rewrite <- !app_assoc, <- app_comm_cons.
    - unfold pdfLabel. apply andb_true_iff. split.
      + apply (startsWith_ci_prefix "related controls" (firstn 16 s) (skipn 16 s)).
        * rewrite firstn_length_le by exact L. apply le_n.
        * now rewrite firstn_skipn.
      + rewrite skipn_app, firstn_length_le by exact L.
        rewrite (skipn_all2 (firstn 16 s)) by (rewrite firstn_length_le by exact L; lia).
        rewrite Nat.sub_diag, skipn_O, app_nil_l.
        rewrite dropWhile_app_stop by reflexivity.
        rewrite (dropWhile_all _ _ Tsp). cbn [app].
        now rewrite Hws. }
  pose proof (takeWhile_skipn Js.is_space s1) as W.
  pose proof (takeWhile_sat Js.is_space s1) as Wsp.
  remember (Js.takeWhile Js.is_space s1) as ws eqn:Ews.
  destruct (Js.takeWhile Pdf.notDot (skipn (length ws) s1)) as [|b body] eqn:B.
  - destruct ws as [|w ws']; [discriminate|]. intros G. injection G as <-.
    destruct (clause_shape (skipn (length (w :: ws') - 1) s1)) as (after & E1 & E2 & E3).
    destruct (Label (firstn (length (w :: ws') - 1) s1)
                (Pdf.clause (skipn (length (w :: ws') - 1) s1) ++ after)) as [E4 E5].
    + rewrite <- E1. now rewrite firstn_skipn.
    + apply firstn_of_run. rewrite <- Ews. simpl. lia.
    + exists (firstn 16 s ++ Js.takeWhile Js.is_space (skipn 16 s)
                ++ ":"%char :: firstn (length (w :: ws') - 1) s1), after.
      split; [exact E4|]. split; [exact E5|]. split; [exact E2 | exact E3].
  - intros G. injection G as <-.
    destruct (clause_shape (skipn (length ws) s1)) as (after & E1 & E2 & E3).
    destruct (Label ws (Pdf.clause (skipn (length ws) s1) ++ after)) as [E4 E5].
    + rewrite <- E1. now symmetry.
    + exact Wsp.
    + exists (firstn 16 s ++ Js.takeWhile Js.is_space (skipn 16 s) ++ ":"%char :: ws), after.
      split; [exact E4|]. split; [exact E5|]. split; [exact E2 | exact E3].
Qed.

(** The group of the HTML expression: at least one character, no period
    behind the first, a period behind the group. *)
Lemma lazyToDot_shape (u group : str) :
  Html.lazyToDot u = Some group ->
  exists after,
    u = group ++ "." ++ after /\ group <> []
    /\ forallb Pdf.notDot (skipn 1 group) = true.
Proof.
  revert group. induction u as [|c u IH]; intros group; cbn [Html.lazyToDot]; [discriminate|].
  destruct (Js.is_newline c); [discriminate|].
  destruct u as [|d u']; [discriminate|].
  destruct (Js.ceqb d "."%char) eqn:D.
  - apply ceqb_eq in D. subst d. intros [= <-]. exists u'.
    split; [reflexivity|]. split; [discriminate | reflexivity].
  - destruct (Html.lazyToDot (d :: u')) as [g|] eqn:G; [|discriminate].
    cbn [option_map]. intros [= <-].
    destruct (IH g eq_refl) as (after & E & Hne & F).
    exists after. split; [cbn [app]; now rewrite E|]. split; [discriminate|].
    cbn [skipn]. destruct g as [|g0 g']; [now elim Hne|].
    injection E as <- _. cbn [forallb skipn] in *.
    unfold Pdf.notDot at 1. now rewrite D.
Qed.

Lemma lazyToDot_from_shape (j : nat) (u group : str) :
  Html.lazyToDot_from j u = Some group ->
  exists k, k <= j /\ Html.lazyToDot (skipn k u) = Some group.
Proof.
  induction j as [|j IH]; cbn [Html.lazyToDot_from].
  - destruct (Html.lazyToDot (skipn 0 u)) eqn:E; [|discriminate].
    intros [= <-]. now exists 0.
  - destruct (Html.lazyToDot (skipn (S j) u)) eqn:E.
    + intros [= <-]. now exists (S j).
    + intros H. destruct (IH H) as (k & Hk & Hg). exists k. split; [lia | exact Hg].
Qed.

Lemma html_clause_at (s group : str) :
  Html.relatedControlsAt s = Some group ->
  exists label after,
    s = label ++ group ++ "." ++ after
    /\ htmlLabel label = true
    /\ group <> []
    /\ forallb Pdf.notDot (skipn 1 group) = true.
Proof.
  unfold Html.relatedControlsAt.
  destruct (Js.startsWith_ci s "related controls:") eqn:P; [|discriminate].
  pose proof (startsWith_ci_length _ _ P) as L. change (length "related controls:") with 17 in L.
  cbv zeta. intros H.
  apply lazyToDot_from_shape in H as (k & Hk & H).
  apply lazyToDot_shape in H as (after & E & Hne & F).
  exists (firstn 17 s ++ firstn k (skipn 17 s)), after. repeat split; try assumption.
  - rewrite <- app_assoc, <- E, firstn_skipn. now rewrite firstn_skipn.
  - unfold htmlLabel. apply andb_true_iff. split.
    + apply (startsWith_ci_prefix "related controls:" (firstn 17 s) (skipn 17 s)).
      * rewrite firstn_length_le by exact L. apply le_n.
      * now rewrite firstn_skipn.
    + rewrite skipn_app, firstn_length_le by exact L.
      rewrite (skipn_all2 (firstn 17 s)) by (rewrite firstn_length_le by exact L; lia).
      rewrite Nat.sub_diag, skipn_O, app_nil_l.
      now apply firstn_of_run.
Qed.

(** C7, as the code has it.  On the sample sentence both resolvers give
    AC-2, AC-3, AC-6, each once.  The HTML resolver gives nothing for a
    text without the label "Related controls:"; the PDF resolver gives
    nothing for a text without "related controls" followed, after
    optional white space, by a colon.  Letter case does not matter.
    What a resolver gives, it takes from one clause that stands behind
    such a label: for the HTML resolver the clause ends before a period
    and holds none behind its first character, for the PDF resolver it
    ends with the first period or with the text.  The ids are those
    named in this clause, in the order of their first mention; ids that
    stand elsewhere in the text are not collected. *)
Theorem related_controls_need_label (text : str) :
  Pdf.extractRelatedControls "Related controls: AC-2, AC-3, AC-2, AC-6."
  = ["AC-2"; "AC-3"; "AC-6"]
  /\ Html.extractRelatedControls "Related controls: AC-2, AC-3, AC-2, AC-6."
     = ["AC-2"; "AC-3"; "AC-6"]
  /\ (containsLabel text = false -> Html.extractRelatedControls text = [])
  /\ (containsLooseLabel text = false -> Pdf.extractRelatedControls text = [])
  /\ (Html.extractRelatedControls text = []
      \/ exists before label clause after,
           text = before ++ label ++ clause ++ "." ++ after
           /\ htmlLabel label = true
           /\ clause <> []
           /\ forallb Pdf.notDot (skipn 1 clause) = true
           /\ Html.extractRelatedControls text
              = firstOccurrences (Js.matchAll (Rx.controlIdAt false) clause))
  /\ (Pdf.extractRelatedControls text = []
      \/ exists before label clause after,
           text = before ++ label ++ clause ++ after
           /\ pdfLabel label = true
           /\ forallb Pdf.notDot (removelast clause) = true
           /\ (after = [] \/ exists body, clause = body ++ ".")
           /\ Pdf.extractRelatedControls text
              = firstOccurrences (Js.matchAll (Rx.controlIdAt true) clause))
  /\ Html.extractRelatedControls idsAround = ["AC-3"; "AC-2"]
  /\ Pdf.extractRelatedControls idsAround = ["AC-3"; "AC-2"].
Proof.
  split; [reflexivity|]. split; [reflexivity|].
  split; [|split; [|split; [|split; [|split; reflexivity]]]].
  - intros H. unfold Html.extractRelatedControls. now rewrite html_search_label.
  - intros H. unfold Pdf.extractRelatedControls. now rewrite pdf_search_label.
  - unfold Html.extractRelatedControls.
    destruct (Js.search Html.relatedControlsAt text) as [clause|] eqn:S; [|now left].
    right. apply search_found in S as (before & s & -> & S).
    apply html_clause_at in S as (label & after & -> & A & N & B).
    exists before, label, clause, after.
    repeat split; try assumption. apply dedupe_first.
  - unfold Pdf.extractRelatedControls.
    destruct (Js.search Pdf.relatedControlsAt text) as [clause|] eqn:S; [|now left].
    right. apply search_found in S as (before & s & -> & S).
    apply pdf_clause_at in S as (label & after & -> & A & B & C).
    exists before, label, clause, after.
    repeat split; try assumption. apply dedupe_first.
Qed.

Lemma related_controls_need_label_witness :
  containsLabel "Access to AC-2 and AC-3 accounts is reviewed." = false
  /\ containsLooseLabel "Access to AC-2 and AC-3 accounts is reviewed." = false
  /\ Html.extractRelatedControls "Access to AC-2 and AC-3 accounts is reviewed." = []
  /\ Pdf.extractRelatedControls "Access to AC-2 and AC-3 accounts is reviewed." = [].
Proof.
  destruct (related_controls_need_label "Access to AC-2 and AC-3 accounts is reviewed.")
    as [_ [_ [A [B _]]]].
  split; [reflexivity|]. split; [reflexivity|].
  split; [exact (A eq_refl) | exact (B eq_refl)].
Defined.

(** C7 as stated fails for the PDF resolver: its expression lets white
    space stand before the colon, so a text without the label
    "Related controls:" can still yield ids. *)
Lemma pdf_label_with_space_yields_ids :
  containsLabel "Related controls : AC-2." = false
  /\ Pdf.extractRelatedControls "Related controls : AC-2." = ["AC-2"].
Proof. split; reflexivity. Qed.

(** ** The assignment placeholder scan *)

(** The pattern, tried where the placeholder stands, matches it and
    nothing more. *)
Lemma assignmentAt_placeholder (prev : option ascii) (post : str) :
  Assignments.assignmentAt prev (frequencyPlaceholder ++ post)
  = Some (frequencyPlaceholder, 44).
Proof. reflexivity. Qed.

(** An opener cannot begin before an opening bracket and reach across
    it. *)
Lemma startsWith_ci_before_bracket (p a b : str) :
  forallb (fun x => negb (Js.ceqb_ci x "["%char)) p = true ->
  Js.startsWith_ci (a ++ "["%char :: b) p = true ->
  Js.startsWith_ci a p = true.
Proof.
  revert a. induction p as [|x p IH]; intros a Hp H; [now destruct a|].
  simpl in Hp. apply andb_true_iff in Hp as [Hx Hp].
  destruct a as [|y a]; simpl in *.
  - rewrite (proj1 (negb_true_iff _) Hx) in H. discriminate.
  - apply andb_true_iff in H as [H1 H2]. rewrite H1. simpl. now apply IH.
Qed.

Lemma opener_in_prefix (c : ascii) (pre rest : str) :
  Js.startsWith_ci (c :: pre ++ "["%char :: rest) "[assignment:" = true ->
  Js.startsWith_ci (c :: pre) "[assignment:" = true.
Proof.
  change (Js.startsWith_ci (c :: pre ++ "["%char :: rest) "[assignment:")
    with (Js.ceqb_ci "["%char c
          && Js.startsWith_ci (pre ++ "["%char :: rest) "assignment:").
  change (Js.startsWith_ci (c :: pre) "[assignment:")
    with (Js.ceqb_ci "["%char c && Js.startsWith_ci pre "assignment:").
  intros H. apply andb_true_iff in H as [H1 H2]. rewrite H1. simpl.
  eapply startsWith_ci_before_bracket; [reflexivity | exact H2].
Qed.


Lemma takeWhile_stops (f : ascii -> bool) (u v : str) :
  forallb f u = false ->
  Js.takeWhile f (u ++ v) = Js.takeWhile f u
  /\ length (Js.takeWhile f u) < length u.
Proof.
  induction u as [|c u IH]; simpl; [discriminate|].
  destruct (f c); simpl; intros H.
  - destruct (IH H) as [E L]. rewrite E. split; [reflexivity | lia].
  - split; [reflexivity | lia].
Qed.

(** A match that begins in a prefix without unclosed opener ends in it. *)
Lemma match_ends_in_prefix (prev : option ascii) (c : ascii) (pre rest v : str)
    (len : nat) :
  (Js.startsWith_ci (c :: pre) "[assignment:"
   && forallb Assignments.notClose (skipn 12 (c :: pre))) = false ->
  Assignments.assignmentAt prev (c :: pre ++ "["%char :: rest) = Some (v, len) ->
  len <= S (length pre).
Proof.
  intros Hclosed. unfold Assignments.assignmentAt.
  destruct (Js.startsWith_ci (c :: pre ++ "["%char :: rest) "[assignment:") eqn:E;
    [|discriminate].
  apply opener_in_prefix in E. rewrite E, andb_true_l in Hclosed.
  pose proof (startsWith_ci_length _ _ E) as L.
  change (length (c :: pre)) with (S (length pre)) in L.
  change (length "[assignment:") with 12 in L.
  change (c :: pre ++ "["%char :: rest) with ((c :: pre) ++ "["%char :: rest).
  rewrite skipn_app.
  destruct (takeWhile_stops Assignments.notClose (skipn 12 (c :: pre))
              (skipn (12 - length (c :: pre)) ("["%char :: rest)) Hclosed) as [T1 T2].
  rewrite T1. rewrite length_skipn in T2.
  change (length (c :: pre)) with (S (length pre)) in T2.
  set (inner := Js.takeWhile Assignments.notClose (skipn 12 (c :: pre))) in *.
  destruct inner as [|i inner]; [discriminate|].
  match goal with
  | |- match ?x with _ => _ end = _ -> _ => destruct x; [discriminate|]
  end.
  intros H. injection H as _ <-. cbn [length] in *. lia.
Qed.

Lemma unclosedOpener_cons (c : ascii) (pre : str) :
  unclosedOpener (c :: pre) = false ->
  (Js.startsWith_ci (c :: pre) "[assignment:"
   && forallb Assignments.notClose (skipn 12 (c :: pre))) = false
  /\ unclosedOpener pre = false.
Proof.
  intros H. change (unclosedOpener (c :: pre))
    with ((Js.startsWith_ci (c :: pre) "[assignment:"
           && forallb Assignments.notClose (skipn 12 (c :: pre)))
          || unclosedOpener pre) in H.
  now apply orb_false_iff in H.
Qed.

(** The scan reaches the placeholder and returns it. *)
Lemma scan_cons {A} (m : option ascii -> str -> option (A * nat)) (prev : option ascii)
    (c : ascii) (s : str) (skip : nat) :
  Js.scan m prev (c :: s) skip
  = match skip with
    | S k => Js.scan m (Some c) s k
    | O =>
        match m prev (c :: s) with
        | Some (v, len) => v :: Js.scan m (Some c) s (len - 1)
        | None => Js.scan m (Some c) s 0
        end
    end.
Proof. reflexivity. Qed.

Lemma placeholder_bracket (post : str) :
  frequencyPlaceholder ++ post = "["%char :: (skipn 1 frequencyPlaceholder ++ post).
Proof. reflexivity. Qed.

Lemma scan_finds_placeholder (post pre : str) :
  unclosedOpener pre = false ->
  forall prev skip, skip <= length pre ->
    In frequencyPlaceholder
       (Js.scan Assignments.assignmentAt prev (pre ++ frequencyPlaceholder ++ post) skip).
Proof.
  induction pre as [|c pre IH]; intros Hpre prev skip Hskip.
  - assert (skip = 0) as -> by (simpl in Hskip; lia).
    rewrite app_nil_l, placeholder_bracket, scan_cons.
    rewrite <- placeholder_bracket, assignmentAt_placeholder. now left.
  - apply unclosedOpener_cons in Hpre as [Hhere Hpre].
    rewrite <- app_comm_cons, scan_cons. destruct skip as [|k].
    + destruct (Assignments.assignmentAt prev (c :: pre ++ frequencyPlaceholder ++ post))
        as [[v len]|] eqn:E.
      * right. apply IH; [assumption|].
        rewrite placeholder_bracket in E.
        apply (match_ends_in_prefix prev c pre _ v len Hhere) in E.
        lia.
      * apply IH; [assumption | lia].
    + apply IH; [assumption | simpl in Hskip; lia].
Qed.

(** An opener left unclosed before the placeholder swallows it: the
    match runs from the opener to the bracket that closes the
    placeholder. *)

Lemma takeWhile_placeholder (post : str) :
  Js.takeWhile Assignments.notClose (frequencyPlaceholder ++ post) = frequencyInner.
Proof. reflexivity. Qed.


Lemma match_swallows_placeholder (prev : option ascii) (c : ascii) (pre post v : str)
    (len : nat) :
  forallb Assignments.notClose (skipn 12 (c :: pre)) = true ->
  Assignments.assignmentAt prev ((c :: pre) ++ frequencyPlaceholder ++ post)
  = Some (v, len) ->
  v = (c :: pre) ++ frequencyPlaceholder.
Proof.
  intros Hopen. unfold Assignments.assignmentAt.
  destruct (Js.startsWith_ci _ "[assignment:") eqn:E; [|discriminate].
  rewrite <- app_comm_cons, placeholder_bracket in E.
  apply opener_in_prefix in E.
  pose proof (startsWith_ci_length _ _ E) as L.
  change (length "[assignment:") with 12 in L.
  rewrite skipn_app.
  replace (12 - length (c :: pre)) with 0 by lia.
  change (skipn 0 (frequencyPlaceholder ++ post)) with (frequencyPlaceholder ++ post).
  rewrite takeWhile_all, takeWhile_placeholder by assumption.
  rewrite length_app, length_skipn.
  change (length frequencyInner) with 43.
  replace (12 + (length (c :: pre) - 12 + 43) + 1) with (length (c :: pre) + 44) by lia.
  rewrite firstn_past.
  change (firstn 44 (frequencyPlaceholder ++ post)) with frequencyPlaceholder.
  destruct (skipn 12 (c :: pre) ++ frequencyInner); [discriminate|].
  match goal with
  | |- match ?s with _ => _ end = _ -> _ => destruct s; [discriminate|]
  end.
  intros H. now injection H as <- _.
Qed.

(** Wherever the placeholder stands, the scan returns a match that ends
    with it. *)
Lemma scan_finds_match (post pre : str) :
  forall prev skip, skip <= length pre ->
    exists x,
      In (x ++ frequencyPlaceholder)
         (Js.scan Assignments.assignmentAt prev (pre ++ frequencyPlaceholder ++ post) skip).
Proof.
  induction pre as [|c pre IH]; intros prev skip Hskip.
  - exists []. apply (scan_finds_placeholder post []); [reflexivity | exact Hskip].
  - rewrite <- app_comm_cons, scan_cons. destruct skip as [|k].
    + destruct (Assignments.assignmentAt prev (c :: pre ++ frequencyPlaceholder ++ post))
        as [[v len]|] eqn:E.
      * destruct (Js.startsWith_ci (c :: pre) "[assignment:"
                  && forallb Assignments.notClose (skipn 12 (c :: pre))) eqn:Hhere.
        -- apply andb_true_iff in Hhere as [_ Hopen].
           rewrite app_comm_cons in E.
           apply (match_swallows_placeholder prev c pre post v len Hopen) in E.
           exists (c :: pre). left. exact E.
        -- rewrite placeholder_bracket in E.
           apply (match_ends_in_prefix prev c pre _ v len Hhere) in E.
           destruct (IH (Some c) (len - 1)) as [x Hx]; [lia|].
           exists x. now right.
      * destruct (IH (Some c) 0) as [x Hx]; [lia|]. now exists x.
    + destruct (IH (Some c) k) as [x Hx]; [simpl in Hskip; lia|]. now exists x.
Qed.

(** Normalizing such a match keeps the placeholder at its end. *)
Lemma collapse_before_placeholder (x : str) (inRun : bool) :
  Js.collapse_ws (x ++ frequencyPlaceholder) inRun
  = Js.collapse_ws x inRun ++ frequencyPlaceholder.
Proof.
  revert inRun. induction x as [|c x IH]; intros inRun.
  - now destruct inRun.
  - rewrite <- app_comm_cons. cbn [Js.collapse_ws].
    rewrite !IH. destruct (Js.is_space c); [destruct inRun|]; reflexivity.
Qed.


Lemma trim_keeps_tail (w : str) (c : ascii) (v : str) (d : ascii) (r : str) :
  Js.is_space c = false -> rev (c :: v) = d :: r -> Js.is_space d = false ->
  Js.trim (w ++ c :: v) = Js.dropWhile Js.is_space w ++ c :: v.
Proof.
  intros Hc Hrev Hd. unfold Js.trim, Js.trimStart, Js.trimEnd.
  rewrite dropWhile_app_stop by assumption.
  rewrite rev_app_distr, Hrev. cbn [app Js.dropWhile]. rewrite Hd.
  change (d :: r ++ rev (Js.dropWhile Js.is_space w))
    with ((d :: r) ++ rev (Js.dropWhile Js.is_space w)).
  rewrite <- Hrev, <- rev_app_distr. apply rev_involutive.
Qed.

Lemma normalize_keeps_placeholder (x : str) :
  exists x', Assignments.normalizeAssignment (x ++ frequencyPlaceholder)
             = x' ++ frequencyPlaceholder.
Proof.
  unfold Assignments.normalizeAssignment, Assignments.normalizeSpaces, Js.collapseSpaces.
  rewrite collapse_before_placeholder.
  eexists.
  apply (trim_keeps_tail _ "["%char (skipn 1 frequencyPlaceholder)
           "]"%char (rev frequencyInner)); reflexivity.
Qed.

(** Stripping brackets and labels keeps the words of the placeholder at
    the end of the topic. *)
Lemma stripOpen_keeps (x : str) :
  x <> [] ->
  exists w, Assignments.stripOpen (x ++ frequencyPlaceholder) = w ++ frequencyPlaceholder.
Proof.
  destruct x as [|b x]; [congruence|]. intros _. rewrite <- app_comm_cons.
  cbn [Assignments.stripOpen]. destruct (Js.ceqb b "["%char).
  - now exists x.
  - now exists (b :: x).
Qed.

Lemma stripClose_placeholder (w : str) :
  Assignments.stripClose (w ++ frequencyPlaceholder) = w ++ frequencyInner.
Proof.
  unfold Assignments.stripClose.
  change frequencyPlaceholder with (frequencyInner ++ "]").
  rewrite app_assoc, rev_unit. cbn [Js.ceqb]. change (Js.ceqb "]" "]")%char with true.
  cbn iota. apply rev_involutive.
Qed.

Lemma stripLabel_keeps (label w : str) :
  forallb (fun x => negb (Js.ceqb_ci x "["%char)) label = true ->
  exists w', Assignments.stripLabel label (w ++ frequencyInner) = w' ++ frequencyInner.
Proof.
  intros Hlabel. unfold Assignments.stripLabel.
  destruct (Js.startsWith_ci (w ++ frequencyInner) label) eqn:E; [|now exists w].
  change frequencyInner with ("["%char :: skipn 1 frequencyInner) in *.
  apply (startsWith_ci_before_bracket label w _ Hlabel) in E.
  apply startsWith_ci_length in E.
  rewrite skipn_app. replace (length label - length w) with 0 by lia.
  cbn [skipn]. rewrite dropWhile_app_stop by reflexivity. now eexists.
Qed.

Lemma trim_keeps_inner (w : str) :
  exists w', Js.trim (w ++ frequencyInner) = w' ++ frequencyInner.
Proof.
  eexists.
  apply (trim_keeps_tail _ "["%char (skipn 1 frequencyInner)
           "y"%char (skipn 1 (rev frequencyInner))); reflexivity.
Qed.

Lemma includes_app_r (a b w : str) :
  Js.includes b w = true -> Js.includes (a ++ b) w = true.
Proof.
  intros H. induction a as [|c a IH]; [exact H|].
  rewrite <- app_comm_cons. cbn [Js.includes]. rewrite IH. apply orb_true_r.
Qed.

Lemma topic_keeps_frequency (x : str) :
  Assignments.categorizeTopic
    (Assignments.parseAssignmentTopic (x ++ frequencyPlaceholder)) = "cadence".
Proof.
  destruct x as [|b x]; [reflexivity|].
  unfold Assignments.parseAssignmentTopic.
  destruct (stripOpen_keeps (b :: x)) as [w1 ->]; [discriminate|].
  rewrite stripClose_placeholder.
  destruct (stripLabel_keeps "assignment:" w1 eq_refl) as [w2 ->].
  destruct (trim_keeps_inner w2) as [w3 ->].
  destruct (stripLabel_keeps "organization-defined" w3 eq_refl) as [w4 ->].
  destruct (trim_keeps_inner w4) as [w5 ->].
  unfold Assignments.categorizeTopic.
  replace (Js.includes (Js.toLowerCase (w5 ++ frequencyInner)) "frequency") with true;
    [reflexivity|].
  symmetry. unfold Js.toLowerCase. rewrite map_app. now apply includes_app_r.
Qed.

(** Every placeholder matched in a string field of the scope has an
    entry, under its normalized text. *)
Lemma record_keys (map : Js.Map Assignments.Stats) (path raw k : str) :
  In k (Js.keys (Assignments.record map path raw))
  <-> k = Assignments.normalizeAssignment raw \/ In k (Js.keys map).
Proof. unfold Assignments.record. apply keys_set. Qed.

Lemma records_keys (path : str) (raws : list str) (map : Js.Map Assignments.Stats)
    (k : str) :
  In k (Js.keys (fold_left (fun m raw => Assignments.record m path raw) raws map))
  <-> In k (List.map Assignments.normalizeAssignment raws) \/ In k (Js.keys map).
Proof.
  revert map. induction raws as [|raw raws IH]; intros map; simpl; [tauto|].
  rewrite IH, record_keys. intuition.
Qed.

Lemma collect_keys (fields : list (str * str)) (map : Js.Map Assignments.Stats)
    (k : str) :
  In k (Js.keys (fold_left Assignments.onString fields map))
  <-> (exists field raw, In field fields
         /\ In raw (Js.matchAll Assignments.assignmentAt (snd field))
         /\ k = Assignments.normalizeAssignment raw)
      \/ In k (Js.keys map).
Proof.
  revert map. induction fields as [|f fields IH]; intros map; simpl.
  - split; [now right | intros [[? [? [[] _]]]|H]; exact H].
  - rewrite IH.
    change (Assignments.onString map f)
      with (fold_left (fun m raw => Assignments.record m (fst f) raw)
              (Js.matchAll Assignments.assignmentAt (snd f)) map).
    rewrite records_keys, in_map_iff.
    split.
    + intros [[field [raw [H1 [H2 H3]]]]|[[raw [H1 H2]]|H]].
      * left. exists field, raw. tauto.
      * left. exists f, raw. split; [now left | now split].
      * now right.
    + intros [[field [raw [[<-|H1] [H2 H3]]]]|H].
      * right. left. now exists raw.
      * left. exists field, raw. tauto.
      * right. now right.
Qed.

(** C9, as the code has it.  A string field of the scope in which the
    placeholder stands gives a row for a placeholder that ends with it,
    of category "cadence"; with no opener left unclosed before it, the
    row is for this very placeholder and its topic is "frequency". *)
Theorem frequency_placeholder_row (scope : json) (path pre post : str)
    (control_id enhancement_id : option json)
    (Hfield : In (path, pre ++ frequencyPlaceholder ++ post) (Assignments.walk scope "")) :
  (exists row x,
      In row (Assignments.rowsOf control_id enhancement_id scope)
      /\ Assignments.assignment_placeholder row = x ++ frequencyPlaceholder
      /\ Assignments.category row = "cadence")
  /\ (unclosedOpener pre = false ->
      exists row,
        In row (Assignments.rowsOf control_id enhancement_id scope)
        /\ Assignments.assignment_placeholder row = frequencyPlaceholder
        /\ Assignments.assignment_topic row = "frequency"
        /\ Assignments.category row = "cadence").
Proof.
  assert (R : forall raw,
             In raw (Js.matchAll Assignments.assignmentAt
                       (pre ++ frequencyPlaceholder ++ post)) ->
             exists row,
               In row (Assignments.rowsOf control_id enhancement_id scope)
               /\ Assignments.assignment_placeholder row
                  = Assignments.normalizeAssignment raw
               /\ Assignments.assignment_topic row
                  = Assignments.parseAssignmentTopic (Assignments.normalizeAssignment raw)
               /\ Assignments.category row
                  = Assignments.categorizeTopic
                      (Assignments.parseAssignmentTopic
                         (Assignments.normalizeAssignment raw))).
  { intros raw Hraw.
    assert (K : In (Assignments.normalizeAssignment raw)
                  (Js.keys (Assignments.collectAssignmentsInScope scope))).
    { unfold Assignments.collectAssignmentsInScope. apply collect_keys. left.
      exists (path, pre ++ frequencyPlaceholder ++ post), raw. now repeat split. }
    unfold Js.keys in K. apply in_map_iff in K as [[k st] [E Hin]]. simpl in E. subst k.
    eexists. split.
    - unfold Assignments.rowsOf. apply in_map_iff. eexists.
      split; [reflexivity | exact Hin].
    - split; [reflexivity | split; reflexivity]. }
  split.
  - destruct (scan_finds_match post pre None 0) as [x Hx]; [lia|].
    destruct (R _ Hx) as [row [R1 [R2 [_ R4]]]].
    destruct (normalize_keeps_placeholder x) as [x' Hn].
    exists row, x'. split; [exact R1|]. split; [now rewrite R2|].
    now rewrite R4, Hn, topic_keeps_frequency.
  - intros Hclosed.
    destruct (R frequencyPlaceholder) as [row [R1 [R2 [R3 R4]]]].
    { apply scan_finds_placeholder; [exact Hclosed | lia]. }
    exists row. now repeat split.
Qed.

Lemma frequency_placeholder_row_witness :
  In ("statement", "Accounts are reviewed [Assignment: organization-defined frequency].")
     (Assignments.walk
        (JObj [("control_id", JStr "AC-2");
               ("statement",
                JStr "Accounts are reviewed [Assignment: organization-defined frequency].")])
        "")
  /\ unclosedOpener "Accounts are reviewed " = false
  /\ exists row,
       In row (Assignments.rowsOf (Some (JStr "AC-2")) None
                 (JObj [("control_id", JStr "AC-2");
                        ("statement",
                         JStr "Accounts are reviewed [Assignment: organization-defined frequency].")]))
       /\ Assignments.assignment_topic row = "frequency"
       /\ Assignments.category row = "cadence".
Proof.
  assert (H1 : In ("statement",
                   "Accounts are reviewed " ++ frequencyPlaceholder ++ ".")
                 (Assignments.walk
                    (JObj [("control_id", JStr "AC-2");
                           ("statement",
                            JStr "Accounts are reviewed [Assignment: organization-defined frequency].")])
                    "")) by (right; left; reflexivity).
  split; [exact H1|]. split; [reflexivity|].
  destruct (frequency_placeholder_row _ _ _ _ (Some (JStr "AC-2")) None H1)
    as [_ B].
  destruct (B eq_refl) as [row [R1 [_ [R3 R4]]]].
  exists row. split; [exact R1 | split; [exact R3 | exact R4]].
Defined.

(** C9 as stated fails: a field can hold the placeholder and yet give no
    row with the topic "frequency", when an earlier opener swallows it. *)
Lemma nested_placeholder_topic :
  Js.includes nestedField frequencyPlaceholder = true
  /\ map (fun row => (Assignments.assignment_topic row, Assignments.category row))
       (Assignments.rowsOf None None (JStr nestedField))
     = [("[Assignment: organization-defined frequency", "cadence")].
Proof. split; reflexivity. Qed.

(** * Further properties of the code *)

(** ** Ids, tokens and scores ([rag.ts]) *)

Lemma rag_digits (k : nat) (ds : str) :
  Rag.digits_then_boundary k ds = true ->
  length (firstn k ds) = k /\ forallb Js.is_digit (firstn k ds) = true.
Proof.
  unfold Rag.digits_then_boundary. intros H.
  apply andb_true_iff in H as [H _]. apply andb_true_iff in H as [H1 H2].
  now apply Nat.eqb_eq in H1.
Qed.

Lemma rag_controlIdAt_canonical (prev : option ascii) (s id : str) (len : nat) :
  Rag.controlIdAt prev s = Some (id, len) -> Rx.isControlId id = true.
Proof.
  unfold Rag.controlIdAt.
  destruct s as [|a [|b [|h ds]]]; try discriminate.
  destruct (_ && _ && _ && _) eqn:E; [|discriminate].
  apply andb_true_iff in E as [E Eh]. apply andb_true_iff in E as [E Eb].
  apply andb_true_iff in E as [_ Ea].
  assert (G : forall k, 1 <= k <= 3 -> Rag.digits_then_boundary k ds = true ->
              Rx.isControlId (a :: b :: h :: firstn k ds) = true).
  { intros k Hk D. apply rag_digits in D as [D1 D2].
    unfold Rx.isControlId. rewrite Ea, Eb, Eh, D2.
    rewrite (proj2 (Nat.leb_le 1 _)), (proj2 (Nat.leb_le _ 3)) by lia. reflexivity. }
  destruct (Rag.digits_then_boundary 3 ds) eqn:D3.
  { intros [= <- _]. apply (G 3); [lia | assumption]. }
  destruct (Rag.digits_then_boundary 2 ds) eqn:D2.
  { intros [= <- _]. apply (G 2); [lia | assumption]. }
  destruct (Rag.digits_then_boundary 1 ds) eqn:D1; [|discriminate].
  intros [= <- _]. apply (G 1); [lia | assumption].
Qed.

(** X1.  The ids [extractControlIds] finds in a text are pairwise
    different and each has the form of a control id, two capital letters,
    a hyphen and one to three digits, whatever the case of the text. *)
Theorem extractControlIds_canonical (text : str) :
  NoDup (Rag.extractControlIds text)
  /\ forall id, In id (Rag.extractControlIds text) -> Rx.isControlId id = true.
Proof.
  unfold Rag.extractControlIds. split; [apply dedupe_NoDup|].
  intros id H. apply (proj1 (dedupe_In _ _)) in H. unfold Js.matchAll in H.
  apply scan_In in H as [prev [s [len H]]]. eapply rag_controlIdAt_canonical, H.
Qed.

Lemma forallb_rev {A} (f : A -> bool) (l : list A) : forallb f (rev l) = forallb f l.
Proof.
  induction l as [|x l IH]; simpl; [reflexivity|].
  rewrite forallb_app, IH. simpl. rewrite andb_true_r. apply andb_comm.
Qed.

Lemma runs_tokens (keep : ascii -> bool) (s cur t : str) :
  forallb keep cur = true -> In t (Js.runs keep s cur) ->
  t <> [] /\ forallb keep t = true.
Proof.
  revert cur. induction s as [|c s IH]; intros cur Hcur H; simpl in H.
  - destruct cur as [|x cur]; [destruct H|]. destruct H as [<-|[]].
    split; [|now rewrite forallb_rev].
    intros E. apply (f_equal (@length _)) in E. rewrite length_rev in E. discriminate.
  - destruct (keep c) eqn:K.
    + apply (IH (c :: cur)); [simpl; now rewrite K | assumption].
    + destruct cur as [|x cur]; [now apply (IH [])|].
      destruct H as [<-|H]; [|now apply (IH [])].
      split; [|now rewrite forallb_rev].
      intros E. apply (f_equal (@length _)) in E. rewrite length_rev in E. discriminate.
Qed.

Lemma lc_uc (c : ascii) : Js.lc (Js.uc c) = Js.lc c.
Proof. destruct c as [[] [] [] [] [] [] [] []]; reflexivity. Qed.

Lemma toLowerCase_toUpperCase (s : str) :
  Js.toLowerCase (Js.toUpperCase s) = Js.toLowerCase s.
Proof.
  unfold Js.toLowerCase, Js.toUpperCase. rewrite map_map. apply map_ext, lc_uc.
Qed.

(** X2.  A token is never empty and holds lower-case letters and digits
    only; upper-casing an ASCII text does not change its tokens. *)
Theorem tokenize_tokens (text : str) :
  (forall token, In token (Rag.tokenize text) ->
     token <> [] /\ forallb Rag.is_token_char token = true)
  /\ (isAscii text = true -> Rag.tokenize (Js.toUpperCase text) = Rag.tokenize text).
Proof.
  split.
  - intros token H. now apply (runs_tokens _ _ [] token eq_refl) in H.
  - intros _. unfold Rag.tokenize. now rewrite toLowerCase_toUpperCase.
Qed.

Lemma tokenize_tokens_witness :
  isAscii "Is AC-2 about Accounts?" = true
  /\ Rag.tokenize (Js.toUpperCase "Is AC-2 about Accounts?")
     = ["is"; "ac"; "2"; "about"; "accounts"].
Proof.
  split; [reflexivity|].
  rewrite (proj2 (tokenize_tokens "Is AC-2 about Accounts?") eq_refl). reflexivity.
Defined.

(** Scores are sums of 3s and 1s. *)
Lemma count_tokens_nonneg (tokens l : list str) (acc : Z) :
  (acc <= fold_left (fun acc token => if Js.mem token tokens then acc + 1 else acc) l acc)%Z.
Proof.
  revert acc. induction l as [|t l IH]; intros acc; simpl; [lia|].
  destruct (Js.mem t tokens); [specialize (IH (acc + 1)%Z) | specialize (IH acc)]; lia.
Qed.

Lemma scoreTerm_bounds (haystack : str) (tokens : list str) (term : str) :
  (0 <= Rag.scoreTerm haystack tokens term)%Z
  /\ (Js.nonEmpty term = true ->
      Js.includes haystack (Js.toLowerCase term) = true ->
      3 <= Rag.scoreTerm haystack tokens term)%Z.
Proof.
  unfold Rag.scoreTerm.
  pose proof (count_tokens_nonneg tokens (Rag.tokenize (Js.toLowerCase term)) 0) as H.
  split.
  - destruct (_ && _); lia.
  - intros Hne Hin. rewrite Hin.
    replace (Js.nonEmpty (Js.toLowerCase term)) with true by (now destruct term).
    simpl andb. cbv iota. lia.
Qed.

Lemma sum_scores_mono (haystack : str) (tokens terms : list str) (acc : Z) :
  (acc <= fold_left (fun score term => score + Rag.scoreTerm haystack tokens term) terms acc)%Z.
Proof.
  revert acc. induction terms as [|t terms IH]; intros acc; simpl; [lia|].
  specialize (IH (acc + Rag.scoreTerm haystack tokens t)%Z).
  pose proof (proj1 (scoreTerm_bounds haystack tokens t)). lia.
Qed.

Lemma sum_scores_term (haystack : str) (tokens terms : list str) (term : str) (acc : Z) :
  In term terms ->
  (acc + Rag.scoreTerm haystack tokens term
   <= fold_left (fun score t => score + Rag.scoreTerm haystack tokens t) terms acc)%Z.
Proof.
  revert acc. induction terms as [|t terms IH]; intros acc; simpl; [intros []|].
  intros [->|H].
  - apply sum_scores_mono.
  - specialize (IH (acc + Rag.scoreTerm haystack tokens t)%Z H).
    pose proof (proj1 (scoreTerm_bounds haystack tokens t)). lia.
Qed.

(** X3.  No score is negative.  An index entry whose id is written in the
    question, in any case, scores at least 3, and is therefore among the
    entries the lexical fallback ranks. *)
Theorem named_entry_scores (question : str) (index : list Rag.ControlIndexItem)
    (item : Rag.ControlIndexItem)
    (Hitem : In item index)
    (Hid : Rag.control_id item <> [])
    (Hnamed : Js.includes (Js.toLowerCase question)
                (Js.toLowerCase (Rag.control_id item)) = true) :
  (forall tokens other, 0 <= Rag.scoreControl question tokens other)%Z
  /\ (3 <= Rag.scoreControl question (Rag.tokenize question) item)%Z
  /\ In (item, Rag.scoreControl question (Rag.tokenize question) item)
        (Rag.scored question index).
Proof.
  assert (S3 : (3 <= Rag.scoreControl question (Rag.tokenize question) item)%Z).
  { unfold Rag.scoreControl.
    assert (T : In (Rag.control_id item) (Rag.terms item)).
    { unfold Rag.terms. apply filter_In. split; [now left|].
      now destruct (Rag.control_id item). }
    pose proof (sum_scores_term (Js.toLowerCase question) (Rag.tokenize question)
                  _ _ 0 T) as H.
    pose proof (proj2 (scoreTerm_bounds (Js.toLowerCase question) (Rag.tokenize question)
                         (Rag.control_id item))) as B.
    assert (Js.nonEmpty (Rag.control_id item) = true) by (now destruct (Rag.control_id item)).
    specialize (B H0 Hnamed). lia. }
  split; [|split; [exact S3|]].
  - intros tokens other. apply sum_scores_mono.
  - unfold Rag.scored.
    apply (Permutation_in _ (Permutation_sym (sort_perm _ _))).
    apply filter_In. split.
    + apply in_map_iff. now exists item.
    + simpl. apply Z.ltb_lt. lia.
Qed.

Lemma named_entry_scores_witness :
  In (hd (ix_default) chatIndex) chatIndex
  /\ (3 <= Rag.scoreControl "is ac-2 about accounts?"
             (Rag.tokenize "is ac-2 about accounts?") (hd ix_default chatIndex))%Z.
Proof.
  assert (H1 : In (hd ix_default chatIndex) chatIndex) by (left; reflexivity).
  split; [exact H1|].
  refine (proj1 (proj2 (named_entry_scores "is ac-2 about accounts?" chatIndex
                   (hd ix_default chatIndex) H1 _ eq_refl))).
  discriminate.
Defined.

(** The comparator of the fallback, [b.score - a.score], read as an order. *)
Lemma insert_descending {A} (x : A * Z) (l : list (A * Z)) :
  StronglySorted (fun a b => (snd b <= snd a)%Z) l ->
  StronglySorted (fun a b => (snd b <= snd a)%Z)
    (Js.insert (fun a b => (snd b - snd a)%Z) x l).
Proof.
  induction l as [|y l IH]; intros S; simpl.
  - constructor; constructor.
  - inversion S as [|? ? S' F]; subst.
    destruct (Z.leb_spec (snd y - snd x) 0).
    + constructor; [assumption|]. constructor; [lia|].
      eapply Forall_impl; [|exact F]. simpl. intros; lia.
    + constructor; [now apply IH|].
      apply Forall_forall. intros z Hz.
      apply (Permutation_in _ (insert_perm _ x l)) in Hz.
      destruct Hz as [<-|Hz]; [lia|].
      now apply (proj1 (Forall_forall _ _) F).
Qed.

Lemma sort_descending {A} (l : list (A * Z)) :
  StronglySorted (fun a b => (snd b <= snd a)%Z)
    (Js.sort (fun a b => (snd b - snd a)%Z) l).
Proof.
  induction l as [|x l IH]; simpl; [constructor | now apply insert_descending].
Qed.

Lemma sorted_split {A} (R : A -> A -> Prop) (l : list A) (n : nat) :
  StronglySorted R l ->
  forall a b, In a (firstn n l) -> In b (skipn n l) -> R a b.
Proof.
  intros S. revert n. induction S as [|x l S IH F]; intros n a b Ha Hb.
  - rewrite firstn_nil in Ha. destruct Ha.
  - destruct n as [|n]; [destruct Ha|]. simpl in Ha, Hb.
    destruct Ha as [<-|Ha]; [|now apply (IH n)].
    apply (proj1 (Forall_forall _ _) F). revert Hb. clear.
    revert n. induction l as [|y l IH]; intros [|n]; simpl; auto. intros H.
    right. now apply (IH n).
Qed.

(** X4.  The fallback ranks by descending score and answers with the ids
    of a leading part of the ranking: no entry it leaves out scores more
    than an entry it returns. *)
Theorem lexicalFallback_takes_best (question : str)
    (index : list Rag.ControlIndexItem) (limit : Z) :
  StronglySorted (fun a b => (snd b <= snd a)%Z) (Rag.scored question index)
  /\ exists kept rest,
       Rag.scored question index = kept ++ rest
       /\ Rag.lexicalFallback question index limit
          = map (fun entry => Rag.control_id (fst entry)) kept
       /\ forall a b, In a kept -> In b rest -> (snd b <= snd a)%Z.
Proof.
  assert (S : StronglySorted (fun a b => (snd b <= snd a)%Z) (Rag.scored question index))
    by apply sort_descending.
  split; [exact S|].
  destruct (slice0_prefix (Rag.scored question index) limit) as [n [E _]].
  exists (firstn n (Rag.scored question index)), (skipn n (Rag.scored question index)).
  split; [now rewrite firstn_skipn|]. split.
  - unfold Rag.lexicalFallback. now rewrite E.
  - intros a b Ha Hb.
    exact (sorted_split _ _ n S a b Ha Hb).
Qed.

(** Lookups in [new Map(pairs)]. *)
Lemma fold_set_other {V} (pairs : list (str * V)) (m0 : Js.Map V) (k : str) :
  ~ In k (map fst pairs) ->
  Js.get (fold_left (fun m kv => Js.set m (fst kv) (snd kv)) pairs m0) k = Js.get m0 k.
Proof.
  revert m0. induction pairs as [|p pairs IH]; intros m0 H; simpl; [reflexivity|].
  rewrite IH by (intros C; apply H; now right).
  rewrite get_set. destruct (Js.eqb (fst p) k) eqn:E; [|reflexivity].
  apply eqb_eq in E. exfalso. apply H. now left.
Qed.

Lemma fold_set_unique {V} (pairs : list (str * V)) (m0 : Js.Map V) (k : str) (v : V) :
  NoDup (map fst pairs) -> In (k, v) pairs ->
  Js.get (fold_left (fun m kv => Js.set m (fst kv) (snd kv)) pairs m0) k = Some v.
Proof.
  revert m0. induction pairs as [|p pairs IH]; intros m0 N H; [destruct H|].
  simpl in N. inversion N as [|? ? Hp N']; subst. simpl.
  destruct H as [->|H].
  - rewrite fold_set_other by exact Hp. simpl. rewrite get_set, eqb_refl. reflexivity.
  - now apply IH.
Qed.

(** X5.  Ids of the caller that match no entry of the index, compared
    trimmed and in upper case, count as no ids at all: the selection is
    the one made from the question alone.  (Ids of the caller and of the
    index in ASCII.) *)
Theorem unknown_ids_fall_through (question : str) (ids : list str)
    (index : list Rag.ControlIndexItem) (limit : Z)
    (Hids : forall id, In id ids -> isAscii id = true)
    (Hindex : forall item, In item index -> isAscii (Rag.control_id item) = true)
    (Hunknown : forall id, In id ids ->
       ~ In (Rag.normalizeControlId id)
           (map (fun item => Js.toUpperCase (Rag.control_id item)) index)) :
  Rag.selectControlIds question (Some ids) index limit
  = Rag.selectControlIds question None index limit.
Proof.
  assert (E : Rag.addAll (Rag.canonical index) [] ids = []).
  { rewrite addAll_dedupe.
    replace (flat_map (canonicalOf index) ids) with (@nil str); [reflexivity|].
    symmetry. clear Hids. induction ids as [|id ids IH]; [reflexivity|]. simpl.
    rewrite IH by (intros; apply Hunknown; now right).
    rewrite app_nil_r. unfold canonicalOf, Rag.canonical, Js.ofPairs.
    rewrite fold_set_other; [reflexivity|].
    rewrite map_map. simpl. apply Hunknown. now left. }
  unfold Rag.selectControlIds. destruct ids as [|id ids]; [reflexivity|].
  rewrite E. reflexivity.
Qed.

Lemma unknown_ids_fall_through_witness :
  Rag.selectControlIds "What does AC-2 require?" (Some ["ZZ-9"; " sc-7"]) chatIndex 6
  = ["AC-2"]
  /\ Rag.selectControlIds "What does AC-2 require?" None chatIndex 6 = ["AC-2"].
Proof.
  assert (H1 : forall id, In id ["ZZ-9"; " sc-7"] -> isAscii id = true).
  { intros id [<-|[<-|[]]]; reflexivity. }
  assert (H2 : forall item, In item chatIndex -> isAscii (Rag.control_id item) = true).
  { intros item [<-|[<-|[]]]; reflexivity. }
  assert (H3 : forall id, In id ["ZZ-9"; " sc-7"] ->
                 ~ In (Rag.normalizeControlId id)
                     (map (fun item => Js.toUpperCase (Rag.control_id item)) chatIndex)).
  { intros id [<-|[<-|[]]]; simpl; intros [C|[C|[]]]; discriminate C. }
  pose proof (unknown_ids_fall_through "What does AC-2 require?" ["ZZ-9"; " sc-7"]
                chatIndex 6 H1 H2 H3) as E.
  split; [|reflexivity]. exact (eq_trans E eq_refl).
Defined.

(** X6.  An id of the caller is matched with its surrounding white space
    trimmed and without regard to case, and answered in the spelling of
    the index.  (Ids of the caller and of the index in ASCII, the ids of
    the index pairwise different also in upper case.) *)
Theorem caller_id_in_index_spelling (question spelling : str)
    (index : list Rag.ControlIndexItem) (item : Rag.ControlIndexItem) (limit : Z)
    (Hspelling : isAscii spelling = true)
    (Hindex : forall entry, In entry index -> isAscii (Rag.control_id entry) = true)
    (Hdistinct : NoDup (map (fun item => Js.toUpperCase (Rag.control_id item)) index))
    (Hitem : In item index)
    (Hid : Rag.control_id item <> [])
    (Hsame : Js.toUpperCase (Js.trim spelling) = Js.toUpperCase (Rag.control_id item)) :
  Rag.selectControlIds question (Some [spelling]) index limit = [Rag.control_id item].
Proof.
  assert (C : canonicalOf index spelling = [Rag.control_id item]).
  { unfold canonicalOf, Rag.canonical, Js.ofPairs, Rag.normalizeControlId.
    rewrite (fold_set_unique _ _ _ (Rag.control_id item)).
    - now destruct (Rag.control_id item).
    - now rewrite map_map.
    - rewrite Hsame. apply in_map_iff. now exists item. }
  rewrite selectControlIds_caller_ids; simpl; rewrite C; [reflexivity | discriminate].
Qed.

Lemma caller_id_in_index_spelling_witness :
  Rag.selectControlIds "What does AC-2 require?" (Some ["  ia-2 "]) chatIndex 6 = ["IA-2"].
Proof.
  apply (caller_id_in_index_spelling _ _ chatIndex
           {| Rag.control_id := "IA-2"; Rag.control_name := "Identification and Authentication";
              Rag.family_id := "IA"; Rag.aliases := None; Rag.keywords := None |}).
  - reflexivity.
  - intros entry [<-|[<-|[]]]; reflexivity.
  - simpl. repeat constructor; simpl; intuition discriminate.
  - right. left. reflexivity.
  - discriminate.
  - reflexivity.
Defined.

(** ** Keys, origins and the router ([index.ts]) *)

Lemma dropWhile_slashes (n : nat) (s : str) :
  Js.dropWhile Api.is_slash (repeat "/"%char n ++ s) = Js.dropWhile Api.is_slash s.
Proof. induction n as [|n IH]; [reflexivity | exact IH]. Qed.

Lemma rev_repeat {A} (x : A) (n : nat) : rev (repeat x n) = repeat x n.
Proof.
  induction n as [|n IH]; [reflexivity|]. simpl. rewrite IH.
  clear IH. induction n as [|n IH]; [reflexivity|]. simpl. now rewrite IH.
Qed.


(** X7.  [joinKey] does not see the slashes a prefix ends with or a path
    starts with; without a prefix the key is the path without its leading
    slashes, and it never starts with a slash. *)
Theorem joinKey_slashes (prefix p : str) (n m : nat) :
  Api.joinKey (Some (prefix ++ repeat "/"%char n)) (repeat "/"%char m ++ p)
  = Api.joinKey (Some prefix) p
  /\ Api.joinKey None p = Js.dropWhile Api.is_slash p
  /\ Js.startsWith (Api.joinKey None p) "/" = false.
Proof.
  split; [|split].
  - unfold Api.joinKey.
    rewrite rev_app_distr, rev_repeat, !dropWhile_slashes. reflexivity.
  - reflexivity.
  - unfold Api.joinKey. simpl Js.nonEmpty. cbv iota.
    pose proof (dropWhile_not_head Api.is_slash p) as H.
    destruct (Js.dropWhile Api.is_slash p) as [|c s]; [reflexivity|].
    unfold Api.is_slash in H.
    change (Js.startsWith (c :: s) "/") with (Js.ceqb "/"%char c && Js.startsWith s []).
    destruct (Js.ceqb "/"%char c) eqn:E; [|reflexivity].
    apply ceqb_eq in E. subst c. discriminate H.
Qed.



(** X9.  Whatever the bucket holds and whatever is asked, the router
    never answers 200: a request is answered 204 (exactly the [OPTIONS]
    requests), 400, 404 or 500, or an exception escapes; the model is
    never run. *)
Theorem fetch_never_ok (env : Api.Env) (req : Api.Request) :
  Api.fetch env req = Api.Throws
  \/ exists b st, Api.fetch env req = Api.jsonResponse b st
       /\ (st = 204 \/ st = 400 \/ st = 404 \/ st = 500)%Z
       /\ (st = 204%Z <-> Api.method req = "OPTIONS")
       /\ (forall answer retrieved, b <> Api.ChatBody answer retrieved).
Proof.
  unfold Api.fetch.
  destruct (Js.eqb (Api.method req) "OPTIONS") eqn:M.
  { right. exists Api.NoBody, 204%Z. apply eqb_eq in M.
    repeat split; auto; discriminate. }
  apply eqb_neq in M.
  assert (R : forall b st, (st = 400 \/ st = 404 \/ st = 500)%Z ->
                (forall answer retrieved, b <> Api.ChatBody answer retrieved) ->
                (st = 204 \/ st = 400 \/ st = 404 \/ st = 500)%Z
                /\ (st = 204%Z <-> Api.method req = "OPTIONS")
                /\ (forall answer retrieved, b <> Api.ChatBody answer retrieved)).
  { intros b st Hst Hb. split; [tauto|]. split; [|exact Hb].
    split; [intros ->; destruct Hst as [C|[C|C]]; discriminate C | intros C; now elim M]. }
  destruct (_ && _).
  { right. rewrite handleIndex_not_found. do 2 eexists. split; [reflexivity|].
    apply R; [tauto | discriminate]. }
  destruct (_ && _).
  { right. destruct (negb _).
    - do 2 eexists. split; [reflexivity|]. apply R; [tauto | discriminate].
    - rewrite handleControl_not_found. do 2 eexists. split; [reflexivity|].
      apply R; [tauto | discriminate]. }
  destruct (_ && _).
  - unfold Api.handleChat.
    destruct (Api.body req) as [payload|].
    2:{ right. do 2 eexists. split; [reflexivity|]. apply R; [tauto | discriminate]. }
    destruct (negb (Json.truthy payload)).
    { right. do 2 eexists. split; [reflexivity|]. apply R; [tauto | discriminate]. }
    destruct (Json.prop payload "question") as [[| | |question| |]|];
      try (now left);
      try (right; do 2 eexists; split; [reflexivity|]; apply R; [tauto | discriminate]).
    destruct (negb (Js.nonEmpty (Js.trim question))).
    { right. do 2 eexists. split; [reflexivity|]. apply R; [tauto | discriminate]. }
    unfold R2.getJson. destruct (Api.DATA env _);
      right; do 2 eexists; (split; [reflexivity|]); apply R; (tauto || discriminate).
  - right. do 2 eexists. split; [reflexivity|]. apply R; [tauto | discriminate].
Qed.

(** ** Segmentation and parsing of the PDF text ([extract-annex-3a.mjs]) *)








Lemma fold_not_started (pre : list str) :
  (forall line, In line pre -> Js.includes line Pdf.START_MARKER = false) ->
  fold_left Pdf.splitStep pre
    {| Pdf.controls := []; Pdf.current := None; Pdf.started := false |}
  = {| Pdf.controls := []; Pdf.current := None; Pdf.started := false |}.
Proof.
  induction pre as [|l pre IH]; intros H; [reflexivity|].
  simpl. unfold Pdf.splitStep at 2. cbn [Pdf.started negb Pdf.controls Pdf.current].
  rewrite (H l) by now left. apply IH. intros line Hl. apply H. now right.
Qed.

(** X11.  Nothing is read before the start marker: the lines before the
    first line that holds the marker, headings among them, do not change
    the controls found, and a text without the marker has no control, so
    that the run fails without writing. *)
Theorem lines_before_marker_ignored (pre rest : list str)
    (Hpre : forall line, In line pre -> Js.includes line Pdf.START_MARKER = false) :
  Pdf.splitControls (pre ++ rest) = Pdf.splitControls rest
  /\ Pdf.splitControls pre = []
  /\ Pdf.extract pre
     = ([], Fs.Failed "No controls found. Check the parser or PDF version.").
Proof.
  assert (E : Pdf.splitControls pre = []).
  { unfold Pdf.splitControls. now rewrite fold_not_started. }
  split; [|split; [exact E | now apply extract_no_controls]].
  unfold Pdf.splitControls. now rewrite fold_left_app, fold_not_started.
Qed.

Lemma lines_before_marker_ignored_witness :
  Pdf.splitControls markedLines = Pdf.splitControls (skipn 2 markedLines)
  /\ Pdf.splitControls (firstn 2 markedLines) = [].
Proof.
  assert (H : forall line, In line (firstn 2 markedLines) ->
                Js.includes line Pdf.START_MARKER = false).
  { intros line [<-|[<-|[]]]; reflexivity. }
  destruct (lines_before_marker_ignored (firstn 2 markedLines) (skipn 2 markedLines) H)
    as [A [B _]].
  split; [exact A | exact B].
Defined.

(** X12.  A PDF run that finds a control ends well, and what it wrote is
    consistent: one index, written after every record file, whose ids are
    pairwise different and are the ids of the record files, each entry
    with the name and family of the record its file holds.  This holds
    also when a heading stands twice in the text. *)
Theorem pdf_run_consistent (allLines : list str)
    (Hfound : Pdf.splitControls allLines <> []) :
  snd (Pdf.extract allLines) = Fs.Done
  /\ consistent (fst (Pdf.extract allLines))
  /\ exists written index,
       fst (Pdf.extract allLines)
       = written ++ [Fs.WriteFile Fs.indexFile (Fs.IndexJson index)]
       /\ NoDup (map Rag.control_id index).
Proof.
  assert (D : snd (Pdf.extract allLines) = Fs.Done).
  { unfold Pdf.extract. destruct (Pdf.splitControls allLines) as [|c cs]; [now elim Hfound|].
    cbv zeta. now destruct (Pdf.extractLoop (c :: cs)). }
  split; [exact D|]. split; [now apply extract_consistent|].
  destruct (extract_done allLines D) as [indexMap [written [E [K I N W]]]].
  exists written, (Js.values indexMap). split; [now rewrite E|].
  replace (map Rag.control_id (Js.values indexMap)) with (Js.keys indexMap); [exact K|].
  unfold Js.values, Js.keys. rewrite map_map. apply map_ext_in.
  intros [id e] Hin. simpl. destruct (N id e Hin) as [r [_ [-> Hr]]]. symmetry. exact Hr.
Qed.

Lemma pdf_run_consistent_witness :
  Pdf.splitControls markedLines <> []
  /\ snd (Pdf.extract markedLines) = Fs.Done
  /\ consistent (fst (Pdf.extract markedLines)).
Proof.
  assert (H : Pdf.splitControls markedLines <> []) by (vm_compute; discriminate).
  destruct (pdf_run_consistent markedLines H) as [A [B _]].
  split; [exact H | split; [exact A | exact B]].
Defined.

(** *** Sections, parts and enhancements *)

Lemma sectionHeader_colon (line h rest : str) :
  Pdf.sectionHeader line = Some (h, rest) -> Js.includes line ":" = true.
Proof.
  unfold Pdf.sectionHeader. destruct line as [|a s1]; [discriminate|]. cbv zeta.
  destruct (_ && _); [|discriminate].
  destruct (skipn (length (Js.takeWhile Pdf.headerChar s1)) s1) as [|c s2] eqn:S;
    [discriminate|].
  destruct (Js.ceqb c ":"%char) eqn:C; [|discriminate]. intros _.
  apply ceqb_eq in C. subst c.
  rewrite <- (takeWhile_skipn Pdf.headerChar s1), S.
  apply (includes_app_r (a :: Js.takeWhile Pdf.headerChar s1) (":"%char :: s2)).
  now destruct s2.
Qed.

Lemma fold_statement (lines : list str) :
  (forall line, In line lines -> Pdf.sectionHeader line = None) ->
  forall (sectioned : Pdf.Sections) (acc : list str),
    sectioned Pdf.Statement = Some acc ->
    (forall sec, sec <> Pdf.Statement -> sectioned sec = None) ->
    fst (fold_left Pdf.sectionStep lines (sectioned, Some Pdf.Statement)) Pdf.Statement
    = Some (acc ++ lines)
    /\ forall sec, sec <> Pdf.Statement ->
         fst (fold_left Pdf.sectionStep lines (sectioned, Some Pdf.Statement)) sec = None.
Proof.
  induction lines as [|l ls IH]; intros H sectioned acc Hs Ho.
  - simpl. rewrite app_nil_r. now split.
  - cbn [fold_left]. unfold Pdf.sectionStep at 2 4. rewrite (H l) by now left.
    destruct (IH (fun line Hl => H line (or_intror Hl))
                (Pdf.push sectioned Pdf.Statement [l]) (acc ++ [l])) as [A B].
    + unfold Pdf.push. simpl. now rewrite Hs.
    + intros sec Hsec. unfold Pdf.push.
      destruct sec; try (now elim Hsec); simpl; apply Ho; discriminate.
    + rewrite <- app_assoc in A. split; [exact A | exact B].
Qed.

(** X13.  The lines of a control in which no colon stands are all its
    statement, in their order, and the control has no other section. *)
Theorem lines_without_header_are_statement (control : Pdf.RawControl)
    (Hplain : forall line, In line (Pdf.lines control) -> Js.includes line ":" = false)
    (Hlines : Pdf.lines control <> []) :
  Pdf.parseSections control Pdf.Statement = Some (Pdf.lines control)
  /\ (forall sec, sec <> Pdf.Statement -> Pdf.parseSections control sec = None)
  /\ Control.statement (Pdf.assemble control) = Some (Js.join " " (Pdf.lines control))
  /\ Control.supplemental_guidance (Pdf.assemble control) = None
  /\ Control.enhancements (Pdf.assemble control) = None.
Proof.
  assert (N : forall line, In line (Pdf.lines control) -> Pdf.sectionHeader line = None).
  { intros line Hl. destruct (Pdf.sectionHeader line) as [[h rest]|] eqn:E; [|reflexivity].
    apply sectionHeader_colon in E. rewrite (Hplain line Hl) in E. discriminate. }
  assert (P : Pdf.parseSections control Pdf.Statement = Some (Pdf.lines control)
              /\ forall sec, sec <> Pdf.Statement -> Pdf.parseSections control sec = None).
  { unfold Pdf.parseSections.
    destruct (Pdf.lines control) as [|l ls]; [now elim Hlines|].
    cbn [fold_left]. unfold Pdf.sectionStep at 2 4. rewrite (N l) by now left.
    apply (fold_statement ls (fun line Hl => N line (or_intror Hl))
             (Pdf.push (fun _ => None) Pdf.Statement [l]) [l]).
    - reflexivity.
    - intros sec Hsec. unfold Pdf.push. destruct sec; try (now elim Hsec); reflexivity. }
  destruct P as [P1 P2]. split; [exact P1|]. split; [exact P2|].
  unfold Pdf.assemble. cbv zeta. cbn [Control.statement Control.supplemental_guidance
                                      Control.enhancements].
  rewrite P1, (P2 Pdf.SupplementalGuidance), (P2 Pdf.Enhancements) by discriminate.
  repeat split; reflexivity.
Qed.

Lemma lines_without_header_are_statement_witness :
  Pdf.parseSections plainControl Pdf.Statement = Some (Pdf.lines plainControl)
  /\ Control.statement (Pdf.assemble plainControl)
     = Some "The organization manages accounts and reviews them monthly.".
Proof.
  assert (H1 : forall line, In line (Pdf.lines plainControl) -> Js.includes line ":" = false).
  { intros line [<-|[<-|[]]]; reflexivity. }
  assert (H2 : Pdf.lines plainControl <> []) by discriminate.
  destruct (lines_without_header_are_statement plainControl H1 H2) as [A [_ [B _]]].
  split; [exact A | exact B].
Defined.






















Lemma dedupe_into_prefix (l seen : list str) :
  exists more, Js.dedupe_into seen l = seen ++ more.
Proof.
  revert seen. induction l as [|x l IH]; intros seen; simpl.
  - exists []. now rewrite app_nil_r.
  - destruct (Js.mem x seen); [apply IH|].
    destruct (IH (seen ++ [x])) as [more E]. exists (x :: more).
    rewrite E, <- app_assoc. reflexivity.
Qed.

(** X16.  The keywords of an index entry are pairwise different and none
    is empty; a control name that is not empty comes first, and the id
    and title of every enhancement are among them unless empty. *)
Theorem buildKeywords_set (controlName : str) (enhancements : list Enhancement.t) :
  NoDup (buildKeywords controlName enhancements)
  /\ ~ In "" (buildKeywords controlName enhancements)
  /\ (controlName <> [] -> hd_error (buildKeywords controlName enhancements) = Some controlName)
  /\ forall e, In e enhancements ->
       (Enhancement.enhancement_id e <> [] ->
        In (Enhancement.enhancement_id e) (buildKeywords controlName enhancements))
       /\ (forall title, Enhancement.title e = Some title -> title <> [] ->
           In title (buildKeywords controlName enhancements)).
Proof.
  unfold buildKeywords. split; [apply dedupe_NoDup|]. split; [|split].
  - intros H. apply (proj1 (dedupe_In _ _)) in H. apply filter_In in H as [_ H]. discriminate H.
  - intros Hn. destruct controlName as [|c name]; [now elim Hn|].
    cbn [filter Js.nonEmpty]. unfold Js.dedupe. cbn [Js.dedupe_into Js.mem existsb].
    match goal with
    | |- hd_error (Js.dedupe_into ?seen ?l) = _ =>
        destruct (dedupe_into_prefix l seen) as [more E]
    end.
    rewrite E. reflexivity.
  - intros e He. split.
    + intros Hid. apply (proj2 (dedupe_In _ _)). apply filter_In. split.
      * right. apply in_flat_map. exists e. split; [exact He | now left].
      * now destruct (Enhancement.enhancement_id e).
    + intros title Ht Hne. apply (proj2 (dedupe_In _ _)). apply filter_In. split.
      * right. apply in_flat_map. exists e. split; [exact He|]. rewrite Ht. right. now left.
      * now destruct title.
Qed.

(** ** The HTML extractor ([extract-annex-3a-html.mjs]) *)

Lemma collapse_nbsp (value : str) (inRun : bool) :
  Js.collapse_ws (map (fun c => if Js.code c =? 160 then " "%char else c) value) inRun
  = Js.collapse_ws value inRun.
Proof.
  revert inRun. induction value as [|c v IH]; intros inRun; [reflexivity|].
  cbn [map Js.collapse_ws].
  destruct (Js.code c =? 160) eqn:E.
  - replace (Js.is_space c) with true
      by (unfold Js.is_space; rewrite E; now rewrite orb_true_r).
    change (Js.is_space " "%char) with true. cbv iota. now rewrite !IH.
  - now rewrite !IH.
Qed.

Lemma collapse_singleSpaced (s : str) (inRun : bool) :
  singleSpaced (Js.collapse_ws s inRun) inRun = true.
Proof.
  revert inRun. induction s as [|c s IH]; intros inRun; [reflexivity|].
  cbn [Js.collapse_ws]. destruct (Js.is_space c) eqn:E.
  - destruct inRun; [apply IH|].
    cbn [singleSpaced]. change (Js.is_space " "%char) with true. cbv iota.
    rewrite IH. reflexivity.
  - cbn [singleSpaced]. rewrite E. apply IH.
Qed.

Lemma singleSpaced_fixed (s : str) (inRun : bool) :
  singleSpaced s inRun = true -> Js.collapse_ws s inRun = s.
Proof.
  revert inRun. induction s as [|c s IH]; intros inRun H; [reflexivity|].
  cbn [singleSpaced Js.collapse_ws] in *. destruct (Js.is_space c).
  - apply andb_true_iff in H as [H H3]. apply andb_true_iff in H as [H1 H2].
    apply ceqb_eq in H1. subst c. destruct inRun; [discriminate H2|].
    now rewrite IH.
  - now rewrite IH.
Qed.

Lemma singleSpaced_weaken (s : str) (afterSpace : bool) :
  singleSpaced s true = true -> singleSpaced s afterSpace = true.
Proof.
  destruct s as [|c s]; [reflexivity|]. cbn [singleSpaced].
  destruct (Js.is_space c); [|trivial].
  rewrite andb_false_r. discriminate.
Qed.

Lemma singleSpaced_dropWhile (s : str) (afterSpace : bool) :
  singleSpaced s afterSpace = true ->
  singleSpaced (Js.dropWhile Js.is_space s) true = true.
Proof.
  revert afterSpace. induction s as [|c s IH]; intros afterSpace H; [reflexivity|].
  cbn [Js.dropWhile]. cbn [singleSpaced] in H. destruct (Js.is_space c) eqn:E.
  - apply andb_true_iff in H as [_ H]. now apply (IH true).
  - cbn [singleSpaced]. now rewrite E.
Qed.

Lemma singleSpaced_prefix (a r : str) (afterSpace : bool) :
  singleSpaced (a ++ r) afterSpace = true -> singleSpaced a afterSpace = true.
Proof.
  revert afterSpace. induction a as [|c a IH]; intros afterSpace H; [reflexivity|].
  rewrite <- app_comm_cons in H. cbn [singleSpaced] in *. destruct (Js.is_space c).
  - apply andb_true_iff in H as [H1 H2]. rewrite H1. now apply IH.
  - now apply IH.
Qed.

Lemma dropWhile_suffix (f : ascii -> bool) (s : str) :
  exists q, s = q ++ Js.dropWhile f s.
Proof.
  induction s as [|c s [q IH]]; [now exists []|]. cbn [Js.dropWhile].
  destruct (f c); [|now exists []].
  exists (c :: q). simpl. now rewrite <- IH.
Qed.

Lemma trimEnd_prefix (s : str) : exists r, s = Js.trimEnd s ++ r.
Proof.
  unfold Js.trimEnd. destruct (dropWhile_suffix Js.is_space (rev s)) as [q E].
  exists (rev q). rewrite <- rev_app_distr, <- E. now rewrite rev_involutive.
Qed.

Lemma dropWhile_clean (s : str) : startsClean s = true -> Js.dropWhile Js.is_space s = s.
Proof.
  destruct s as [|c s]; [reflexivity|]. simpl. now destruct (Js.is_space c).
Qed.

Lemma trim_normal (s : str) (afterSpace : bool) :
  singleSpaced s afterSpace = true -> normalText (Js.trim s) = true.
Proof.
  intros H. unfold normalText, Js.trim. apply andb_true_iff. split.
  - apply singleSpaced_dropWhile in H. unfold Js.trimStart.
    destruct (trimEnd_prefix (Js.dropWhile Js.is_space s)) as [r E].
    rewrite E in H. now apply singleSpaced_prefix in H.
  - unfold Js.trimEnd. rewrite rev_involutive.
    pose proof (dropWhile_not_head Js.is_space (rev (Js.trimStart s))) as N.
    unfold startsClean. destruct (Js.dropWhile Js.is_space (rev (Js.trimStart s)));
      [reflexivity | now rewrite N].
Qed.

Lemma normal_trim (s : str) : normalText s = true -> Js.trim s = s.
Proof.
  unfold normalText. intros H. apply andb_true_iff in H as [H1 H2].
  unfold Js.trim, Js.trimStart, Js.trimEnd.
  assert (C : startsClean s = true).
  { destruct s as [|c s]; [reflexivity|]. cbn [singleSpaced] in H1. simpl.
    destruct (Js.is_space c); [|reflexivity]. rewrite andb_false_r in H1. discriminate. }
  rewrite (dropWhile_clean s C), (dropWhile_clean (rev s) H2). apply rev_involutive.
Qed.

(** X17.  [cleanText] and [normalizeSpaces] are the same function: the
    replacement of non-breaking spaces changes nothing, white space
    being collapsed anyway.  Its result has white space only as single
    spaces between other characters, and cleaning it again gives it
    back. *)
Theorem cleanText_normal (value : str) :
  Html.cleanText value = Assignments.normalizeSpaces value
  /\ normalText (Html.cleanText value) = true
  /\ Html.cleanText (Html.cleanText value) = Html.cleanText value.
Proof.
  assert (E : forall v, Html.cleanText v = Assignments.normalizeSpaces v).
  { intros v. unfold Html.cleanText, Assignments.normalizeSpaces, Js.collapseSpaces.
    now rewrite collapse_nbsp. }
  assert (N : forall v, normalText (Assignments.normalizeSpaces v) = true).
  { intros v. unfold Assignments.normalizeSpaces, Js.collapseSpaces.
    apply (trim_normal _ false), collapse_singleSpaced. }
  split; [apply E|]. split; [rewrite E; apply N|].
  rewrite !E. specialize (N value).
  set (t := Assignments.normalizeSpaces value) in *.
  unfold Assignments.normalizeSpaces at 1. unfold Js.collapseSpaces.
  rewrite singleSpaced_fixed; [now apply normal_trim|].
  apply singleSpaced_weaken. unfold normalText in N.
  now apply andb_true_iff in N as [N _].
Qed.

Lemma html_controlHeading_shape (line fam num name : str) :
  Html.controlHeading line = Some (fam, num, name) ->
  Rx.isControlId (fam ++ "-" ++ num) = true /\ firstn 2 (fam ++ "-" ++ num) = fam.
Proof.
  unfold Html.controlHeading.
  destruct line as [|a [|b [|h s1]]]; try discriminate.
  destruct (_ && _ && _) eqn:U; [|discriminate].
  apply andb_true_iff in U as [U _]. apply andb_true_iff in U as [Ua Ub].
  unfold Rx.digits13.
  destruct (_ && _) eqn:L; [|discriminate].
  cbv beta iota.
  destruct (Rx.spacesThenRest 1 1 _); [|discriminate].
  intros [= <- <- _].
  apply andb_true_iff in L as [L1 L2]. split; [|reflexivity].
  unfold Rx.isControlId. cbn [app].
  rewrite Ua, Ub, L1, L2, takeWhile_sat. reflexivity.
Qed.

(** X18.  Every h4 heading that reads as a control heading gives one
    control, in the order of the page; the id of a control has the form
    of a control id, its family is the two letters the id starts with,
    and it is marked as read from HTML. *)
Theorem html_record_ids (doc : list Html.node) :
  length (Html.parseControlsFromHtml doc)
  = length (filter (fun hf => isSome (Html.controlHeading
                                         (Html.cleanText (Html.text (fst hf)))))
              (Html.headings doc))
  /\ Forall
       (fun control =>
          Rx.isControlId (Control.control_id control) = true
          /\ Control.family_id control = firstn 2 (Control.control_id control)
          /\ Control.source_type control = Some "html"
          /\ Control.raw_text control = None)
       (Html.parseControlsFromHtml doc).
Proof.
  unfold Html.parseControlsFromHtml. split.
  - induction (Html.headings doc) as [|[h following] hs IH]; [reflexivity|].
    cbn [flat_map filter fst snd]. rewrite length_app, IH.
    unfold Html.parseControl.
    now destruct (Html.controlHeading (Html.cleanText (Html.text h))) as [[[fam num] name]|].
  - apply Forall_forall. intros control H.
    apply in_flat_map in H as [[h following] [_ H]]. cbn [fst snd] in H.
    unfold Html.parseControl in H.
    destruct (Html.controlHeading (Html.cleanText (Html.text h)))
      as [[[fam num] name]|] eqn:E; [|destruct H].
    destruct H as [<-|[]]. cbn [Control.control_id Control.family_id
                               Control.source_type Control.raw_text].
    destruct (html_controlHeading_shape _ _ _ _ E) as [A B].
    repeat split; [exact A | now rewrite B].
Qed.



Lemma blockNodes_stop (pre rest : list Html.node) (h : Html.node) :
  Html.isControlHeading h = true ->
  Html.blockNodes (pre ++ h :: rest) = Html.blockNodes pre.
Proof.
  intros H. induction pre as [|n pre IH].
  - simpl. destruct h as [s|tag attrs cs]; [discriminate H|]. now rewrite H.
  - rewrite <- app_comm_cons. cbn [Html.blockNodes].
    destruct n as [s|tag attrs cs]; [exact IH|]. now rewrite IH.
Qed.

(** X20.  The block of a control ends at the next control heading: what
    stands behind that heading has no part in the control, and no node
    of the block is a control heading or a text node. *)
Theorem block_ends_at_next_heading (heading next : Html.node)
    (pre rest : list Html.node)
    (Hnext : Html.isControlHeading next = true) :
  Html.blockNodes (pre ++ next :: rest) = Html.blockNodes pre
  /\ Html.parseControl heading (pre ++ next :: rest) = Html.parseControl heading pre
  /\ Forall (fun n => Html.isControlHeading n = false /\ Html.tagName n <> None)
       (Html.blockNodes pre).
Proof.
  split; [now apply blockNodes_stop|]. split.
  - unfold Html.parseControl. now rewrite blockNodes_stop.
  - clear. induction pre as [|n pre IH]; [constructor|].
    cbn [Html.blockNodes]. destruct n as [s|tag attrs cs]; [exact IH|].
    destruct (Html.isControlHeading (Html.Elem tag attrs cs)) eqn:E; [constructor|].
    constructor; [|exact IH]. split; [exact E | discriminate].
Qed.

Lemma block_ends_at_next_heading_witness :
  Html.blockNodes (skipn 1 twoControls) = Html.blockNodes (firstn 2 (skipn 1 twoControls)).
Proof.
  exact (proj1 (block_ends_at_next_heading
                  (Html.Elem "h4" [] [Html.Text "AC-1 ACCESS CONTROL POLICY"])
                  (Html.Elem "h4" [] [Html.Text "AC-2 ACCOUNT MANAGEMENT"])
                  (firstn 2 (skipn 1 twoControls)) (skipn 4 twoControls) eq_refl)).
Defined.

Lemma eachFrom_length {A B} (f : nat -> A -> B) (xs : list A) (start : nat) :
  length (Html.eachFrom f start xs) = length xs.
Proof.
  revert start. induction xs as [|x xs IH]; intros start; simpl; [reflexivity|].
  now rewrite IH.
Qed.

Lemma numberToAlpha_nonpositive (n : Z) (lower : bool) :
  (n <= 0)%Z -> Html.numberToAlpha n lower = [].
Proof.
  intros H. unfold Html.numberToAlpha. rewrite numberToAlpha_loop_unfold.
  now destruct (Z.ltb_spec 0 n); [lia|].
Qed.

(** X21.  The list parsers keep the shape of the list: one part for each
    item of a statement list, with one sub-part for each item of the
    lists nested in it, and one enhancement for each item of an
    enhancement list.  An item without marker whose [value] attribute
    reads as a number that is not positive, and not below -2^53, gets
    the empty id. *)
Theorem list_parsers_keep_shape (listElement : Html.node) (controlId : str) :
  length (Html.parseStatementList listElement) = length (Html.children "li" listElement)
  /\ length (Html.parseEnhancementList listElement controlId)
     = length (Html.children "li" listElement)
  /\ (forall n li part,
        nth_error (Html.children "li" listElement) n = Some li ->
        nth_error (Html.parseStatementList listElement) n = Some part ->
        length (Part.subparts part)
        = length (flat_map (Html.children "li") (Html.children "ol" li)))
  /\ (forall n li part value k,
        nth_error (Html.children "li" listElement) n = Some li ->
        nth_error (Html.parseStatementList listElement) n = Some part ->
        Html.stripPartMarker (Html.cleanText (Html.text (Html.without ["ol"] li))) = None ->
        Html.attr "value" li = Some value -> Html.parseInt value = Some k ->
        (- 2 ^ 53 <= k <= 0)%Z -> Part.id part = []).
Proof.
  split; [apply eachFrom_length|]. split; [apply eachFrom_length|]. split.
  - intros n li part Hli Hpart. unfold Html.parseStatementList in Hpart.
    rewrite each_nth, Hli in Hpart. injection Hpart as <-.
    rewrite parsePart_subparts. apply eachFrom_length.
  - intros n li part value k Hli Hpart Hm Hv Hk Hneg.
    unfold Html.parseStatementList in Hpart.
    rewrite each_nth, Hli in Hpart. injection Hpart as <-.
    unfold Html.parsePart. rewrite Hm. cbn [Part.id].
    unfold Html.ordinalOf. rewrite Hv, Hk. apply numberToAlpha_nonpositive. lia.
Qed.

Lemma list_parsers_keep_shape_witness :
  Html.parseInt "0" = Some 0%Z
  /\ Part.id (Html.parsePart 0 (Html.Elem "li" [("value", "0")]
                                  [Html.Text "reviews accounts"])) = [].
Proof.
  split; [reflexivity|].
  destruct (list_parsers_keep_shape
              (Html.Elem "ol" [] [Html.Elem "li" [("value", "0")]
                                    [Html.Text "reviews accounts"]]) "AC-2")
    as [_ [_ [_ H]]].
  apply (H 0 (Html.Elem "li" [("value", "0")] [Html.Text "reviews accounts"])
           (Html.parsePart 0 (Html.Elem "li" [("value", "0")]
                                [Html.Text "reviews accounts"]))
           "0" 0%Z eq_refl eq_refl eq_refl eq_refl eq_refl).
  split; [apply Z.opp_nonpos_nonneg, Z.pow_nonneg; lia | lia].
Defined.






(** ** Placeholders and the report ([export-assignments-csv.mjs]) *)

Lemma scan_In_suffix {A} (m : option ascii -> str -> option (A * nat)) (x : A) (s : str) :
  forall prev skip, In x (Js.scan m prev s skip) ->
  exists prev' pre s' len, s = pre ++ s' /\ m prev' s' = Some (x, len).
Proof.
  induction s as [|c s IH]; intros prev skip H; [destruct H|].
  rewrite scan_cons in H.
  assert (R : forall prev0 skip0, In x (Js.scan m prev0 s skip0) ->
            exists prev' pre s' len, c :: s = pre ++ s' /\ m prev' s' = Some (x, len)).
  { intros prev0 skip0 H0. apply IH in H0 as (prev' & pre & s' & len & -> & E).
    now exists prev', (c :: pre), s', len. }
  destruct skip as [|k]; [|now apply R in H].
  destruct (m prev (c :: s)) as [[v len]|] eqn:E; [|now apply R in H].
  destruct H as [<-|H]; [|now apply R in H].
  now exists prev, [], (c :: s), len.
Qed.



Lemma firstn_through {A} (a b r : list A) (d : A) (n : nat) :
  n = length a + length b + 1 -> firstn n (a ++ b ++ d :: r) = a ++ b ++ [d].
Proof.
  intros ->. rewrite <- Nat.add_assoc, firstn_past. f_equal.
  now rewrite (firstn_past b (d :: r) 1).
Qed.

Lemma assignmentAt_shape (prev : option ascii) (s raw : str) (len : nat) :
  Assignments.assignmentAt prev s = Some (raw, len) ->
  Js.startsWith_ci raw "[assignment:" = true
  /\ last raw " "%char = "]"%char
  /\ 14 <= length raw
  /\ exists post, s = raw ++ post.
Proof.
  unfold Assignments.assignmentAt.
  destruct (Js.startsWith_ci s "[assignment:") eqn:P; [|discriminate].
  cbv zeta.
  destruct (Js.takeWhile Assignments.notClose (skipn 12 s)) as [|i inner] eqn:I;
    [discriminate|].
  destruct (skipn (12 + length (i :: inner)) s) as [|d r] eqn:S; [discriminate|].
  intros H.
  pose proof (f_equal (fun o => match o with Some (x, _) => x | None => [] end) H) as R.
  cbv beta iota in R. clear H.
  assert (L : 12 <= length s) by (apply startsWith_ci_length in P; exact P).
  assert (E : s = firstn 12 s ++ (i :: inner) ++ d :: r).
  { rewrite <- (firstn_skipn 12 s) at 1. f_equal.
    rewrite <- (takeWhile_skipn Assignments.notClose (skipn 12 s)), I. f_equal.
    rewrite skipn_skipn, Nat.add_comm. exact S. }
  assert (D : d = "]"%char).
  { rewrite Nat.add_comm, <- skipn_skipn, <- I in S.
    apply takeWhile_next in S. unfold Assignments.notClose in S.
    apply negb_false_iff in S. now apply ceqb_eq in S. }
  assert (LA : length (firstn 12 s) = 12) by (apply firstn_length_le; exact L).
  clear I S. revert E LA. generalize (firstn 12 s). intros a E LA.
  rewrite E in R, P. rewrite firstn_through in R by (rewrite LA; simpl; lia).
  subst raw d. repeat split.
  - apply (startsWith_ci_prefix "[assignment:" a ((i :: inner) ++ "]"%char :: r));
      [rewrite LA; apply le_n | exact P].
  - rewrite app_assoc. apply last_last.
  - rewrite !length_app, LA. simpl. lia.
  - exists r. rewrite E. now rewrite <- !app_assoc.
Qed.

(** X23.  Every match of the placeholder pattern in a text starts with
    the opener, in any case, ends with a closing bracket, has at least
    one character between them and stands in the text. *)
Theorem raw_matches_are_placeholders (text raw : str)
    (Hmatch : In raw (Js.matchAll Assignments.assignmentAt text)) :
  Js.startsWith_ci raw "[assignment:" = true
  /\ last raw " "%char = "]"%char
  /\ 14 <= length raw
  /\ exists pre post, text = pre ++ raw ++ post.
Proof.
  unfold Js.matchAll in Hmatch.
  apply scan_In_suffix in Hmatch as (prev & pre & s & len & -> & E).
  apply assignmentAt_shape in E as (A & B & C & post & ->).
  repeat split; try assumption. now exists pre, post.
Qed.

Lemma raw_matches_are_placeholders_witness :
  Js.startsWith_ci frequencyPlaceholder "[assignment:" = true
  /\ exists pre post,
       "Accounts are reviewed [Assignment: organization-defined frequency]."
       = pre ++ frequencyPlaceholder ++ post.
Proof.
  assert (H : In frequencyPlaceholder
                (Js.matchAll Assignments.assignmentAt
                   "Accounts are reviewed [Assignment: organization-defined frequency]."))
    by (left; reflexivity).
  destruct (raw_matches_are_placeholders _ _ H) as [A [_ [_ B]]].
  split; [exact A | exact B].
Defined.

Lemma totalCount_set (m : Js.Map Assignments.Stats) (k : str) (v : Assignments.Stats) :
  totalCount (Js.set m k v)
  = (totalCount m + Assignments.count v
     - match Js.get m k with Some old => Assignments.count old | None => 0 end)%Z.
Proof.
  unfold totalCount. induction m as [|[k0 v0] m IH]; simpl; [lia|].
  destruct (Js.eqb k0 k); simpl; [lia | rewrite IH; lia].
Qed.

Lemma In_set {V} (m : Js.Map V) (k : str) (v : V) (e : str * V) :
  In e (Js.set m k v) -> e = (k, v) \/ In e m.
Proof.
  induction m as [|[k0 v0] m IH]; simpl.
  - intros [<-|[]]. now left.
  - destruct (Js.eqb k0 k); simpl.
    + intros [<-|H]; [now left | right; now right].
    + intros [<-|H]; [right; now left|]. destruct (IH H); [now left | right; now right].
Qed.

Lemma mem_nonempty (x : str) (l : list str) : Js.mem x l = true -> l <> [].
Proof. destruct l; [discriminate | discriminate]. Qed.

Lemma record_good (m : Js.Map Assignments.Stats) (path raw : str) :
  Forall (fun e => goodStats (snd e)) m ->
  Forall (fun e => goodStats (snd e)) (Assignments.record m path raw)
  /\ totalCount (Assignments.record m path raw) = (totalCount m + 1)%Z.
Proof.
  intros G. unfold Assignments.record. cbv zeta. split.
  - apply Forall_forall. intros e He. apply In_set in He as [->|He];
      [|now apply (proj1 (Forall_forall _ _) G)].
    cbn [snd].
    assert (C : match Js.get m (Assignments.normalizeAssignment raw) with
                | Some st => goodStats st
                | None => True
                end).
    { destruct (Js.get m (Assignments.normalizeAssignment raw)) as [st|] eqn:E; [|exact I].
      apply get_In in E. apply (proj1 (Forall_forall _ _) G) in E. exact E. }
    destruct (Js.get m (Assignments.normalizeAssignment raw)) as [st|].
    + destruct C as (C1 & C2 & C3 & C4). unfold goodStats.
      cbn [Assignments.count Assignments.locations].
      destruct (Js.mem _ (Assignments.locations st)) eqn:M.
      * repeat split; [lia | exact C2 | exact C3 | lia].
      * repeat split; [lia | | now destruct (Assignments.locations st) |].
        -- apply NoDup_app; [exact C2 | repeat constructor; intros [] |].
           intros x Hx [<-|[]]. apply mem_not_In in M. now apply M.
        -- rewrite length_app. simpl. lia.
    + unfold goodStats. cbn [Assignments.count Assignments.locations Js.mem existsb].
      repeat split; [lia | repeat constructor; intros [] | discriminate | simpl; lia].
  - rewrite totalCount_set. cbn [Assignments.count].
    destruct (Js.get m (Assignments.normalizeAssignment raw)); simpl; lia.
Qed.

Lemma records_good (path : str) (raws : list str) (m : Js.Map Assignments.Stats) :
  NoDup (Js.keys m) -> Forall (fun e => goodStats (snd e)) m ->
  NoDup (Js.keys (fold_left (fun m raw => Assignments.record m path raw) raws m))
  /\ Forall (fun e => goodStats (snd e))
       (fold_left (fun m raw => Assignments.record m path raw) raws m)
  /\ totalCount (fold_left (fun m raw => Assignments.record m path raw) raws m)
     = (totalCount m + Z.of_nat (length raws))%Z.
Proof.
  revert m. induction raws as [|raw raws IH]; intros m N G.
  - simpl. repeat split; [assumption | assumption | lia].
  - cbn [fold_left]. destruct (record_good m path raw G) as [G' T'].
    destruct (IH (Assignments.record m path raw)) as (A & B & C);
      [now apply keys_set_NoDup | exact G' |].
    repeat split; [exact A | exact B |]. rewrite C, T'. simpl length. lia.
Qed.

(** X24.  The placeholders collected in a scope are pairwise different;
    each has been counted at least once, at one place or more and at no
    more places than times; all counts together are the number of
    matches in the string fields of the scope; and the scope gives one
    row for each placeholder. *)
Theorem collected_statistics (scope : json) (control_id enhancement_id : option json) :
  NoDup (Js.keys (Assignments.collectAssignmentsInScope scope))
  /\ Forall (fun e => goodStats (snd e)) (Assignments.collectAssignmentsInScope scope)
  /\ totalCount (Assignments.collectAssignmentsInScope scope)
     = Z.of_nat (length (flat_map (fun field => Js.matchAll Assignments.assignmentAt (snd field))
                           (Assignments.walk scope "")))
  /\ map Assignments.assignment_placeholder
       (Assignments.rowsOf control_id enhancement_id scope)
     = Js.keys (Assignments.collectAssignmentsInScope scope)
  /\ map Assignments.occurrence_count (Assignments.rowsOf control_id enhancement_id scope)
     = map (fun e => Assignments.count (snd e)) (Assignments.collectAssignmentsInScope scope).
Proof.
  assert (F : forall fields m,
             NoDup (Js.keys m) -> Forall (fun e => goodStats (snd e)) m ->
             NoDup (Js.keys (fold_left Assignments.onString fields m))
             /\ Forall (fun e => goodStats (snd e)) (fold_left Assignments.onString fields m)
             /\ totalCount (fold_left Assignments.onString fields m)
                = (totalCount m
                   + Z.of_nat (length (flat_map
                                  (fun field => Js.matchAll Assignments.assignmentAt (snd field))
                                  fields)))%Z).
  { induction fields as [|f fields IH]; intros m N G.
    - simpl. repeat split; [assumption | assumption | lia].
    - cbn [fold_left flat_map]. unfold Assignments.onString at 2 4 6.
      destruct (records_good (fst f) (Js.matchAll Assignments.assignmentAt (snd f)) m N G)
        as (A & B & C).
      destruct (IH _ A B) as (A' & B' & C').
      repeat split; [exact A' | exact B' |]. rewrite C', C, length_app. lia. }
  unfold Assignments.collectAssignmentsInScope.
  destruct (F (Assignments.walk scope "") []) as (A & B & C); [constructor | constructor |].
  repeat split; [exact A | exact B | exact C | |].
  - unfold Assignments.rowsOf, Assignments.collectAssignmentsInScope, Js.keys.
    rewrite map_map. reflexivity.
  - unfold Assignments.rowsOf, Assignments.collectAssignmentsInScope.
    rewrite map_map. reflexivity.
Qed.

Lemma normal_startsClean (x : str) : normalText x = true -> startsClean x = true.
Proof.
  unfold normalText. intros H. apply andb_true_iff in H as [H _].
  destruct x as [|c x]; [reflexivity|]. cbn [singleSpaced] in H. simpl.
  destruct (Js.is_space c); [|reflexivity]. rewrite andb_false_r in H. discriminate.
Qed.

Lemma stripClose_bracket (s : str) : Assignments.stripClose (s ++ "]") = s.
Proof.
  unfold Assignments.stripClose. rewrite rev_unit.
  change (Js.ceqb "]"%char "]"%char) with true. cbv iota. apply rev_involutive.
Qed.

(** X25.  The topic of the placeholder written in the usual way for a
    text [x], [[Assignment: organization-defined x]], is [x], for every
    [x] in which white space stands only as single spaces between other
    characters. *)
Theorem topic_of_placeholder (x : str) (Hx : normalText x = true) :
  Assignments.parseAssignmentTopic ("[Assignment: organization-defined " ++ x ++ "]") = x.
Proof.
  unfold Assignments.parseAssignmentTopic. cbv zeta.
  change (Assignments.stripOpen ("[Assignment: organization-defined " ++ x ++ "]"))
    with (("Assignment: organization-defined " ++ x) ++ "]").
  rewrite stripClose_bracket.
  change (Assignments.stripLabel "assignment:" ("Assignment: organization-defined " ++ x))
    with ("organization-defined " ++ x).
  destruct (rev x) as [|d r] eqn:R.
  { apply (f_equal (@rev _)) in R. rewrite rev_involutive in R. subst x. reflexivity. }
  assert (T : Js.trim ("organization-defined " ++ x) = "organization-defined " ++ x).
  { assert (Hd : Js.is_space d = false).
    { unfold normalText in Hx. apply andb_true_iff in Hx as [_ Hx].
      rewrite R in Hx. simpl in Hx. now apply negb_true_iff in Hx. }
    apply (trim_keeps_tail [] "o"%char ("rganization-defined " ++ x) d
             (r ++ rev "organization-defined ")); [reflexivity | | exact Hd].
    change ("o"%char :: "rganization-defined " ++ x) with ("organization-defined " ++ x).
    rewrite rev_app_distr, R. reflexivity. }
  rewrite T.
  change (Assignments.stripLabel "organization-defined" ("organization-defined " ++ x))
    with (Js.dropWhile Js.is_space x).
  rewrite (dropWhile_clean x (normal_startsClean x Hx)).
  now apply normal_trim.
Qed.

Lemma topic_of_placeholder_witness :
  Assignments.parseAssignmentTopic "[Assignment: organization-defined time period]"
  = "time period".
Proof. exact (topic_of_placeholder "time period" eq_refl). Defined.

(** *** Fields of the report *)

Lemma doubleQuotes_inj (a b : str) :
  Csv.doubleQuotes a = Csv.doubleQuotes b -> a = b.
Proof.
  revert b. induction a as [|c a IH]; intros [|d b]; cbn [Csv.doubleQuotes].
  - reflexivity.
  - destruct (Js.ceqb d Csv.quote); discriminate.
  - destruct (Js.ceqb c Csv.quote); discriminate.
  - destruct (Js.ceqb c Csv.quote) eqn:C, (Js.ceqb d Csv.quote) eqn:D.
    + apply ceqb_eq in C, D. subst. intros [= H]. f_equal. now apply IH.
    + intros [= <- H]. rewrite (proj2 (ceqb_eq _ _) eq_refl) in D. discriminate.
    + intros [= -> H]. rewrite (proj2 (ceqb_eq _ _) eq_refl) in C. discriminate.
    + intros [= <- H]. f_equal. now apply IH.
Qed.

Lemma ceqb_sym (a b : ascii) : Js.ceqb a b = Js.ceqb b a.
Proof. unfold Js.ceqb. apply Ascii.eqb_sym. Qed.

Lemma doubleQuotes_count (text : str) :
  Pdf.count Csv.quote (Csv.doubleQuotes text) = 2 * Pdf.count Csv.quote text.
Proof.
  unfold Pdf.count. induction text as [|c text IH]; [reflexivity|].
  cbn [Csv.doubleQuotes]. destruct (Js.ceqb c Csv.quote) eqn:C.
  - apply ceqb_eq in C. subst c. cbn [filter].
    rewrite (proj2 (ceqb_eq Csv.quote Csv.quote) eq_refl). cbn [length]. rewrite IH. lia.
  - cbn [filter]. rewrite (ceqb_sym Csv.quote c), C. exact IH.
Qed.

Lemma plain_no_quote (text : str) :
  existsb Csv.special text = false -> Pdf.count Csv.quote text = 0.
Proof.
  unfold Pdf.count. induction text as [|c text IH]; [reflexivity|].
  cbn [existsb filter]. intros H. apply orb_false_iff in H as [H1 H2].
  unfold Csv.special in H1. apply orb_false_iff in H1 as [H1 _].
  apply orb_false_iff in H1 as [H1 _].
  rewrite (ceqb_sym Csv.quote c), H1. now apply IH.
Qed.

(** X26.  [csvEscape] leaves a field without double quote, comma and
    line feed as it is; it never gives two fields the same text; and the
    number of double quotes in what it gives is even, so that quoting is
    balanced in every line of the report. *)
Theorem csvEscape_fields (a b : str) :
  (existsb Csv.special a = false -> Csv.csvEscape a = a)
  /\ (Csv.csvEscape a = Csv.csvEscape b -> a = b)
  /\ Nat.even (Pdf.count Csv.quote (Csv.csvEscape a)) = true.
Proof.
  split; [|split].
  - unfold Csv.csvEscape. now intros ->.
  - unfold Csv.csvEscape.
    destruct (existsb Csv.special a) eqn:A, (existsb Csv.special b) eqn:B.
    + intros H. injection H as H. apply app_inv_tail in H. now apply doubleQuotes_inj.
    + intros <-. cbn [app existsb] in B. unfold Csv.special at 1 in B.
      rewrite (proj2 (ceqb_eq Csv.quote Csv.quote) eq_refl) in B. discriminate B.
    + intros ->. cbn [app existsb] in A. unfold Csv.special at 1 in A.
      rewrite (proj2 (ceqb_eq Csv.quote Csv.quote) eq_refl) in A. discriminate A.
    + trivial.
  - unfold Csv.csvEscape. destruct (existsb Csv.special a) eqn:A.
    + unfold Pdf.count. rewrite !filter_app, !length_app.
      fold (Pdf.count Csv.quote (Csv.doubleQuotes a)). rewrite doubleQuotes_count.
      change (length (filter (Js.ceqb Csv.quote) [Csv.quote])) with 1.
      replace (1 + (2 * Pdf.count Csv.quote a + 1)) with (2 * (Pdf.count Csv.quote a + 1))
        by lia.
      apply Nat.even_spec. now exists (Pdf.count Csv.quote a + 1).
    + now rewrite plain_no_quote.
Qed.

Lemma indexOf_found (s p : str) (idx : nat) :
  Csv.indexOf s p = Some idx -> Js.startsWith (skipn idx s) p = true /\ idx <= length s.
Proof.
  revert idx. induction s as [|c s IH]; intros idx; cbn [Csv.indexOf].
  - destruct (Js.startsWith [] p) eqn:E; [|discriminate].
    intros [= <-]. split; [exact E | apply le_n].
  - destruct (Js.startsWith (c :: s) p) eqn:E.
    + intros [= <-]. split; [exact E | apply Nat.le_0_l].
    + destruct (Csv.indexOf s p) as [i|]; [|discriminate].
      intros [= <-]. destruct (IH i eq_refl) as [A B]. split; [exact A | simpl; lia].
Qed.

Lemma startsWith_length (s p : str) : Js.startsWith s p = true -> length p <= length s.
Proof.
  revert s. induction p as [|x p IH]; intros s H; simpl; [lia|].
  destruct s as [|y s]; [discriminate|]. simpl in *.
  apply andb_true_iff in H as [_ H]. apply IH in H. lia.
Qed.

Lemma startsWith_firstn (s p : str) (k : nat) :
  length p <= k -> Js.startsWith s p = true -> Js.startsWith (firstn k s) p = true.
Proof.
  revert s k. induction p as [|x p IH]; intros s k L H; [now destruct (firstn k s)|].
  destruct s as [|y s]; [discriminate H|].
  destruct k as [|k]; [simpl in L; lia|].
  cbn [firstn Js.startsWith] in *.
  apply andb_true_iff in H as [H1 H2]. rewrite H1. apply IH; [simpl in L; lia | exact H2].
Qed.

Lemma startsWith_app (s t p : str) :
  Js.startsWith s p = true -> Js.startsWith (s ++ t) p = true.
Proof.
  revert s. induction p as [|x p IH]; intros s H; [now destruct (s ++ t)|].
  destruct s as [|y s]; [discriminate H|].
  cbn [app Js.startsWith] in *.
  apply andb_true_iff in H as [H1 H2]. rewrite H1. now apply IH.
Qed.

Lemma includes_middle (a b c p : str) :
  Js.startsWith b p = true -> Js.includes (a ++ b ++ c) p = true.
Proof.
  intros H. apply includes_app_r.
  destruct (b ++ c) eqn:E; cbn [Js.includes]; rewrite <- E;
    rewrite (startsWith_app b c p H); reflexivity.
Qed.

Lemma slice_length (s : str) (start stop : nat) :
  length (Csv.slice s start stop) <= stop - start.
Proof. unfold Csv.slice. rewrite length_firstn. lia. Qed.

(** X27.  For a text and a placeholder in ASCII: the excerpt of the text
    is empty for a text of white space only; otherwise it is at most 220
    characters of the flattened text when the placeholder does not stand
    in it, and at most the placeholder with 80 characters on each side
    and the two ellipses when it does, and then the placeholder stands
    in the excerpt (without regard to case). *)
Theorem excerpt_shows_placeholder (text assignment : str)
    (Htext : isAscii text = true) (Hassignment : isAscii assignment = true) :
  (Assignments.normalizeSpaces text = [] -> Csv.extractSnippet text assignment = [])
  /\ (Csv.indexOf (Js.toLowerCase (Assignments.normalizeSpaces text))
        (Js.toLowerCase assignment) = None ->
      length (Csv.extractSnippet text assignment) <= 220)
  /\ (forall idx,
        Csv.indexOf (Js.toLowerCase (Assignments.normalizeSpaces text))
          (Js.toLowerCase assignment) = Some idx ->
        length (Csv.extractSnippet text assignment) <= length assignment + 166
        /\ Js.includes (Js.toLowerCase (Csv.extractSnippet text assignment))
             (Js.toLowerCase assignment) = true).
Proof.
  clear Htext Hassignment.
  unfold Csv.extractSnippet. cbv zeta.
  set (flattened := Assignments.normalizeSpaces text).
  split; [now intros ->|]. split.
  - intros ->. destruct flattened; [simpl; lia|].
    pose proof (slice_length (a :: flattened) 0 220). lia.
  - intros idx Hidx. rewrite Hidx.
    destruct (indexOf_found _ _ _ Hidx) as [Hs Hle].
    unfold Js.toLowerCase in Hs, Hle. rewrite length_map in Hle.
    pose proof (startsWith_length _ _ Hs) as Hlen.
    rewrite length_skipn, !length_map in Hlen.
    destruct flattened as [|c0 rest] eqn:F.
    { simpl in Hle. assert (idx = 0) by lia. subst idx.
      simpl in Hlen. destruct assignment; [split; [simpl; lia | reflexivity] | simpl in Hlen; lia]. }
    rewrite <- F in *. clear F c0 rest.
    set (start := idx - 80).
    set (stop := Nat.min (length flattened) (idx + length assignment + 80)).
    split.
    + rewrite !length_app. pose proof (slice_length flattened start stop).
      assert (stop - start <= length assignment + 160) by (unfold start, stop; lia).
      destruct (0 <? start), (stop <? length flattened); simpl; lia.
    + unfold Js.toLowerCase. rewrite !map_app.
      unfold Csv.slice.
      assert (E : skipn start flattened
                  = firstn (idx - start) (skipn start flattened) ++ skipn idx flattened).
      { rewrite <- (firstn_skipn (idx - start) (skipn start flattened)) at 1.
        rewrite skipn_skipn. f_equal. f_equal. unfold start. lia. }
      rewrite E.
      assert (L : length (firstn (idx - start) (skipn start flattened)) = idx - start).
      { apply firstn_length_le. rewrite length_skipn. unfold start. lia. }
      replace (stop - start)
        with (length (firstn (idx - start) (skipn start flattened)) + (stop - idx))
        by (rewrite L; unfold start, stop; lia).
      rewrite firstn_past, map_app.
      rewrite <- !app_assoc.
      rewrite app_assoc. apply includes_middle.
      rewrite <- firstn_map. apply startsWith_firstn; [|rewrite <- skipn_map; exact Hs].
      rewrite length_map. unfold stop. lia.
Qed.

Lemma excerpt_shows_placeholder_witness :
  isAscii "Accounts are reviewed [Assignment: organization-defined frequency]." = true
  /\ isAscii frequencyPlaceholder = true
  /\ Js.includes
       (Js.toLowerCase
          (Csv.extractSnippet
             "Accounts are reviewed [Assignment: organization-defined frequency]."
             frequencyPlaceholder))
       (Js.toLowerCase frequencyPlaceholder) = true.
Proof.
  split; [reflexivity|]. split; [reflexivity|].
  exact (proj2 (proj2 (proj2 (excerpt_shows_placeholder
           "Accounts are reviewed [Assignment: organization-defined frequency]."
           frequencyPlaceholder eq_refl eq_refl)) 22 eq_refl)).
Defined.

(** ** Publishing the catalogue to the web client *)

Lemma get_None_keys {V} (m : Js.Map V) (k : str) :
  Js.get m k = None <-> ~ In k (Js.keys m).
Proof.
  unfold Js.keys. induction m as [|[k0 v0] m IH]; simpl; [tauto|].
  destruct (Js.eqb k0 k) eqn:E.
  - apply eqb_eq in E. subst. split; [discriminate | intros H; elim H; now left].
  - apply eqb_neq in E. rewrite IH. tauto.
Qed.

Lemma get_filter {V} (keep : str * V -> bool) (m : Js.Map V) (k : str) :
  NoDup (Js.keys m) ->
  Js.get (filter keep m) k
  = match Js.get m k with
    | Some v => if keep (k, v) then Some v else None
    | None => None
    end.
Proof.
  unfold Js.keys. induction m as [|[k0 v0] m IH]; intros N; [reflexivity|].
  simpl in N. inversion N as [|? ? Hn Hd]; subst. cbn [filter Js.get].
  destruct (Js.eqb k0 k) eqn:E.
  - apply eqb_eq in E. subst k0. destruct (keep (k, v0)).
    + cbn [Js.get]. now rewrite eqb_refl.
    + rewrite (IH Hd). now rewrite (proj2 (get_None_keys m k) Hn).
  - destruct (keep (k0, v0)); [cbn [Js.get]; rewrite E|]; now apply IH.
Qed.

Lemma copyAll_get (files : list (str * str)) :
  NoDup (Js.keys files) ->
  forall t t' k,
    Publish.copyAll t files = (t', true) ->
    Js.get t' k
    = match Js.get files k with
      | Some bytes => Some (Publish.File bytes)
      | None => Js.get t k
      end.
Proof.
  unfold Js.keys. induction files as [|[name bytes] files IH]; intros N t t' k H.
  - injection H as <-. reflexivity.
  - simpl in N. inversion N as [|? ? Hn Hd]; subst. cbn [Publish.copyAll] in H.
    unfold Publish.copyFile in H.
    assert (S : Publish.copyAll (Js.set t name (Publish.File bytes)) files = (t', true)).
    { destruct (Js.get t name) as [[b|]|]; [exact H | discriminate H | exact H]. }
    rewrite (IH Hd _ _ k S), get_set. cbn [Js.get].
    destruct (Js.eqb name k) eqn:E; [|reflexivity].
    apply eqb_eq in E. subst k.
    now rewrite (proj2 (get_None_keys files name) Hn).
Qed.

Lemma cleared_get (t : Publish.target) (name : str) :
  NoDup (Js.keys t) ->
  Js.get (Publish.clearTargetControlJsonFiles t) name
  = match Js.get t name with
    | Some (Publish.File bytes) =>
        if Publish.endsWithJson name then None else Some (Publish.File bytes)
    | other => other
    end.
Proof.
  intros N. unfold Publish.clearTargetControlJsonFiles. rewrite get_filter by exact N.
  destruct (Js.get t name) as [[bytes|]|]; cbn [fst snd]; [|reflexivity|reflexivity].
  now destruct (Publish.endsWithJson name).
Qed.

(** X28.  After a publishing step that ends well, the target holds the
    index under the name [index] and every JSON file of the source
    directory with the source's bytes; every JSON file it holds comes
    from the source, so that no file of an earlier run is left; and what
    is neither the index nor a JSON file is as it was. *)
Theorem publish_result (src : Publish.source) (t t' : Publish.target)
    (count : nat) (metadataPublished : bool)
    (Htarget : NoDup (Js.keys t))
    (Hsource : forall entries, Publish.sourceControls src = Some entries ->
                 NoDup (Js.keys entries))
    (Hdone : Publish.publish src t = (t', Publish.Published count metadataPublished)) :
  exists indexBytes entries,
    Publish.sourceIndex src = Some indexBytes
    /\ Publish.sourceControls src = Some entries
    /\ Js.get t' "index" = Some (Publish.File indexBytes)
    /\ count = length (filter (fun e => Publish.endsWithJson (fst e)) entries)
    /\ (forall name bytes, In (name, bytes) entries -> Publish.endsWithJson name = true ->
          Js.get t' name = Some (Publish.File bytes))
    /\ (forall name bytes, Publish.endsWithJson name = true ->
          Js.get t' name = Some (Publish.File bytes) ->
          In (name, bytes) entries
          \/ (name = "metadata.json" /\ Publish.sourceMetadata src = Some bytes
              /\ metadataPublished = true))
    /\ (forall name, Publish.endsWithJson name = false -> name <> "index" ->
          Js.get t' name = Js.get t name).
Proof.
  unfold Publish.publish in Hdone. cbv zeta in Hdone.
  destruct (Publish.sourceIndex src) as [indexBytes|]; [|discriminate Hdone].
  unfold Publish.copyFile at 1 in Hdone.
  set (cleared := Publish.clearTargetControlJsonFiles t) in *.
  set (t1 := Js.set cleared "index" (Publish.File indexBytes)) in *.
  assert (H1 : match
                 match Publish.sourceMetadata src with
                 | None => Some (t1, false)
                 | Some m =>
                     match Publish.copyFile t1 "metadata.json" m with
                     | Some t2 => Some (t2, true)
                     | None => None
                     end
                 end
               with
               | None => (t1, Publish.Failed)
               | Some (t2, published) =>
                   match Publish.sourceControls src with
                   | None => (t2, Publish.Failed)
                   | Some entries =>
                       match Publish.copyAll t2
                               (filter (fun e => Publish.endsWithJson (fst e)) entries) with
                       | (t3, true) =>
                           (t3, Publish.Published
                                  (length (filter (fun e => Publish.endsWithJson (fst e))
                                             entries)) published)
                       | (t3, false) => (t3, Publish.Failed)
                       end
                   end
               end = (t', Publish.Published count metadataPublished)).
  { destruct (Js.get cleared "index") as [[b|]|]; [exact Hdone | discriminate Hdone | exact Hdone]. }
  clear Hdone.
  assert (M : exists t2,
             (forall k, Js.get t2 k
                        = match Publish.sourceMetadata src with
                          | Some m => if Js.eqb "metadata.json" k
                                      then Some (Publish.File m) else Js.get t1 k
                          | None => Js.get t1 k
                          end)
             /\ metadataPublished
                = match Publish.sourceMetadata src with Some _ => true | None => false end
             /\ match Publish.sourceControls src with
                | None => (t2, Publish.Failed)
                | Some entries =>
                    match Publish.copyAll t2
                            (filter (fun e => Publish.endsWithJson (fst e)) entries) with
                    | (t3, true) =>
                        (t3, Publish.Published
                               (length (filter (fun e => Publish.endsWithJson (fst e))
                                          entries)) metadataPublished)
                    | (t3, false) => (t3, Publish.Failed)
                    end
                end = (t', Publish.Published count metadataPublished)).
  { destruct (Publish.sourceMetadata src) as [m|].
    - unfold Publish.copyFile in H1.
      assert (H2 : match Publish.sourceControls src with
                   | None => (Js.set t1 "metadata.json" (Publish.File m), Publish.Failed)
                   | Some entries =>
                       match Publish.copyAll (Js.set t1 "metadata.json" (Publish.File m))
                               (filter (fun e => Publish.endsWithJson (fst e)) entries) with
                       | (t3, true) =>
                           (t3, Publish.Published
                                  (length (filter (fun e => Publish.endsWithJson (fst e))
                                             entries)) true)
                       | (t3, false) => (t3, Publish.Failed)
                       end
                   end = (t', Publish.Published count metadataPublished)).
      { destruct (Js.get t1 "metadata.json") as [[b|]|];
          [exact H1 | discriminate H1 | exact H1]. }
      assert (metadataPublished = true).
      { destruct (Publish.sourceControls src) as [entries|]; [|discriminate H2].
        destruct (Publish.copyAll _ _) as [t3 [|]]; [|discriminate H2].
        now injection H2 as _ _ <-. }
      subst metadataPublished.
      exists (Js.set t1 "metadata.json" (Publish.File m)).
      split; [intros k; apply get_set|]. split; [reflexivity | exact H2].
    - assert (metadataPublished = false).
      { destruct (Publish.sourceControls src) as [entries|]; [|discriminate H1].
        destruct (Publish.copyAll _ _) as [t3 [|]]; [|discriminate H1].
        now injection H1 as _ _ <-. }
      subst metadataPublished.
      exists t1. split; [reflexivity|]. split; [reflexivity | exact H1]. }
  destruct M as (t2 & G2 & Hm & H2).
  destruct (Publish.sourceControls src) as [entries|] eqn:SC; [|discriminate H2].
  specialize (Hsource entries eq_refl).
  destruct (Publish.copyAll t2 _) as [t3 [|]] eqn:CA; [|discriminate H2].
  injection H2 as -> <-.
  assert (G3 : forall k,
             Js.get t' k
             = match Js.get entries k with
               | Some bytes =>
                   if Publish.endsWithJson k then Some (Publish.File bytes) else Js.get t2 k
               | None => Js.get t2 k
               end).
  { intros k.
    rewrite (copyAll_get _ (NoDup_map_filter fst _ entries Hsource) _ _ k CA).
    rewrite get_filter by exact Hsource. cbn [fst].
    destruct (Js.get entries k); [|reflexivity].
    now destruct (Publish.endsWithJson k). }
  assert (G1 : forall k, Js.get t1 k
                         = if Js.eqb "index" k then Some (Publish.File indexBytes)
                           else Js.get cleared k)
    by (intros k; apply get_set).
  exists indexBytes, entries. split; [reflexivity|]. split; [reflexivity|].
  split; [|split; [reflexivity|split; [|split]]].
  - rewrite G3. change (Publish.endsWithJson "index") with false.
    assert (Js.get t2 "index" = Some (Publish.File indexBytes)).
    { rewrite G2, G1. now destruct (Publish.sourceMetadata src). }
    now destruct (Js.get entries "index").
  - intros name bytes Hin Hj. rewrite G3, (In_get entries name bytes Hsource Hin), Hj.
    reflexivity.
  - intros name bytes Hj Hg. rewrite G3, Hj in Hg.
    destruct (Js.get entries name) as [b|] eqn:E.
    { injection Hg as <-. left. now apply get_In. }
    rewrite G2 in Hg.
    assert (C : Js.get t1 name <> Some (Publish.File bytes)).
    { rewrite G1. destruct (Js.eqb "index" name) eqn:I.
      - apply eqb_eq in I. subst name. discriminate Hj.
      - unfold cleared. rewrite cleared_get by exact Htarget.
        destruct (Js.get t name) as [[b|]|]; [rewrite Hj|..]; discriminate. }
    destruct (Publish.sourceMetadata src) as [m|]; [|now elim C].
    destruct (Js.eqb "metadata.json" name) eqn:Em; [|now elim C].
    apply eqb_eq in Em. injection Hg as <-. right.
    split; [now symmetry | split; [reflexivity | exact Hm]].
  - intros name Hj Hi. rewrite G3, Hj.
    assert (Js.get t2 name = Js.get t name).
    { rewrite G2.
      assert (Js.get t1 name = Js.get t name).
      { rewrite G1, (proj2 (eqb_neq "index" name)) by (intros C; now subst).
        unfold cleared. rewrite cleared_get by exact Htarget. rewrite Hj.
        now destruct (Js.get t name) as [[b|]|]. }
      destruct (Publish.sourceMetadata src) as [m|]; [|assumption].
      destruct (Js.eqb "metadata.json" name) eqn:Em; [|assumption].
      apply eqb_eq in Em. subst name. discriminate Hj. }
    now destruct (Js.get entries name).
Qed.

Lemma publish_result_witness :
  NoDup (Js.keys staleTarget)
  /\ Js.get (fst (Publish.publish completeSource staleTarget)) "AC-2.json"
     = Some (Publish.File "{new}")
  /\ Js.get (fst (Publish.publish completeSource staleTarget)) "robots.txt"
     = Js.get staleTarget "robots.txt".
Proof.
  assert (N : NoDup (Js.keys staleTarget)).
  { unfold staleTarget. simpl. repeat constructor; simpl; intuition discriminate. }
  assert (S : forall entries, Publish.sourceControls completeSource = Some entries ->
                NoDup (Js.keys entries)).
  { intros entries [= <-]. simpl. repeat constructor; simpl; intuition discriminate. }
  destruct (publish_result completeSource staleTarget
              (fst (Publish.publish completeSource staleTarget)) 1 false N S eq_refl)
    as (indexBytes & entries & _ & E & _ & _ & A & _ & B).
  injection E as <-.
  split; [exact N|]. split.
  - apply A; [left; reflexivity | reflexivity].
  - apply B; [reflexivity | discriminate].
Defined.

(** X29.  A publishing step that finds no index in the source fails, but
    only after it has emptied the target: no JSON file is left there,
    though nothing has been published; the other entries are as they
    were. *)
Theorem failed_publish_has_cleared (src : Publish.source) (t : Publish.target)
    (Htarget : NoDup (Js.keys t))
    (Hindex : Publish.sourceIndex src = None) :
  Publish.publish src t = (Publish.clearTargetControlJsonFiles t, Publish.Failed)
  /\ (forall name bytes, Publish.endsWithJson name = true ->
        Js.get (fst (Publish.publish src t)) name <> Some (Publish.File bytes))
  /\ (forall name, Publish.endsWithJson name = false ->
        Js.get (fst (Publish.publish src t)) name = Js.get t name).
Proof.
  assert (E : Publish.publish src t = (Publish.clearTargetControlJsonFiles t, Publish.Failed)).
  { unfold Publish.publish. now rewrite Hindex. }
  rewrite E. cbn [fst]. split; [reflexivity|]. split.
  - intros name bytes Hj. rewrite cleared_get by exact Htarget.
    destruct (Js.get t name) as [[b|]|]; [rewrite Hj|..]; discriminate.
  - intros name Hj. rewrite cleared_get by exact Htarget. rewrite Hj.
    now destruct (Js.get t name) as [[b|]|].
Qed.

Lemma failed_publish_has_cleared_witness :
  Js.get staleTarget "AC-1.json" = Some (Publish.File "{old}")
  /\ snd (Publish.publish sourceWithoutIndex staleTarget) = Publish.Failed
  /\ Js.get (fst (Publish.publish sourceWithoutIndex staleTarget)) "AC-1.json" = None.
Proof.
  assert (N : NoDup (Js.keys staleTarget)).
  { unfold staleTarget. simpl. repeat constructor; simpl; intuition discriminate. }
  destruct (failed_publish_has_cleared sourceWithoutIndex staleTarget N eq_refl)
    as [E _].
  split; [reflexivity|]. rewrite E. split; reflexivity.
Defined.
